(** * BlockRoyale feedback bot: credential lifecycle and delivery resilience

    A shallow embedding of the TypeScript sources
    ([emailService] / [GmailService] with its token monitor,
    [emailFallback] / [EmailFallbackService] with its auto-retry timer,
    the OAuth2 routes, [tokenStorage], the [/webhook/support] route and
    the [tokenChecker]), together with the properties the specification
    states about them and further properties of the code.

    Conventions of the embedding.
    - The process is single threaded; an [async] function is modelled by a
      computation in a state-and-exception monad [M].  A JavaScript
      exception keeps the side effects made before it was thrown, so a
      computation returns its final state also when it throws.
    - Everything outside the process (the mail provider, the identity
      endpoint, the chat API, the file system) is an oracle of the
      environment [Env]: it sees the current time and the whole history of
      events and answers with a value or with a thrown error, after some
      elapsed time.
    - Every external call, every timer wait and the console lines the
      sources print are appended to an event log; the properties count
      events of that log.
    - Runs are sequential: one operation finishes before the next starts.
    - Strings are [string]s of bytes, the text in UTF-8: the characters
      the sources test for are ASCII and so single bytes.  [toLowerCase]
      acts on the letters A-Z. *)

From Stdlib Require Import String Ascii ZArith List Bool Lia Arith.
From Stdlib Require Import QArith.
From Stdlib Require Import RelationClasses.
Import ListNotations.
Open Scope string_scope.
Open Scope Z_scope.

Set Implicit Arguments.

(** ** JavaScript values met in error objects *)

(** What [error.code] and [error.status] may hold: a string such as
    ['ECONNRESET'], a number such as [503], or [undefined]. *)
Inductive JsVal : Type :=
| VUndef
| VStr (s : string)
| VNum (n : Z).

(** SameValueZero on [JsVal], the comparison of [Array.prototype.includes]. *)
Definition jsval_eqb (a b : JsVal) : bool :=
  match a, b with
  | VUndef, VUndef => true
  | VStr s, VStr t => String.eqb s t
  | VNum n, VNum m => Z.eqb n m
  | _, _ => false
  end.

Definition js_includes (l : list JsVal) (v : JsVal) : bool :=
  existsb (jsval_eqb v) l.

(** A thrown value, inspected through [.code], [.status], [.message] and
    [.response?.error_code] ([catch (error: any)]).  [message = None] is an
    error object that has no string under [.message]. *)
Record JsError : Type := mkError {
  code : JsVal;
  status : JsVal;
  message : option string;
  response_error_code : JsVal
}.

(** [new Error(msg)] *)
Definition newError (msg : string) : JsError :=
  mkError VUndef VUndef (Some msg) VUndef.

(** The [TypeError] of reading property [prop] of [undefined]. *)
Definition TypeError (prop : string) : JsError :=
  newError ("Cannot read properties of undefined (reading '" ++ prop ++ "')").

(** Result of an evaluation: a value or a thrown error. *)
Inductive Res (A : Type) : Type :=
| Ok (a : A)
| Throw (e : JsError).
Arguments Ok {A} a.
Arguments Throw {A} e.

(** ** String helpers *)

(** [hay.includes(needle)] *)
Fixpoint includes (needle hay : string) : bool :=
  if String.prefix needle hay then true
  else match hay with
       | EmptyString => false
       | String _ rest => includes needle rest
       end.

Definition lower_ascii (c : ascii) : ascii :=
  let n := nat_of_ascii c in
  if (Nat.leb 65 n && Nat.leb n 90)%bool then ascii_of_nat (n + 32) else c.

(** [s.toLowerCase()] *)
Fixpoint toLowerCase (s : string) : string :=
  match s with
  | EmptyString => EmptyString
  | String c rest => String (lower_ascii c) (toLowerCase rest)
  end.

(** ** Error taxonomy ([GmailService.isRetryableError],
       [GmailService.isAuthenticationError]) *)

Definition retryableCodes : list JsVal :=
  [ VStr "ECONNRESET"; VStr "ETIMEDOUT"; VStr "ENOTFOUND"; VStr "EAI_AGAIN";
    VNum 500; VNum 502; VNum 503; VNum 429 ].

(** The [||] chain short-circuits: [error.message] is only read when neither
    [code] nor [status] is in the table. *)
Definition isRetryableError (error : JsError) : Res bool :=
  if js_includes retryableCodes (code error) then Ok true
  else if js_includes retryableCodes (status error) then Ok true
  else match message error with
       | None => Throw (TypeError "includes")
       | Some m =>
           Ok (includes "timeout" m || includes "network" m
               || includes "quota" m)%bool
       end.

Definition authErrors : list JsVal :=
  [ VStr "invalid_grant"; VStr "invalid_request"; VStr "unauthorized_client";
    VStr "access_denied"; VStr "invalid_scope"; VNum 401; VNum 403 ].

Definition authMessages : list string :=
  [ "Token has been expired or revoked"; "invalid_grant"; "unauthorized";
    "forbidden"; "invalid refresh token"; "refresh token expired" ].

Definition isAuthenticationError (error : JsError) : Res bool :=
  if js_includes authErrors (code error) then Ok true
  else if js_includes authErrors (status error) then Ok true
  else match message error with
       | None => Throw (TypeError "toLowerCase")
       | Some m =>
           Ok (existsb (fun msg => includes (toLowerCase msg) (toLowerCase m))
                       authMessages)
       end.

(** ** Data model ([types.ts]) *)

Record GmailEmailOptions : Type := mkOptions {
  to : string;
  subject : string;
  htmlBody : string;
  textBody : string;
  replyToMessageId : option string
}.

Record GmailEmailResponse : Type := mkResponse {
  success : bool;
  messageId : option string;
  threadId : option string;
  error : option string;
  errorCode : JsVal;
  timestamp : option Z;
  requiresReAuth : option bool
}.

(** The authRelated tag of an outcome: [requiresReAuth] read as a
    condition ([undefined] is falsy). *)
Definition authRelated (r : GmailEmailResponse) : bool :=
  match requiresReAuth r with Some b => b | None => false end.

Record TokenStatus : Type := mkStatus {
  valid : bool;
  lastCheck : Z;
  needsReAuth : bool
}.

(** ** Events *)

Inductive ConsoleLine : Type :=
| LogSent (attempt : nat)          (* Email sent successfully ... on attempt n *)
| LogAttemptFailed (attempt : nat) (* Gmail API attempt n failed *)
| LogRetrying (ms : Z)             (* Retrying Gmail API call in ms *)
| LogAuthFailed                    (* Gmail authentication failed *)
| LogValidationFailed              (* Token validation failed *)
| LogRefreshing                    (* Attempting to refresh access token *)
| LogRefreshOk                     (* Token refresh successful *)
| LogRefreshFailed                 (* Token refresh failed *)
| LogNotifyFailed                  (* Failed to send ... notification *)
| LogOther (line : string).

Inductive Notice : Type :=
| AuthErrorNotice                            (* notifyAuthError *)
| FailedEmailNotice (userEmail : string)     (* notifyFailedEmail *)
| ReAuthRequiredNotice (pending : nat)       (* notifyReAuthRequired *)
| RetryResultsNotice (ok failed pending : nat) (* notifyRetryResults *)
| TokenUpdatedNotice (email : option string) (* sendTokenUpdateNotification *)
| SupportRequestNotice                       (* the webhook's chat message *)
| SupportRequestEdit.                        (* editMessageText *)

Inductive Event : Type :=
| GetAccessToken                     (* oauth2Client.getAccessToken() *)
| GetProfile                         (* gmail.users.getProfile *)
| MessagesSend (opts : GmailEmailOptions) (* gmail.users.messages.send *)
| RefreshAccessToken                 (* oauth2Client.refreshAccessToken() *)
| Telegram (n : Notice)              (* bot.telegram.sendMessage / edit *)
| NotifyAuthError                    (* entry of notifyAuthError *)
| ReAuthCallback                     (* this.reAuthCallback() *)
| Sleep (ms : Z)                     (* setTimeout(resolve, ms) *)
| Console (c : ConsoleLine)
| LoadTemplate                       (* fs.readFile of the e-mail template *)
| ExchangeCode (authCode : string)   (* oauth2Client.getToken(code) *)
| UserInfoGet                        (* oauth2.userinfo.get() *)
| WriteTokenFile (refreshToken updatedBy : string). (* fs.writeFile *)

(** The clock and the history, as the environment sees them. *)
Record World : Type := mkWorld {
  now : Z;
  log : list Event
}.

(** An oracle's answer: the time the call took and its outcome. *)
Record Reply (A : Type) : Type := mkReply {
  took : N;
  answer : Res A
}.
Arguments mkReply {A} took answer.

Record SendData : Type := mkSendData {
  data_id : option string;
  data_threadId : option string
}.

Record Credentials : Type := mkCredentials {
  access_token : option string;
  refresh_token : option string
}.

Record UserInfo : Type := mkUserInfo {
  email : option string;
  verified : option bool;
  name : option string
}.

Record Env : Type := mkEnv {
  env_getAccessToken : World -> Reply (option string);
  env_getProfile : World -> Reply unit;
  env_messagesSend : GmailEmailOptions -> World -> Reply SendData;
  env_refreshAccessToken : World -> Reply unit;
  env_telegram : Notice -> World -> Reply (option Z);
  env_loadTemplate : World -> Reply string;
  env_getToken : string -> World -> Reply Credentials;
  env_userinfo : World -> Reply UserInfo;
  env_writeFile : World -> Reply unit;
  (** [process.env.BOT_TOKEN && process.env.CHAT_ID] *)
  env_botConfigured : bool;
  (** whether the service was constructed with a [reAuthCallback] *)
  env_hasReAuthCallback : bool
}.

(** ** Process state *)

(** The mutable fields of [GmailService] (the Token Guard state). *)
Record Service : Type := mkService {
  isTokenValid : bool;
  lastTokenCheck : Z;
  notificationSent : bool
}.

Inductive EmailType : Type := confirmation | response.

(** An element of [EmailFallbackService.failedEmails].  Entries are
    JavaScript objects compared by reference ([email !== failedEmail]);
    [ref] is the identity of the object. *)
Record FailedEmail : Type := mkFailedEmail {
  ref : nat;
  fe_email : string;
  fe_name : string;
  fe_message : string;
  fe_timestamp : Z;
  fe_type : EmailType
}.

(** The content of [tokens.json] ([TokenData]). *)
Record TokenData : Type := mkTokenData {
  td_refreshToken : string;
  td_updatedAt : Z;
  td_updatedBy : string
}.

(** A client of the rate limiter's store: the hits of the client's current
    window and the time at which that window ends. *)
Record RateClient : Type := mkRateClient {
  rc_key : string;
  rc_totalHits : nat;
  rc_resetTime : Z
}.

Record Sys : Type := mkSys {
  svc : Service;
  failedEmails : list FailedEmail;
  nextRef : nat;                    (* next fresh object identity *)
  tokenFile : option TokenData;     (* tokens.json, if it exists *)
  rateStore : list RateClient;      (* the store of [supportRateLimit] *)
  world : World
}.

Definition with_svc (f : Service -> Service) (s : Sys) : Sys :=
  mkSys (f (svc s)) (failedEmails s) (nextRef s) (tokenFile s) (rateStore s)
        (world s).
Definition with_world (f : World -> World) (s : Sys) : Sys :=
  mkSys (svc s) (failedEmails s) (nextRef s) (tokenFile s) (rateStore s)
        (f (world s)).
Definition with_failedEmails (f : list FailedEmail -> list FailedEmail)
  (s : Sys) : Sys :=
  mkSys (svc s) (f (failedEmails s)) (nextRef s) (tokenFile s) (rateStore s)
        (world s).
Definition with_nextRef (f : nat -> nat) (s : Sys) : Sys :=
  mkSys (svc s) (failedEmails s) (f (nextRef s)) (tokenFile s) (rateStore s)
        (world s).
Definition with_tokenFile (f : option TokenData -> option TokenData)
  (s : Sys) : Sys :=
  mkSys (svc s) (failedEmails s) (nextRef s) (f (tokenFile s)) (rateStore s)
        (world s).
Definition with_rateStore (f : list RateClient -> list RateClient)
  (s : Sys) : Sys :=
  mkSys (svc s) (failedEmails s) (nextRef s) (tokenFile s) (f (rateStore s))
        (world s).

Definition put_isTokenValid (b : bool) (v : Service) : Service :=
  mkService b (lastTokenCheck v) (notificationSent v).
Definition put_lastTokenCheck (t : Z) (v : Service) : Service :=
  mkService (isTokenValid v) t (notificationSent v).
Definition put_notificationSent (b : bool) (v : Service) : Service :=
  mkService (isTokenValid v) (lastTokenCheck v) b.

(** ** The monad of [async] code *)

Definition M (A : Type) : Type := Sys -> Res A * Sys.

Definition ret {A} (a : A) : M A := fun s => (Ok a, s).

Definition bind {A B} (m : M A) (k : A -> M B) : M B :=
  fun s => match m s with
           | (Ok a, s1) => k a s1
           | (Throw e, s1) => (Throw e, s1)
           end.

Definition throw {A} (e : JsError) : M A := fun s => (Throw e, s).

(** [try { body } catch (error) { handler }] *)
Definition try_catch {A} (body : M A) (handler : JsError -> M A) : M A :=
  fun s => match body s with
           | (Ok a, s1) => (Ok a, s1)
           | (Throw e, s1) => handler e s1
           end.

(** A pure evaluation that may throw. *)
Definition eval {A} (r : Res A) : M A := fun s => (r, s).

Definition gets {A} (f : Sys -> A) : M A := fun s => (Ok (f s), s).
Definition modify (f : Sys -> Sys) : M unit := fun s => (Ok tt, f s).

Declare Scope monad_scope.
Delimit Scope monad_scope with monad.
Notation "x <- m ;; k" := (bind m (fun x => k))
  (at level 61, m at next level, right associativity) : monad_scope.
Notation "m ;; k" := (bind m (fun _ => k))
  (at level 61, right associativity) : monad_scope.
Open Scope monad_scope.

(** The one way the world changes: [dt] milliseconds pass and an event is
    appended to the history. *)
Definition logEvent (dt : Z) (ev : Event) (s : Sys) : Sys :=
  with_world (fun w => mkWorld (now w + dt) (log w ++ [ev])) s.

(** Appends an event without letting time pass. *)
Definition emit (ev : Event) : M unit := modify (logEvent 0 ev).

(** An awaited external call: the oracle answers from the world as it is
    when the call is made; the call is logged and the clock advances. *)
Definition call {A} (ev : Event) (oracle : World -> Reply A) : M A :=
  fun s =>
    let r := oracle (world s) in
    (answer r, logEvent (Z.of_N (took r)) ev s).

(** [await new Promise(resolve => setTimeout(resolve, ms))] *)
Definition sleep (ms : Z) : M unit := modify (logEvent ms (Sleep ms)).

(** [Date.now()] *)
Definition dateNow : M Z := gets (fun s => now (world s)).

Definition set_isTokenValid (b : bool) : M unit :=
  modify (with_svc (put_isTokenValid b)).
Definition set_lastTokenCheck (t : Z) : M unit :=
  modify (with_svc (put_lastTokenCheck t)).
Definition set_notificationSent (b : bool) : M unit :=
  modify (with_svc (put_notificationSent b)).

(** [x || undefined] on an optional string: the empty string is falsy. *)
Definition orUndefined (x : option string) : option string :=
  match x with
  | Some EmptyString => None
  | _ => x
  end.

(** [!token] for [token : string | null | undefined] *)
Definition falsy (x : option string) : bool :=
  match x with
  | None | Some EmptyString => true
  | Some _ => false
  end.

Definition nl : string := String (ascii_of_nat 10) EmptyString.
Definition dq : string := String (ascii_of_nat 34) EmptyString.

(** ** [GmailService] *)

Section GmailService.

Variable env : Env.

(** [notifyAuthError]: the whole body sits in a [try]; a failing chat call
    is logged and swallowed. *)
Definition notifyAuthError : M unit :=
  emit NotifyAuthError ;;
  try_catch
    (if env_botConfigured env then
       _ <- call (Telegram AuthErrorNotice) (env_telegram env AuthErrorNotice) ;;
       emit (Console (LogOther "Authentication error notification sent via Telegram"))
     else ret tt)
    (fun _ => emit (Console LogNotifyFailed)).

Definition handleAuthError : M unit :=
  emit (Console LogAuthFailed) ;;
  sent <- gets (fun s => notificationSent (svc s)) ;;
  if negb sent then
    set_notificationSent true ;;
    notifyAuthError ;;
    (if env_hasReAuthCallback env then emit ReAuthCallback else ret tt)
  else ret tt.

(** The grace window of the liveness cache, in milliseconds. *)
Definition graceWindow : Z := 5 * 60 * 1000.

Definition validateToken : M bool :=
  t <- dateNow ;;
  let fiveMinutesAgo := t - graceWindow in
  v <- gets svc ;;
  if (isTokenValid v && (fiveMinutesAgo <? lastTokenCheck v))%bool then ret true
  else
    try_catch
      (token <- call GetAccessToken (env_getAccessToken env) ;;
       (if falsy token then throw (newError "No access token received")
        else ret tt) ;;
       call GetProfile (env_getProfile env) ;;
       set_isTokenValid true ;;
       t' <- dateNow ;;
       set_lastTokenCheck t' ;;
       ret true)
      (fun error =>
         emit (Console LogValidationFailed) ;;
         isAuth <- eval (isAuthenticationError error) ;;
         (if isAuth then set_isTokenValid false ;; handleAuthError
          else ret tt) ;;
         ret false).

Definition authRequiredResponse (t : Z) : GmailEmailResponse :=
  mkResponse false None None
    (Some "Gmail authentication failed - re-authorization required")
    (VStr "AUTH_REQUIRED") (Some t) (Some true).

Definition sentResponse (d : SendData) (t : Z) : GmailEmailResponse :=
  mkResponse true (orUndefined (data_id d)) (orUndefined (data_threadId d))
    None VUndef (Some t) None.

Definition authFailedResponse (e : JsError) (t : Z) : GmailEmailResponse :=
  mkResponse false None None
    (Some "Authentication failed - re-authorization required")
    (code e) (Some t) (Some true).

Definition failedResponse (e : JsError) (t : Z) : GmailEmailResponse :=
  mkResponse false None None (message e) (code e) (Some t) None.

Definition maxRetriesResponse (t : Z) : GmailEmailResponse :=
  mkResponse false None None (Some "Max retries exceeded") VUndef (Some t) None.

(** [Math.pow(2, attempt - 1) * 1000] *)
Definition backoffDelay (attempt : nat) : Z :=
  2 ^ (Z.of_nat attempt - 1) * 1000.

(** The [try] block of one iteration of the [for] loop of [sendEmail]:
    a fresh access token, then the provider call. *)
Definition attemptBody (options : GmailEmailOptions) (attempt : nat)
  : M (option GmailEmailResponse) :=
  _ <- call GetAccessToken (env_getAccessToken env) ;;
  d <- call (MessagesSend options) (env_messagesSend env options) ;;
  emit (Console (LogSent attempt)) ;;
  set_notificationSent false ;;
  set_isTokenValid true ;;
  t <- dateNow ;;
  ret (Some (sentResponse d t)).

(** Its [catch] block.  Both classifiers run before anything else. *)
Definition attemptCatch (maxRetries attempt : nat) (error : JsError)
  : M (option GmailEmailResponse) :=
  let isLastAttempt := Nat.eqb attempt maxRetries in
  isRetryable <- eval (isRetryableError error) ;;
  isAuthError <- eval (isAuthenticationError error) ;;
  emit (Console (LogAttemptFailed attempt)) ;;
  if isAuthError then
    set_isTokenValid false ;;
    handleAuthError ;;
    t <- dateNow ;;
    ret (Some (authFailedResponse error t))
  else if (isLastAttempt || negb isRetryable)%bool then
    t <- dateNow ;;
    ret (Some (failedResponse error t))
  else
    let delay := backoffDelay attempt in
    emit (Console (LogRetrying delay)) ;;
    sleep delay ;;
    ret None.

(** One iteration: [Some r] is [return r], [None] falls through to the
    next iteration. *)
Definition attemptOnce (options : GmailEmailOptions) (maxRetries attempt : nat)
  : M (option GmailEmailResponse) :=
  try_catch (attemptBody options attempt) (attemptCatch maxRetries attempt).

(** [for (let attempt = ...; attempt <= maxRetries; attempt++)], by
    recursion on the number of iterations left, followed by the statement
    after the loop. *)
Fixpoint sendLoop (options : GmailEmailOptions) (maxRetries : nat)
  (remaining attempt : nat) : M GmailEmailResponse :=
  match remaining with
  | O => t <- dateNow ;; ret (maxRetriesResponse t)
  | S remaining' =>
      r <- attemptOnce options maxRetries attempt ;;
      match r with
      | Some resp => ret resp
      | None => sendLoop options maxRetries remaining' (S attempt)
      end
  end.

Definition sendEmail (options : GmailEmailOptions) (maxRetries : nat)
  : M GmailEmailResponse :=
  tokenValid <- validateToken ;;
  if negb tokenValid then
    t <- dateNow ;; ret (authRequiredResponse t)
  else sendLoop options maxRetries maxRetries 1.

(** The default [maxRetries = 3]. *)
Definition defaultMaxRetries : nat := 3.

(** [sendSupportResponse]; the HTML of [buildResponseTemplate] is string
    formatting and is left out: [htmlBody] is the response text. *)
Definition sendSupportResponse (userEmail userName originalMessage
  responseMessage : string) (replyTo : option string)
  : M GmailEmailResponse :=
  let options :=
    mkOptions userEmail "Re: Your BlockBlast Support Request"
      responseMessage
      ("Dear " ++ userName ++ "," ++ nl ++ nl ++ responseMessage ++ nl ++ nl
       ++ "Your original message: " ++ dq ++ originalMessage ++ dq ++ nl ++ nl
       ++ "Best regards," ++ nl ++ "BlockBlast Support Team")
      replyTo in
  sendEmail options defaultMaxRetries.

(** [sendConfirmationEmail]: the template is read from disk (the read may
    throw, nothing catches it here); the images fall back to URLs inside
    their own [try], and the localization table only feeds the HTML.
    Rendering of the HTML is string formatting and is left out: [htmlBody]
    is the template as loaded. *)
Definition sendConfirmationEmail (userEmail userName requestMessage
  language : string) : M GmailEmailResponse :=
  template <- call LoadTemplate (env_loadTemplate env) ;;
  let options :=
    mkOptions userEmail "Block Royale - Thank you for your message!"
      template
      ("Dear " ++ userName ++ "," ++ nl ++ nl
       ++ "Thank you for contacting Block Royale support. We have received your request and will respond within 24 hours."
       ++ nl ++ nl ++ "Your message: " ++ dq ++ requestMessage ++ dq ++ nl ++ nl
       ++ "Best regards," ++ nl ++ "Block Royale Support Team")
      None in
  sendEmail options defaultMaxRetries.

Definition refreshToken : M bool :=
  try_catch
    (emit (Console LogRefreshing) ;;
     call RefreshAccessToken (env_refreshAccessToken env) ;;
     isValid <- validateToken ;;
     (if isValid : bool then
        emit (Console LogRefreshOk) ;;
        set_isTokenValid true ;;
        set_notificationSent false
      else ret tt) ;;
     ret isValid)
    (fun error =>
       emit (Console LogRefreshFailed) ;;
       isAuth <- eval (isAuthenticationError error) ;;
       (if isAuth then handleAuthError else ret tt) ;;
       ret false).

Definition getTokenStatus (v : Service) : TokenStatus :=
  mkStatus (isTokenValid v) (lastTokenCheck v) (negb (isTokenValid v)).

End GmailService.

(** ** [EmailFallbackService] *)

(** The two methods [retryFailedEmails] calls on its [gmailService: any]
    argument. *)
Record GmailApi : Type := mkGmailApi {
  api_sendConfirmationEmail : string -> string -> string -> string ->
                              M GmailEmailResponse;
  api_sendSupportResponse : string -> string -> string -> string ->
                            option string -> M GmailEmailResponse
}.

(** The [GmailService] instance over an environment. *)
Definition gmailService (env : Env) : GmailApi :=
  mkGmailApi (sendConfirmationEmail env) (sendSupportResponse env).

Section EmailFallbackService.

Variable env : Env.

Definition notifyFailedEmail (userEmail : string) : M unit :=
  try_catch
    (_ <- call (Telegram (FailedEmailNotice userEmail))
            (env_telegram env (FailedEmailNotice userEmail)) ;;
     emit (Console (LogOther "Failed email notification sent to Telegram")))
    (fun _ => emit (Console LogNotifyFailed)).

Definition notifyReAuthRequired : M unit :=
  try_catch
    (pending <- gets (fun s => length (failedEmails s)) ;;
     _ <- call (Telegram (ReAuthRequiredNotice pending))
            (env_telegram env (ReAuthRequiredNotice pending)) ;;
     ret tt)
    (fun _ => emit (Console LogNotifyFailed)).

Definition handleFailedEmail (emailResponse : GmailEmailResponse)
  (userEmail userName msg : string) (type : EmailType) : M unit :=
  t <- dateNow ;;
  r <- gets nextRef ;;
  modify (with_nextRef S) ;;
  modify (with_failedEmails
            (fun l => (l ++ [mkFailedEmail r userEmail userName msg t type])%list)) ;;
  notifyFailedEmail userEmail ;;
  if authRelated emailResponse then notifyReAuthRequired else ret tt.

Definition notifyRetryResults (results : nat * nat) : M unit :=
  try_catch
    (pending <- gets (fun s => length (failedEmails s)) ;;
     _ <- call (Telegram (RetryResultsNotice (fst results) (snd results) pending))
            (env_telegram env
               (RetryResultsNotice (fst results) (snd results) pending)) ;;
     ret tt)
    (fun _ => emit (Console LogNotifyFailed)).

(** The resend of one queued entry. *)
Definition resend (gm : GmailApi) (failedEmail : FailedEmail)
  : M GmailEmailResponse :=
  match fe_type failedEmail with
  | confirmation =>
      api_sendConfirmationEmail gm (fe_email failedEmail) (fe_name failedEmail)
        (fe_message failedEmail) "en"
  | response =>
      api_sendSupportResponse gm (fe_email failedEmail) (fe_name failedEmail)
        "Your original request" (fe_message failedEmail) None
  end.

(** [this.failedEmails.filter(email => email !== failedEmail)] *)
Definition removeEntry (failedEmail : FailedEmail) (l : list FailedEmail)
  : list FailedEmail :=
  filter (fun e => negb (Nat.eqb (ref e) (ref failedEmail))) l.

(** The body of [for (const failedEmail of [...this.failedEmails])], over
    the snapshot; [results] is [retryResults] as [(success, failed)]. *)
Fixpoint retryLoop (gm : GmailApi) (snapshot : list FailedEmail)
  (results : nat * nat) : M (nat * nat) :=
  match snapshot with
  | [] => ret results
  | failedEmail :: rest =>
      results' <-
        try_catch
          (result <- resend gm failedEmail ;;
           if success result then
             modify (with_failedEmails (removeEntry failedEmail)) ;;
             emit (Console (LogOther "Successfully retried email")) ;;
             ret (S (fst results), snd results)
           else
             emit (Console (LogOther "Retry failed for email")) ;;
             ret (fst results, S (snd results)))
          (fun _ =>
             emit (Console (LogOther "Error retrying email")) ;;
             ret (fst results, S (snd results))) ;;
      sleep 1000 ;;
      retryLoop gm rest results'
  end.

Definition retryFailedEmails (gm : GmailApi) : M unit :=
  queue <- gets failedEmails ;;
  if Nat.eqb (length queue) 0 then
    emit (Console (LogOther "No failed emails to retry"))
  else
    emit (Console (LogOther "Retrying failed emails...")) ;;
    results <- retryLoop gm queue (0%nat, 0%nat) ;;
    notifyRetryResults results.

End EmailFallbackService.

(** ** [tokenStorage] and the OAuth2 callback route *)

Section OAuth2.

Variable env : Env.

(** [saveRefreshToken]: the record is written by [fs.writeFile]; a failing
    write is logged and rethrown. *)
Definition saveRefreshToken (refreshTok updatedBy : string) : M unit :=
  try_catch
    (t <- dateNow ;;
     call (WriteTokenFile refreshTok updatedBy) (env_writeFile env) ;;
     modify (with_tokenFile
               (fun _ => Some (mkTokenData refreshTok t updatedBy))) ;;
     emit (Console (LogOther "Refresh token saved to file")))
    (fun error =>
       emit (Console (LogOther "Error saving refresh token to file")) ;;
       throw error).

(** [OAuth2Setup.getTokens] *)
Definition getTokens (authorizationCode : string) : M Credentials :=
  try_catch
    (tokens <- call (ExchangeCode authorizationCode)
                 (env_getToken env authorizationCode) ;;
     if falsy (refresh_token tokens) then
       throw (newError "No refresh token received. Make sure to revoke existing access and re-authorize.")
     else ret tokens)
    (fun error =>
       emit (Console (LogOther "Error exchanging code for tokens")) ;;
       throw error).

(** [OAuth2Setup.validateTokens] *)
Definition validateTokens (tokens : Credentials) : M UserInfo :=
  try_catch
    (call UserInfoGet (env_userinfo env))
    (fun error =>
       emit (Console (LogOther "Error validating tokens")) ;;
       throw error).

(** [OAuth2Setup.testGmailAccess] *)
Definition testGmailAccess (refreshTok : option string) : M bool :=
  try_catch
    (call GetProfile (env_getProfile env) ;;
     emit (Console (LogOther "Gmail API access successful")) ;;
     ret true)
    (fun _ =>
       emit (Console (LogOther "Gmail API access failed")) ;;
       ret false).

Definition sendTokenUpdateNotification (mail : option string) : M unit :=
  try_catch
    (if negb (env_botConfigured env) then
       emit (Console (LogOther "Telegram notification skipped"))
     else
       _ <- call (Telegram (TokenUpdatedNotice mail))
              (env_telegram env (TokenUpdatedNotice mail)) ;;
       emit (Console (LogOther "Token update notification sent to Telegram")))
    (fun _ => emit (Console LogNotifyFailed)).

(** The single allow-listed mailbox, as spelled in the source. *)
Definition requiredEmail : string := "supprtblockroyale@gmail.com".

(** The static result pages. *)
Inductive Page : Type :=
| SuccessPage (mail : option string)
| WrongAccountPage (usedEmail : option string) (required : string)
| ErrorPage (errorMessage : string).

(** A template literal prints an absent value as [undefined]. *)
Definition show (x : option string) : string :=
  match x with Some s => s | None => "undefined" end.

(** [userInfo.email !== requiredEmail] *)
Definition differs (mail : option string) (required : string) : bool :=
  match mail with
  | Some m => negb (String.eqb m required)
  | None => true
  end.

(** [router.get('/callback', ...)] with [req.query.code] and
    [req.query.error]. *)
Definition callback (queryCode queryError : option string) : M Page :=
  if negb (falsy queryError) then
    ret (ErrorPage "Authorization was cancelled or denied")
  else match queryCode with
  | None | Some EmptyString => ret (ErrorPage "No authorization code received")
  | Some authorizationCode =>
    try_catch
      (tokens <- getTokens authorizationCode ;;
       userInfo <- validateTokens tokens ;;
       if differs (email userInfo) requiredEmail then
         emit (Console (LogOther "Wrong account tried to authorize")) ;;
         ret (WrongAccountPage (email userInfo) requiredEmail)
       else
         gmailAccessOk <- testGmailAccess (refresh_token tokens) ;;
         saveRefreshToken (show (refresh_token tokens))
           ("OAuth2 callback - " ++ show (email userInfo)) ;;
         sendTokenUpdateNotification (email userInfo) ;;
         emit (Console (LogOther "=== OAuth2 Setup Complete ===")) ;;
         ret (SuccessPage (email userInfo)))
      (fun error =>
         emit (Console (LogOther "OAuth2 callback error")) ;;
         ret (ErrorPage ("Failed to complete authorization: "
                         ++ show (message error))))
  end.

End OAuth2.

(** ** Markdown escaping *)

(** Membership of a character in a regular-expression character class,
    given by its members. *)
Fixpoint inClass (c : ascii) (cls : string) : bool :=
  match cls with
  | EmptyString => false
  | String d rest => (Ascii.eqb c d || inClass c rest)%bool
  end.

Definition backslash : ascii := ascii_of_nat 92.

(** [text.replace(/[cls]/g, '\\$&')]: a backslash before every member of
    the class. *)
Fixpoint escapeClass (cls : string) (text : string) : string :=
  match text with
  | EmptyString => EmptyString
  | String c rest =>
      if inClass c cls then String backslash (String c (escapeClass cls rest))
      else String c (escapeClass cls rest)
  end.

(** The class of [escapeMarkdown] in [index.ts] and in the three notices
    of the fallback service. *)
Definition markdownSpecials : string := "*_`[]()~>#+=|{}!-".

(** The class of [escapeMarkdownV2] in [notifyAuthError]. *)
Definition markdownV2Specials : string := "_*[]()~`>#+=|{}.!-".

Definition escapeMarkdown : string -> string := escapeClass markdownSpecials.
Definition escapeMarkdownV2 : string -> string := escapeClass markdownV2Specials.

(** ** The [/webhook/support] route ([index.ts]) *)

(** A request header as Node presents it. *)
Inductive Header : Type :=
| HAbsent
| HString (s : string)
| HArray (l : list string).

(** A field of the parsed JSON body.  [SupportRequestBody] declares the
    fields as strings, but nothing checks that at run time: the handler
    destructures [req.body] as it comes, so a field may hold any JSON
    value. *)
Inductive BodyValue : Type :=
| BAbsent                 (* the field is missing: [undefined] *)
| BNull
| BString (s : string)
| BNumber (n : Z)         (* only zero is falsy; a fraction is as any
                             other non-zero number *)
| BBool (b : bool)
| BObject.                (* an object or an array *)

(** [!!v] *)
Definition truthy (v : BodyValue) : bool :=
  match v with
  | BAbsent | BNull => false
  | BString s => negb (String.eqb s EmptyString)
  | BNumber n => negb (Z.eqb n 0)
  | BBool b => b
  | BObject => true
  end.

(** [escapeMarkdown(v)]: [v.replace] is a function on strings only. *)
Definition escapeMarkdownValue (v : BodyValue) : Res string :=
  match v with
  | BString s => Ok (escapeMarkdown s)
  | _ => Throw (newError "text.replace is not a function")
  end.

(** A JavaScript string is a sequence of UTF-16 code units, and JSON can
    spell a surrogate that is not part of a pair.  UTF-8 proper has no
    bytes for it; it is held here as generalized UTF-8 has it: a surrogate
    pair is one four-byte sequence, and a lone surrogate is the three-byte
    sequence [ED A0..BF 80..BF]. *)
Fixpoint loneSurrogate (s : string) : bool :=
  match s with
  | String a (String b _ as rest) =>
      ((Nat.eqb (nat_of_ascii a) 237 && Nat.leb 160 (nat_of_ascii b)
        && Nat.leb (nat_of_ascii b) 191)
       || loneSurrogate rest)%bool
  | _ => false
  end.

(** [encodeURIComponent(s)] throws [URIError] on a lone surrogate.  The
    encoded text only enters the Gmail compose link, which is left out. *)
Definition encodeURIComponent (s : string) : Res unit :=
  if loneSurrogate s then Throw (newError "URI malformed") else Ok tt.

(** The string a field holds. *)
Definition textOf (v : BodyValue) : string :=
  match v with BString s => s | _ => EmptyString end.

(** The field holds a non-empty string. *)
Definition isText (v : BodyValue) : bool :=
  match v with
  | BString s => negb (String.eqb s EmptyString)
  | _ => false
  end.

Record SupportRequestBody : Type := mkBody {
  body_name : BodyValue;
  body_email : BodyValue;
  body_text : BodyValue;
  body_language : BodyValue
}.


(** The three fields are what [SupportRequestBody] declares: strings (and
    present, that is, not empty). *)
Definition fieldsAreText (b : SupportRequestBody) : bool :=
  (isText (body_name b) && isText (body_email b) && isText (body_text b))%bool.

(** The address can be put into a URL. *)
Definition emailEncodable (b : SupportRequestBody) : bool :=
  negb (loneSurrogate (textOf (body_email b))).


(** A request as the handler sees it: the two headers it reads and the
    object [express.json()] left in [req.body]. *)
Record Request : Type := mkRequest {
  x_webhook_secret : Header;
  authorization : Header;
  body : SupportRequestBody
}.

Inductive Json : Type :=
| ApiResponse (ok : bool) (msg : string)      (* { success, message } *)
| ErrorResponse (err : string).               (* { error } *)

Record HttpResponse : Type := mkHttp {
  http_status : Z;
  http_json : Json
}.

(** The constants [index.ts] reads at start-up. *)
Record IndexConfig : Type := mkIndexConfig {
  WEBHOOK_SECRET : string;
  (** whether the module-level [gmailService] is non-null *)
  has_gmailService : bool;
  (** whether the module-level [fallbackService] is non-null *)
  has_fallbackService : bool;
  (** [getSupportedLanguages()] of the localization module *)
  supportedLanguages : list string
}.

(** [s.replace(pat, rep)] with a string pattern: the first occurrence only. *)
Fixpoint replaceFirst (pat rep s : string) : string :=
  if String.prefix pat s then
    rep ++ substring (String.length pat) (String.length s - String.length pat) s
  else match s with
       | EmptyString => EmptyString
       | String c rest => String c (replaceFirst pat rep rest)
       end.

(** [a || b] on [string | null]. *)
Definition orElse (a b : option string) : option string :=
  if falsy a then b else a.

Definition authenticateWebhook (cfg : IndexConfig) (req : Request) : bool :=
  let providedSecret :=
    orElse
      (match x_webhook_secret req with HString s => Some s | _ => None end)
      (match authorization req with
       | HString s => Some (replaceFirst "Bearer " "" s)
       | _ => None
       end) in
  match providedSecret with
  | Some s => String.eqb s (WEBHOOK_SECRET cfg)
  | None => false
  end.

Section Index.

Variable env : Env.
Variable cfg : IndexConfig.

Definition telegramRetryable (error : JsError) : bool :=
  (jsval_eqb (response_error_code error) (VNum 429)
   || jsval_eqb (response_error_code error) (VNum 502)
   || jsval_eqb (response_error_code error) (VNum 503)
   || jsval_eqb (code error) (VStr "ECONNRESET")
   || jsval_eqb (code error) (VStr "ETIMEDOUT"))%bool.

(** [sendMessageWithRetry]; [None] at the end is the [undefined] a loop
    that never ran returns. *)
Fixpoint sendMessageWithRetry (n : Notice) (maxRetries remaining attempt : nat)
  : M (option Z) :=
  match remaining with
  | O => ret None
  | S remaining' =>
      r <- try_catch
             (result <- call (Telegram n) (env_telegram env n) ;;
              emit (Console (LogOther "Message sent successfully")) ;;
              ret (Some result))
             (fun error =>
                let isLastAttempt := Nat.eqb attempt maxRetries in
                emit (Console (LogOther "Attempt failed")) ;;
                if (isLastAttempt || negb (telegramRetryable error))%bool
                then throw error
                else
                  emit (Console (LogRetrying (backoffDelay attempt))) ;;
                  sleep (backoffDelay attempt) ;;
                  ret None) ;;
      match r with
      | Some result => ret result
      | None => sendMessageWithRetry n maxRetries remaining' (S attempt)
      end
  end.

(** A truthy [message_id]. *)
Definition truthyId (x : option Z) : bool :=
  match x with Some id => negb (Z.eqb id 0) | None => false end.

(** [language = 'en'] by default, then
    [supportedLanguages.includes(language) ? language : 'en']. *)
Definition selectLanguage (language : BodyValue) : string :=
  match language with
  | BString l => if existsb (String.eqb l) (supportedLanguages cfg) then l
                 else "en"
  | _ => "en"
  end.

(** [createGmailUrl(requestId)]: the address, the subject (built from the
    request id) and the body (the date, the request id and the quoted
    text) are encoded in this order. *)
Definition createGmailUrl (mail text : string) : Res unit :=
  match encodeURIComponent mail with
  | Ok _ => encodeURIComponent text
  | Throw e => Throw e
  end.

(** The handler of [app.post('/webhook/support', ...)].  Of the chat
    message text and of the Gmail compose link only the calls that can
    throw are kept: the three [escapeMarkdown] calls (they throw on a
    field that is not a string) and the first [encodeURIComponent(email)],
    all outside the inner [try] blocks, and [createGmailUrl] inside the
    first one.  The texts themselves are string formatting and are left
    out; the date is formatted by the runtime's [toLocaleString]. *)
Definition webhookSupport (req : Request) : M HttpResponse :=
  try_catch
    (if negb (authenticateWebhook cfg req) then
       ret (mkHttp 401 (ErrorResponse "Unauthorized: Invalid webhook secret"))
     else
       let b := body req in
       let selectedLanguage := selectLanguage (body_language b) in
       if (negb (truthy (body_name b)) || negb (truthy (body_email b))
           || negb (truthy (body_text b)))%bool
       then
         ret (mkHttp 400
                (ErrorResponse "Missing required fields: name, email, text"))
       else
         _ <- eval (escapeMarkdownValue (body_name b)) ;;
         _ <- eval (escapeMarkdownValue (body_email b)) ;;
         _ <- eval (escapeMarkdownValue (body_text b)) ;;
         let mail := textOf (body_email b) in
         let nm := textOf (body_name b) in
         let text := textOf (body_text b) in
         _ <- eval (encodeURIComponent mail) ;;
         try_catch
           (sentMessage <- sendMessageWithRetry SupportRequestNotice 3 3 1 ;;
            if truthyId sentMessage then
              _ <- eval (createGmailUrl mail text) ;;
              _ <- call (Telegram SupportRequestEdit)
                     (env_telegram env SupportRequestEdit) ;;
              ret tt
            else ret tt)
           (fun _ => emit (Console (LogOther "Telegram notification failed"))) ;;
         (if has_gmailService cfg then
            try_catch
              (emailResult <- sendConfirmationEmail env mail nm text
                                selectedLanguage ;;
               if (negb (success emailResult) && has_fallbackService cfg)%bool
               then handleFailedEmail env emailResult mail nm text confirmation
               else ret tt)
              (fun emailError =>
                 emit (Console (LogOther "Failed to send confirmation email")) ;;
                 if has_fallbackService cfg then
                   t <- dateNow ;;
                   handleFailedEmail env
                     (mkResponse false None None (message emailError) VUndef
                        (Some t) None)
                     mail nm text confirmation
                 else ret tt)
          else ret tt) ;;
         ret (mkHttp 200 (ApiResponse true "Support request sent successfully")))
    (fun error =>
       if jsval_eqb (response_error_code error) (VNum 400) then
         ret (mkHttp 503
                (ErrorResponse "Service temporarily unavailable. Please try again later."))
       else if jsval_eqb (response_error_code error) (VNum 429) then
         ret (mkHttp 503
                (ErrorResponse "Service is busy. Please try again in a few minutes."))
       else
         ret (mkHttp 500
                (ErrorResponse "Failed to send support request. Please try again later."))).

(** [supportRateLimit] is express-rate-limit over its memory store, a
    library outside the repository; the route fixes [windowMs], [max] and
    the key.  The store keeps, for every client key, the hits of the
    client's current window and the time that window ends; a hit at or
    after that time opens a new window of [windowMs]. *)
Definition windowMs : Z := 10 * 60 * 1000.

(** [max: 2] requests per client and window. *)
Definition rateLimitMax : nat := 2.

Definition rateLimitMessage : Json :=
  ErrorResponse "Rate limit exceeded. You can send maximum 2 support requests per 10 minutes. Please try again later.".

Fixpoint findClient (key : string) (store : list RateClient)
  : option RateClient :=
  match store with
  | [] => None
  | c :: rest =>
      if String.eqb (rc_key c) key then Some c else findClient key rest
  end.

(** The record of the client once a hit at time [t] is counted. *)
Definition hitClient (key : string) (t : Z) (store : list RateClient)
  : RateClient :=
  match findClient key store with
  | Some c =>
      if rc_resetTime c <=? t then mkRateClient key 1 (t + windowMs)
      else mkRateClient key (S (rc_totalHits c)) (rc_resetTime c)
  | None => mkRateClient key 1 (t + windowMs)
  end.

Definition putClient (c : RateClient) (store : list RateClient)
  : list RateClient :=
  c :: filter (fun d => negb (String.eqb (rc_key d) (rc_key c))) store.


(** The route: the rate-limit middleware counts the hit of the client
    ([clientKey] is what the route's [keyGenerator] computes from
    [x-forwarded-for] or the peer address) and either answers 429 itself
    or passes the request on to the handler. *)
Definition supportRoute (clientKey : string) (req : Request)
  : M HttpResponse :=
  t <- dateNow ;;
  store <- gets rateStore ;;
  let client := hitClient clientKey t store in
  modify (with_rateStore (putClient client)) ;;
  if Nat.ltb rateLimitMax (rc_totalHits client)
  then ret (mkHttp 429 rateLimitMessage)
  else webhookSupport req.

End Index.

(** ** Observations on event logs *)

Definition countEv (p : Event -> bool) (l : list Event) : nat :=
  length (filter p l).

(** The events a run appended: the log of [s'] beyond the log of [s]. *)
Definition newEvents (s s' : Sys) : list Event :=
  skipn (length (log (world s))) (log (world s')).

(** An attempt of the retry loop ends in exactly one of these lines. *)
Definition is_attempt (ev : Event) : bool :=
  match ev with
  | Console (LogSent _) | Console (LogAttemptFailed _) => true
  | _ => false
  end.

Definition is_sleep (ev : Event) : bool :=
  match ev with Sleep _ => true | _ => false end.

Definition is_send (ev : Event) : bool :=
  match ev with MessagesSend _ => true | _ => false end.

(** A live probe starts by asking for a fresh access credential. *)
Definition is_getAccessToken (ev : Event) : bool :=
  match ev with GetAccessToken => true | _ => false end.

(** One auth-class failure handled: the line [handleAuthError] prints. *)
Definition is_authFailure (ev : Event) : bool :=
  match ev with Console LogAuthFailed => true | _ => false end.

(** The escalation notification fired. *)
Definition is_notification (ev : Event) : bool :=
  match ev with NotifyAuthError => true | _ => false end.

(** The Credential Store was invoked. *)
Definition is_writeTokenFile (ev : Event) : bool :=
  match ev with WriteTokenFile _ _ => true | _ => false end.

(** Events of the retry loop proper (anything the Token Guard's probe never
    emits). *)
Definition is_loopEvent (ev : Event) : bool :=
  (is_attempt ev || is_sleep ev || is_send ev)%bool.

(** Attempt lines and timer waits, in order. *)
Definition attemptsAndWaits (l : list Event) : list Event :=
  filter (fun ev => (is_attempt ev || is_sleep ev)%bool) l.

(** ** Sequences of Token Guard and Delivery Engine operations *)

Inductive Op : Type :=
| OpSendEmail (options : GmailEmailOptions) (maxRetries : nat)
| OpValidateToken
| OpRefreshToken
| OpIdle (ms : N).          (* time passes, nothing runs *)

Inductive Outcome : Type :=
| OutResponse (r : Res GmailEmailResponse)
| OutBool (r : Res bool)
| OutIdle.

Definition idle (ms : N) (s : Sys) : Sys :=
  with_world (fun w => mkWorld (now w + Z.of_N ms) (log w)) s.

Definition runOp (env : Env) (op : Op) (s : Sys) : Outcome * Sys :=
  match op with
  | OpSendEmail options maxRetries =>
      let '(r, s') := sendEmail env options maxRetries s in (OutResponse r, s')
  | OpValidateToken =>
      let '(r, s') := validateToken env s in (OutBool r, s')
  | OpRefreshToken =>
      let '(r, s') := refreshToken env s in (OutBool r, s')
  | OpIdle ms => (OutIdle, idle ms s)
  end.

Fixpoint runOps (env : Env) (ops : list Op) (s : Sys) : list Outcome * Sys :=
  match ops with
  | [] => ([], s)
  | op :: rest =>
      let '(o, s1) := runOp env op s in
      let '(os, s2) := runOps env rest s1 in
      (o :: os, s2)
  end.

(** A recovery: a send that succeeded, or a [refreshToken] that returned
    [true]. *)
Definition recovered (op : Op) (o : Outcome) : bool :=
  match op, o with
  | OpSendEmail _ _, OutResponse (Ok r) => success r
  | OpRefreshToken, OutBool (Ok b) => b
  | _, _ => false
  end.

Fixpoint anyRecovered (ops : list Op) (os : list Outcome) : bool :=
  match ops, os with
  | op :: ops', o :: os' => (recovered op o || anyRecovered ops' os')%bool
  | _, _ => false
  end.

(** Whether a resend counts as successful in [retryFailedEmails]. *)
Definition succeeded (r : Res GmailEmailResponse) : bool :=
  match r with
  | Ok resp => success resp
  | Throw _ => false
  end.

(** ** Sample environments and states *)

Definition always {A} (r : Res A) : World -> Reply A :=
  fun _ => mkReply 20%N r.

Definition err503 : JsError :=
  mkError VUndef (VNum 503) (Some "Service Unavailable") VUndef.

Definition errUnauthorized : JsError :=
  mkError (VNum 401) VUndef (Some "Request had invalid authentication credentials.") VUndef.

Definition errInvalidGrant : JsError :=
  mkError (VStr "invalid_grant") VUndef (Some "invalid_grant") VUndef.

(** A thrown object that carries a code and no message. *)
Definition errNoMessage : JsError :=
  mkError (VStr "ECONNRESET") VUndef None VUndef.

(** A provider and a chat API that always answer. *)
Definition envOk : Env :=
  mkEnv (always (Ok (Some "ya29.token")))
        (always (Ok tt))
        (fun _ => always (Ok (mkSendData (Some "msg-1") (Some "thread-1"))))
        (always (Ok tt))
        (fun _ => always (Ok (Some 42)))
        (always (Ok "<html>[USER_NAME]</html>"))
        (fun _ => always (Ok (mkCredentials (Some "ya29.token") (Some "1//refresh"))))
        (always (Ok (mkUserInfo (Some "supprtblockroyale@gmail.com") (Some true) None)))
        (always (Ok tt))
        true true.

(** [envOk] with another answer to [messages.send]. *)
Definition withSend (send : GmailEmailOptions -> World -> Reply SendData)
  (e : Env) : Env :=
  mkEnv (env_getAccessToken e) (env_getProfile e) send
        (env_refreshAccessToken e) (env_telegram e) (env_loadTemplate e)
        (env_getToken e) (env_userinfo e) (env_writeFile e)
        (env_botConfigured e) (env_hasReAuthCallback e).

(** [envOk] with another answer to [getAccessToken]. *)
Definition withAccessToken (tok : World -> Reply (option string)) (e : Env)
  : Env :=
  mkEnv tok (env_getProfile e) (env_messagesSend e)
        (env_refreshAccessToken e) (env_telegram e) (env_loadTemplate e)
        (env_getToken e) (env_userinfo e) (env_writeFile e)
        (env_botConfigured e) (env_hasReAuthCallback e).

Definition withRefresh (rf : World -> Reply unit) (e : Env) : Env :=
  mkEnv (env_getAccessToken e) (env_getProfile e) (env_messagesSend e)
        rf (env_telegram e) (env_loadTemplate e)
        (env_getToken e) (env_userinfo e) (env_writeFile e)
        (env_botConfigured e) (env_hasReAuthCallback e).

Definition withUserinfo (ui : World -> Reply UserInfo) (e : Env) : Env :=
  mkEnv (env_getAccessToken e) (env_getProfile e) (env_messagesSend e)
        (env_refreshAccessToken e) (env_telegram e) (env_loadTemplate e)
        (env_getToken e) ui (env_writeFile e)
        (env_botConfigured e) (env_hasReAuthCallback e).

(** The provider answers 503 to every send. *)
Definition envSend503 : Env := withSend (fun _ => always (Throw err503)) envOk.

(** An outage: the provider answers 503 to the token request, to the probe
    and to every send. *)
Definition envOutage : Env :=
  mkEnv (always (Throw err503))
        (always (Throw err503))
        (fun _ => always (Throw err503))
        (always (Throw err503))
        (fun _ => always (Ok (Some 42)))
        (always (Ok "<html>[USER_NAME]</html>"))
        (fun _ => always (Throw err503))
        (always (Throw err503))
        (always (Ok tt))
        true true.

(** An error that both classifiers accept: an auth status with a message
    that mentions a timeout. *)
Definition errAuthTimeout : JsError :=
  mkError (VNum 401) VUndef (Some "timeout while checking credentials") VUndef.

Definition envSendAuthTimeout : Env :=
  withSend (fun _ => always (Throw errAuthTimeout)) envOk.

(** The provider answers 401 to every send. *)
Definition envSend401 : Env :=
  withSend (fun _ => always (Throw errUnauthorized)) envOk.

(** The refresh credential is revoked. *)
Definition envRevoked : Env :=
  withSend (fun _ => always (Throw errInvalidGrant))
    (withAccessToken (always (Throw errInvalidGrant))
       (withRefresh (always (Throw errInvalidGrant)) envOk)).

(** Every provider call rejects with an object that has no message. *)
Definition envNoMessage : Env :=
  withSend (fun _ => always (Throw errNoMessage))
    (withRefresh (always (Throw errNoMessage)) envOk).

Definition envProbeNoMessage : Env :=
  withAccessToken (always (Throw errNoMessage)) envOk.

(** Sends to one address fail with 503, all others succeed. *)
Definition envOneBadRecipient (bad : string) : Env :=
  withSend (fun o => if String.eqb (to o) bad then always (Throw err503)
                     else always (Ok (mkSendData (Some "msg-1") None)))
    envOk.

(** Another mailbox completes the consent screen. *)
Definition envIntruder : Env :=
  withUserinfo
    (always (Ok (mkUserInfo (Some "someone.else@gmail.com") (Some true) None)))
    envOk.

(** The first send goes through; once a send is in the history, every
    further send is answered 401. *)
Definition envFirstSendOnly : Env :=
  withSend (fun _ w => if existsb is_send (log w)
                       then mkReply 20%N (Throw errUnauthorized)
                       else mkReply 20%N (Ok (mkSendData (Some "msg-1") None)))
    envOk.

(** The state of the process just after start-up at time [t0]:
    [isTokenValid = true], [lastTokenCheck = new Date()],
    [notificationSent = false], an empty queue. *)
Definition startState (t0 : Z) : Sys :=
  mkSys (mkService true t0 false) [] 0 None [] (mkWorld t0 []).

(** A state in the middle of a failure episode: the flag is raised. *)
Definition midEpisodeState (t0 : Z) : Sys :=
  mkSys (mkService true t0 true) [] 0 None [] (mkWorld t0 []).

(** The same with a liveness check that is ten minutes old. *)
Definition staleState (t0 : Z) : Sys :=
  mkSys (mkService true (t0 - 600000) false) [] 0 None [] (mkWorld t0 []).

Definition sampleOptions : GmailEmailOptions :=
  mkOptions "a@x.com" "Hello" "<p>hi</p>" "hi" None.

Definition sampleQueue : list FailedEmail :=
  [ mkFailedEmail 0 "a@x.com" "A" "help" 1000 confirmation;
    mkFailedEmail 1 "b@x.com" "B" "help me" 2000 response;
    mkFailedEmail 2 "c@x.com" "C" "please" 3000 confirmation ].

Definition queueState (t0 : Z) (q : list FailedEmail) : Sys :=
  mkSys (mkService true t0 false) q (length q) None [] (mkWorld t0 []).

Definition sampleConfig : IndexConfig :=
  mkIndexConfig "s3cret" true true ["en"; "uk"].

Definition sampleRequest : Request :=
  mkRequest (HString "s3cret") HAbsent
    (mkBody (BString "A") (BString "a@x.com") (BString "help") BAbsent).

(** The key of the client that sends the sample requests. *)
Definition sampleClient : string := "203.0.113.7".




(** The same request without [text]. *)
Definition noTextRequest : Request :=
  mkRequest HAbsent (HString "Bearer s3cret")
    (mkBody (BString "A") (BString "a@x.com") BAbsent BAbsent).


(** ** Relations between the state before and after a run *)

(** [m] relates every start state to its end state by [R], whatever it
    returns or throws. *)
Definition keeps {A} (R : Sys -> Sys -> Prop) (m : M A) : Prop :=
  forall s r s', m s = (r, s') -> R s s'.

(** The log only grows, and only by events satisfying [P]. *)
Definition grows (P : Event -> bool) (s s' : Sys) : Prop :=
  exists new, log (world s') = (log (world s) ++ new)%list
              /\ forallb P new = true.

Definition notLoopEvent (ev : Event) : bool := negb (is_loopEvent ev).

(** The observation [f] of the state is untouched. *)
Definition preserves {A} (f : Sys -> A) (s s' : Sys) : Prop := f s' = f s.

(** The fallback queue and its allocator. *)
Definition queueOf (s : Sys) : list FailedEmail * nat :=
  (failedEmails s, nextRef s).

Definition lastCheckOf (s : Sys) : Z := lastTokenCheck (svc s).
Definition validOf (s : Sys) : bool := isTokenValid (svc s).
Definition flagOf (s : Sys) : bool := notificationSent (svc s).

(** The credential record is untouched and the store was not invoked. *)
Definition storeUntouched (s s' : Sys) : Prop :=
  tokenFile s' = tokenFile s
  /\ grows (fun ev => negb (is_writeTokenFile ev)) s s'.

(** Bookkeeping of one failure episode: the flag is raised by the first
    auth-class failure, and a notification fires then and only then. *)
Definition accounting (s s' : Sys) : Prop :=
  exists new,
    log (world s') = (log (world s) ++ new)%list
    /\ notificationSent (svc s')
       = (notificationSent (svc s) || Nat.ltb 0 (countEv is_authFailure new))%bool
    /\ countEv is_notification new
       = if notificationSent (svc s) then 0%nat
         else if Nat.ltb 0 (countEv is_authFailure new) then 1%nat else 0%nat.

(** The verdict on a finished send: either it succeeded and lowered the
    flag, or it failed and kept the books. *)
Definition sendVerdict (s : Sys) (r : Res GmailEmailResponse) (s' : Sys)
  : Prop :=
  match r with
  | Ok resp =>
      (success resp = true /\ notificationSent (svc s') = false)
      \/ (success resp = false /\ accounting s s')
  | Throw _ => accounting s s'
  end.

(** Neither an auth-failure line nor a notification. *)
Definition unmarked (ev : Event) : bool :=
  negb (is_authFailure ev || is_notification ev).

(** [m] returns a value from every state. *)
Definition noThrow {A} (m : M A) : Prop :=
  forall s, exists a s', m s = (Ok a, s').


(** [m] throws only errors satisfying [P]. *)
Definition throwsOnly {A} (P : JsError -> Prop) (m : M A) : Prop :=
  forall s e s', m s = (Throw e, s') -> P e.

(** The error carries a string message, as every instance of [Error]
    does. *)
Definition messageful (e : JsError) : Prop := message e <> None.

(** The provider only ever rejects with errors that carry a message. *)
Definition envMessageful (env : Env) : Prop :=
  (forall w e, answer (env_getAccessToken env w) = Throw e -> messageful e)
  /\ (forall w e, answer (env_getProfile env w) = Throw e -> messageful e)
  /\ (forall o w e, answer (env_messagesSend env o w) = Throw e -> messageful e)
  /\ (forall w e, answer (env_refreshAccessToken env w) = Throw e -> messageful e).

(** Object identities in a queue are pairwise distinct. *)
Definition distinctRefs (q : list FailedEmail) : Prop := NoDup (map ref q).

(** The queue holds distinct objects, all allocated before [nextRef]. *)
Definition queueWf (s : Sys) : Prop :=
  distinctRefs (failedEmails s)
  /\ forall fe, In fe (failedEmails s) -> (ref fe < nextRef s)%nat.

(** The events [GmailService] can log. *)
Definition gmailEvent (ev : Event) : bool :=
  match ev with
  | GetAccessToken | GetProfile | MessagesSend _ | RefreshAccessToken
  | Telegram AuthErrorNotice | NotifyAuthError | ReAuthCallback | Sleep _
  | Console _ | LoadTemplate => true
  | _ => false
  end.

(** The summary of a drain was sent to the operator channel. *)
Definition is_retryReport (ev : Event) : bool :=
  match ev with Telegram (RetryResultsNotice _ _ _) => true | _ => false end.

(** The trace of attempt lines and waits of a loop whose every attempt is
    a transient failure. *)
Fixpoint transientTrace (remaining attempt : nat) : list Event :=
  match remaining with
  | O => []
  | S O => [Console (LogAttemptFailed attempt)]
  | S remaining' =>
      Console (LogAttemptFailed attempt) :: Sleep (backoffDelay attempt)
      :: transientTrace remaining' (S attempt)
  end.

(** Every attempt against this provider fails, with an error the taxonomy
    classifies as transient: retryable and not auth-class. *)
Definition alwaysTransient (env : Env) (options : GmailEmailOptions) : Prop :=
  forall attempt st,
    exists e st',
      attemptBody env options attempt st = (Throw e, st')
      /\ isRetryableError e = Ok true
      /\ isAuthenticationError e = Ok false.

(** * Further code of the repository *)

(** ** More observations and samples *)

(** The state in which the next iteration of the retry loop starts after a
    transient failure of [attempt] left the state [s1]: the failure line,
    the retry line and the backoff wait. *)
Definition afterTransient (attempt : nat) (s1 : Sys) : Sys :=
  logEvent (backoffDelay attempt) (Sleep (backoffDelay attempt))
    (logEvent 0 (Console (LogRetrying (backoffDelay attempt)))
       (logEvent 0 (Console (LogAttemptFailed attempt)) s1)).

(** An error of neither class: a malformed request. *)
Definition errBadRequest : JsError :=
  mkError (VNum 400) VUndef (Some "Invalid To header") VUndef.

Definition envSend400 : Env :=
  withSend (fun _ => always (Throw errBadRequest)) envOk.

(** The provider answers 503 to the first two sends and accepts the
    third. *)
Definition envThirdTimeLucky : Env :=
  withSend (fun _ w => if Nat.ltb (countEv is_send (log w)) 2
                       then mkReply 20%N (Throw err503)
                       else mkReply 20%N (Ok (mkSendData (Some "msg-3") None)))
    envOk.

Definition is_telegram (ev : Event) : bool :=
  match ev with Telegram _ => true | _ => false end.

Definition is_reAuthNotice (ev : Event) : bool :=
  match ev with Telegram (ReAuthRequiredNotice _) => true | _ => false end.

Definition is_failedEmailNotice (ev : Event) : bool :=
  match ev with Telegram (FailedEmailNotice _) => true | _ => false end.

(** A call to the mail provider or a read of the e-mail template. *)
Definition is_mailActivity (ev : Event) : bool :=
  match ev with
  | GetAccessToken | GetProfile | MessagesSend _ | RefreshAccessToken
  | LoadTemplate => true
  | _ => false
  end.

(** ** [GmailService.testConnection] and the token monitor *)

Section Monitoring.

Variable env : Env.

(** [testConnection]: the same probe as [validateToken], outside the
    Token Guard: nothing is cached and no field of the service is
    written. *)
Definition testConnection : M bool :=
  try_catch
    (token <- call GetAccessToken (env_getAccessToken env) ;;
     (if falsy token then throw (newError "Failed to obtain access token")
      else ret tt) ;;
     call GetProfile (env_getProfile env) ;;
     emit (Console (LogOther "Gmail API connection successful")) ;;
     ret true)
    (fun _ =>
       emit (Console (LogOther "Gmail API connection failed")) ;;
       ret false).

(** The body of the [setInterval] callback of [startTokenMonitoring]. *)
Definition monitorTick : M unit :=
  try_catch
    (emit (Console (LogOther "Gmail token monitoring check started...")) ;;
     status <- gets (fun s => getTokenStatus (svc s)) ;;
     (if negb (valid status) then
        emit (Console (LogOther "Gmail token invalid - attempting refresh...")) ;;
        refreshed <- refreshToken env ;;
        if negb refreshed then
          emit (Console (LogOther "Gmail token refresh failed - manual re-auth required"))
        else
          emit (Console (LogOther "Gmail token refreshed successfully"))
      else
        emit (Console (LogOther "Gmail token valid"))) ;;
     isWorking <- testConnection ;;
     emit (Console (LogOther (if isWorking : bool then "Gmail API test: Working"
                              else "Gmail API test: Failed"))))
    (fun _ => emit (Console (LogOther "Token monitoring error"))).

(** The body of the [setTimeout] callback of [startTokenMonitoring], run
    two seconds after start-up. *)
Definition initialTokenCheck : M unit :=
  emit (Console (LogOther "Performing initial Gmail token check...")) ;;
  try_catch
    (status <- gets (fun s => getTokenStatus (svc s)) ;;
     emit (Console (LogOther (if valid status then "Token status: Valid"
                              else "Token status: Invalid"))) ;;
     isWorking <- testConnection ;;
     emit (Console (LogOther (if isWorking : bool
                              then "Initial Gmail API test: Working"
                              else "Initial Gmail API test: Failed"))))
    (fun _ => emit (Console (LogOther "Initial token check failed"))).

End Monitoring.

(** A provider that answers every token request, probe and refresh. *)
Definition healthyProvider (env : Env) : Prop :=
  (forall w, exists tok,
      answer (env_getAccessToken env w) = Ok tok /\ falsy tok = false)
  /\ (forall w, answer (env_getProfile env w) = Ok tt)
  /\ (forall w, answer (env_refreshAccessToken env w) = Ok tt).

(** A state in which the Token Guard has given up: the flag is down and
    the operator has been notified. *)
Definition invalidState (t0 : Z) : Sys :=
  mkSys (mkService false (t0 - 600000) true) [] 0 None [] (mkWorld t0 []).

Definition is_refresh (ev : Event) : bool :=
  match ev with RefreshAccessToken => true | _ => false end.

(** ** [tokenStorage]: reading the record back, and the [/test] route *)

(** [loadRefreshToken].  The file, when it exists, holds a [TokenData]
    record; a missing file is the [ENOENT] branch of the [catch]. *)
Definition loadRefreshToken : M (option string) :=
  file <- gets tokenFile ;;
  match file with
  | Some tokenData =>
      if falsy (Some (td_refreshToken tokenData)) then
        emit (Console (LogOther "No refresh token found in tokens.json")) ;;
        ret None
      else
        emit (Console (LogOther "Refresh token loaded from file")) ;;
        ret (Some (td_refreshToken tokenData))
  | None =>
      emit (Console (LogOther "tokens.json not found. Please authorize via /oauth/auth endpoint")) ;;
      ret None
  end.


(** The JSON bodies of [router.get('/test', ...)]. *)
Inductive TestJson : Type :=
| TestNoToken                                   (* { error: 'No refresh token found ...' } *)
| TestReport (accessOk : bool) (timestamp : Z)  (* { success, message, timestamp } *)
| TestFailed (details : option string).         (* { error: 'Test failed', details } *)

Record TestResponse : Type := mkTestResponse {
  test_status : Z;
  test_json : TestJson
}.

Definition oauthTest (env : Env) : M TestResponse :=
  refreshTok <- loadRefreshToken ;;
  if falsy refreshTok then ret (mkTestResponse 400 TestNoToken)
  else
    try_catch
      (accessOk <- testGmailAccess env refreshTok ;;
       t <- dateNow ;;
       ret (mkTestResponse 200 (TestReport accessOk t)))
      (fun error => ret (mkTestResponse 500 (TestFailed (message error)))).


(** The store refuses the write. *)
Definition errDiskFull : JsError :=
  mkError (VStr "ENOSPC") VUndef (Some "ENOSPC: no space left on device") VUndef.

Definition withWriteFile (wf : World -> Reply unit) (e : Env) : Env :=
  mkEnv (env_getAccessToken e) (env_getProfile e) (env_messagesSend e)
        (env_refreshAccessToken e) (env_telegram e) (env_loadTemplate e)
        (env_getToken e) (env_userinfo e) wf
        (env_botConfigured e) (env_hasReAuthCallback e).

Definition envDiskFull : Env := withWriteFile (always (Throw errDiskFull)) envOk.

(** ** [EmailFallbackService]: the rest of the queue interface *)

Definition getFailedEmailsCount : M nat :=
  gets (fun s => length (failedEmails s)).

Definition clearFailedEmails : M unit :=
  modify (with_failedEmails (fun _ => [])) ;;
  emit (Console (LogOther "Failed emails queue cleared")).

(** The body of the [setInterval] callback of [startAutoRetry]. *)
Definition autoRetryTick (env : Env) (gm : GmailApi) : M unit :=
  failedCount <- getFailedEmailsCount ;;
  if Nat.ltb 0 failedCount then
    emit (Console (LogOther "Auto-retry starting")) ;;
    retryFailedEmails env gm
  else ret tt.

(** The clock does not run backwards. *)
Definition clockAdvances (s s' : Sys) : Prop :=
  now (world s) <= now (world s').

(** Well-formedness of the queue is carried over. *)
Definition wfStep (s s' : Sys) : Prop := queueWf s -> queueWf s'.

(** ** Sequences of operations of the components *)

(** The operations that act on the state of [GmailService] and of
    [EmailFallbackService]: a request on the support route (from some
    client, with the mail service present or absent as [IndexConfig]
    says), a request on the re-authorization callback, the two timer
    callbacks, the direct calls of the queue interface and of the mail
    service, and time passing between them. *)
Inductive ComponentOp : Type :=
| PSupport (clientKey : string) (req : Request)
| PCallback (queryCode queryError : option string)
| PMonitorTick
| PAutoRetry
| PRetryFailedEmails
| PClearFailedEmails
| PSendSupportResponse (userEmail userName original reply : string)
| PIdle (ms : N).

Definition runComponentOp (env : Env) (cfg : IndexConfig) (op : ComponentOp)
  (s : Sys) : Sys :=
  match op with
  | PSupport clientKey req => snd (supportRoute env cfg clientKey req s)
  | PCallback queryCode queryError => snd (callback env queryCode queryError s)
  | PMonitorTick => snd (monitorTick env s)
  | PAutoRetry => snd (autoRetryTick env (gmailService env) s)
  | PRetryFailedEmails => snd (retryFailedEmails env (gmailService env) s)
  | PClearFailedEmails => snd (clearFailedEmails s)
  | PSendSupportResponse userEmail userName original reply =>
      snd (sendSupportResponse env userEmail userName original reply None s)
  | PIdle ms => idle ms s
  end.

Definition runComponentOps (env : Env) (cfg : IndexConfig) (ops : list ComponentOp)
  (s : Sys) : Sys :=
  fold_left (fun st op => runComponentOp env cfg op st) ops s.

(** Two support requests, then the two timers. *)
Definition sampleOps : list ComponentOp :=
  [PSupport sampleClient sampleRequest; PSupport sampleClient sampleRequest;
   PAutoRetry; PMonitorTick].

(** The Token Guard is consistent: whenever the token is marked invalid
    the notification flag is raised. *)
Definition guardConsistent (s : Sys) : Prop :=
  isTokenValid (svc s) = false -> notificationSent (svc s) = true.

Definition guardStep (s s' : Sys) : Prop :=
  guardConsistent s -> guardConsistent s'.

(** The line a successful provider send prints. *)
Definition is_sentLine (ev : Event) : bool :=
  match ev with Console (LogSent _) => true | _ => false end.

(** What the chat side of the process can log. *)
Definition is_chatEvent (ev : Event) : bool :=
  match ev with
  | Telegram _ | Sleep _ | Console (LogOther _) | Console (LogRetrying _)
  | Console LogNotifyFailed => true
  | _ => false
  end.

Definition withTelegram (tg : Notice -> World -> Reply (option Z)) (e : Env)
  : Env :=
  mkEnv (env_getAccessToken e) (env_getProfile e) (env_messagesSend e)
        (env_refreshAccessToken e) tg (env_loadTemplate e)
        (env_getToken e) (env_userinfo e) (env_writeFile e)
        (env_botConfigured e) (env_hasReAuthCallback e).

(** The chat API answers 429 to everything. *)
Definition errTooManyRequests : JsError :=
  mkError VUndef VUndef (Some "Too Many Requests") (VNum 429).

Definition envChatBusy : Env :=
  withTelegram (fun _ => always (Throw errTooManyRequests)) envOk.

(** The number a send outcome contributes to the sent lines. *)
Definition sentCount (r : Res GmailEmailResponse) : nat :=
  if succeeded r then 1%nat else 0%nat.

(** ** String helpers of the notifications and of the MIME builder *)



(** [quotedPrintableEncode]: the bytes of the UTF-8 encoding, one by
    one. *)
Definition hexDigit (n : nat) : ascii :=
  match String.get n "0123456789ABCDEF" with
  | Some c => c
  | None => "0"%char
  end.

(** [byte.toString(16).toUpperCase().padStart(2, '0')] *)
Definition hexByte (b : ascii) : string :=
  String (hexDigit (nat_of_ascii b / 16))
    (String (hexDigit (nat_of_ascii b mod 16)) EmptyString).

Definition qpPlain (b : ascii) : bool :=
  let n := nat_of_ascii b in
  ((33 <=? n) && (n <=? 126) && negb (n =? 61) && negb (n =? 63)
   && negb (n =? 95))%nat%bool.

Fixpoint qpLoop (bytes : string) : string :=
  match bytes with
  | EmptyString => EmptyString
  | String b rest =>
      ((if qpPlain b then String b EmptyString
        else String "="%char (hexByte b)) ++ qpLoop rest)%string
  end.

(** [\s] on a code unit below 256. *)
Definition isSpace (c : ascii) : bool :=
  let n := nat_of_ascii c in
  ((n =? 9) || (n =? 10) || (n =? 11) || (n =? 12) || (n =? 13)
   || (n =? 32) || (n =? 160))%nat%bool.

(** [result.replace(/\s/g, '_')] *)
Fixpoint replaceSpaces (s : string) : string :=
  match s with
  | EmptyString => EmptyString
  | String c rest =>
      String (if isSpace c then "_"%char else c) (replaceSpaces rest)
  end.

Definition quotedPrintableEncode (text : string) : string :=
  replaceSpaces (qpLoop text).

(** The characters the encoding can produce: printable ASCII without
    [?] and [_]. *)
Definition qpSafe (c : ascii) : bool :=
  let n := nat_of_ascii c in
  ((33 <=? n) && (n <=? 126) && negb (n =? 63) && negb (n =? 95))%nat%bool.

Fixpoint allChars (p : ascii -> bool) (s : string) : bool :=
  match s with
  | EmptyString => true
  | String c rest => (p c && allChars p rest)%bool
  end.

Definition hasDot (s : string) : bool := negb (allChars (fun c => negb (Ascii.eqb c "."%char)) s).

(** ** [tokenChecker]: the longevity test and the recommendations *)

Record LongevityResults : Type := mkLongevity {
  totalTests : nat;
  successfulTests : nat;
  failedTests : nat;
  averageResponseTime : Q;
  errors : list (option string)
}.

(** The values [testTokenLongevity] mutates in its loop: the two counters
    and the [errors] array of [results], and the local [responseTimes]. *)
Record LongevityState : Type := mkLongevityState {
  ls_successful : nat;
  ls_failed : nat;
  ls_errors : list (option string);
  ls_responseTimes : list Z
}.

(** The body of the [for] loop. *)
Definition longevityProbe (env : Env) (st : LongevityState)
  : M LongevityState :=
  try_catch
    (startTime <- dateNow ;;
     call GetProfile (env_getProfile env) ;;
     t <- dateNow ;;
     let responseTime := t - startTime in
     sleep 100 ;;
     ret (mkLongevityState (S (ls_successful st)) (ls_failed st)
            (ls_errors st) (ls_responseTimes st ++ [responseTime])%list))
    (fun error =>
       ret (mkLongevityState (ls_successful st) (S (ls_failed st))
              (ls_errors st ++ [message error])%list (ls_responseTimes st))).

Fixpoint longevityLoop (env : Env) (remaining : nat) (st : LongevityState)
  : M LongevityState :=
  match remaining with
  | O => ret st
  | S remaining' =>
      st' <- longevityProbe env st ;;
      longevityLoop env remaining' st'
  end.

(** [responseTimes.reduce((a, b) => a + b, 0) / responseTimes.length],
    or [0] for an empty array. *)
Definition average (times : list Z) : Q :=
  match times with
  | [] => inject_Z 0
  | _ => Qdiv (inject_Z (fold_left Z.add times 0))
              (inject_Z (Z.of_nat (length times)))
  end.

Definition testTokenLongevity (env : Env) : M LongevityResults :=
  st <- longevityLoop env 5 (mkLongevityState 0 0 [] []) ;;
  ret (mkLongevity 5 (ls_successful st) (ls_failed st)
         (average (ls_responseTimes st)) (ls_errors st)).

(** The lines [generateRecommendations] can push. *)
Inductive Recommendation : Type :=
| RecInvalid                          (* Token is invalid - immediate re-authorization required *)
| RecVisitAuth                        (* Visit /oauth/auth to get new token *)
| RecWorking                          (* Token is currently working *)
| RecCallsFailed (failed total : nat) (* n out of m API calls failed *)
| RecSlow                             (* API response time is slow *)
| RecExcellent                        (* Token health is excellent *)
| RecNoAction.                        (* No immediate action needed *)

(** [generateRecommendations(status, longevity)]; of [status] only
    [isValid] is read. *)
Definition generateRecommendations (isValid : bool)
  (longevity : LongevityResults) : list Recommendation :=
  ((if negb isValid then [RecInvalid; RecVisitAuth] else [RecWorking])
   ++ (if Nat.ltb 0 (failedTests longevity)
       then [RecCallsFailed (failedTests longevity) (totalTests longevity)]
       else [])
   ++ (if negb (Qle_bool (averageResponseTime longevity) (inject_Z 2000))
       then [RecSlow] else [])
   ++ (if (isValid
           && Nat.eqb (successfulTests longevity) (totalTests longevity))%bool
       then [RecExcellent; RecNoAction] else []))%list.

Definition is_getProfile (ev : Event) : bool :=
  match ev with GetProfile => true | _ => false end.

(** The probe fails on every second call. *)
Definition envFlaky : Env :=
  mkEnv (always (Ok (Some "ya29.token")))
        (fun w => if Nat.even (countEv is_getProfile (log w))
                  then mkReply 30%N (Ok tt)
                  else mkReply 30%N (Throw err503))
        (fun _ => always (Ok (mkSendData (Some "msg-1") None)))
        (always (Ok tt))
        (fun _ => always (Ok (Some 42)))
        (always (Ok "<html>[USER_NAME]</html>"))
        (fun _ => always (Ok (mkCredentials (Some "ya29.token") (Some "1//refresh"))))
        (always (Ok (mkUserInfo (Some "supprtblockroyale@gmail.com") (Some true) None)))
        (always (Ok tt))
        true true.


(** ** The outcomes of a drain *)

(** The state the drain loop is in after its iteration over
    [failedEmail]: what [retryLoop] over that one entry leaves. *)
Definition afterIteration (gm : GmailApi) (failedEmail : FailedEmail)
  (s : Sys) : Sys :=
  snd (retryLoop gm [failedEmail] (0%nat, 0%nat) s).

(** Whether each resend of the loop over [snapshot] succeeded, in order;
    every resend is made in the state the loop has reached by then. *)
Fixpoint resendOutcomes (gm : GmailApi) (snapshot : list FailedEmail)
  (s : Sys) : list bool :=
  match snapshot with
  | [] => []
  | failedEmail :: rest =>
      succeeded (fst (resend gm failedEmail s))
      :: resendOutcomes gm rest (afterIteration gm failedEmail s)
  end.

(** The outcomes of the resends of one [retryFailedEmails] from [s]. *)
Definition drainOutcomes (env : Env) (s : Sys) : list bool :=
  resendOutcomes (gmailService env) (failedEmails s)
    (logEvent 0 (Console (LogOther "Retrying failed emails...")) s).

(** The entries of [q] whose outcome is a failure. *)
Fixpoint keepFailed (outcomes : list bool) (q : list FailedEmail)
  : list FailedEmail :=
  match outcomes, q with
  | sent :: outcomes', e :: q' =>
      if sent then keepFailed outcomes' q' else e :: keepFailed outcomes' q'
  | _, _ => []
  end.

(** What the removals of the loop over [snapshot] leave of a live list. *)
Fixpoint dropSent (snapshot : list FailedEmail) (outcomes : list bool)
  (q : list FailedEmail) : list FailedEmail :=
  match snapshot, outcomes with
  | failedEmail :: rest, sent :: outcomes' =>
      dropSent rest outcomes'
        (if sent then removeEntry failedEmail q else q)
  | _, _ => q
  end.

Definition sentOf (outcomes : list bool) : nat :=
  length (filter (fun sent => sent) outcomes).
Definition failedOf (outcomes : list bool) : nat :=
  length (filter negb outcomes).

(** A 401 of the provider thrown as an object that carries the code and
    no message. *)
Definition errUnauthorizedNoMessage : JsError :=
  mkError (VNum 401) VUndef None VUndef.

(** The provider answers every send with that object. *)
Definition envSend401NoMessage : Env :=
  withSend (fun _ => always (Throw errUnauthorizedNoMessage)) envOk.


(** * Properties *)

(** ** The taxonomy on sample errors *)

Example classify_503 :
  isRetryableError err503 = Ok true /\ isAuthenticationError err503 = Ok false.
Proof. split; reflexivity. Qed.

Example classify_invalid_grant :
  isRetryableError errInvalidGrant = Ok false
  /\ isAuthenticationError errInvalidGrant = Ok true.
Proof. split; reflexivity. Qed.

Example classify_revoked_message :
  isAuthenticationError
    (newError "Token has been expired or revoked.") = Ok true.
Proof. reflexivity. Qed.

Example classify_auth_and_timeout :
  isRetryableError errAuthTimeout = Ok true
  /\ isAuthenticationError errAuthTimeout = Ok true.
Proof. split; reflexivity. Qed.

Example classify_without_message :
  isRetryableError errNoMessage = Ok true
  /\ isAuthenticationError errNoMessage = Throw (TypeError "toLowerCase")
  /\ isRetryableError (mkError (VStr "invalid_grant") VUndef None VUndef)
     = Throw (TypeError "includes").
Proof. repeat split; reflexivity. Qed.

Example backoffDelay_values :
  backoffDelay 1 = 1000 /\ backoffDelay 2 = 2000 /\ backoffDelay 3 = 4000.
Proof. repeat split; reflexivity. Qed.

(** ** The shared secret *)

Lemma authenticateWebhook_missing cfg b :
  authenticateWebhook cfg (mkRequest HAbsent HAbsent b) = false.
Proof. reflexivity. Qed.

Lemma authenticateWebhook_wrong cfg secret auth b :
  falsy (Some secret) = false ->
  secret <> WEBHOOK_SECRET cfg ->
  authenticateWebhook cfg (mkRequest (HString secret) auth b) = false.
Proof.
  intros Hs Hne. unfold authenticateWebhook, orElse.
  cbn [x_webhook_secret]. rewrite Hs. now apply String.eqb_neq.
Qed.

Lemma authenticateWebhook_header cfg auth b :
  falsy (Some (WEBHOOK_SECRET cfg)) = false ->
  authenticateWebhook cfg (mkRequest (HString (WEBHOOK_SECRET cfg)) auth b)
  = true.
Proof.
  intros Hs. unfold authenticateWebhook, orElse.
  cbn [x_webhook_secret]. rewrite Hs. apply String.eqb_refl.
Qed.

Example authenticateWebhook_bearer :
  authenticateWebhook sampleConfig noTextRequest = true.
Proof. reflexivity. Qed.

(** ** Generic rules for [keeps] *)

Section Keeps.

Context (R : Sys -> Sys -> Prop) `{HR : !PreOrder R}.

Lemma keeps_ret A (a : A) : keeps R (ret a).
Proof. intros s r s' H. inversion H; subst. reflexivity. Qed.

Lemma keeps_throw A (e : JsError) : keeps R (@throw A e).
Proof. intros s r s' H. inversion H; subst. reflexivity. Qed.

Lemma keeps_eval A (x : Res A) : keeps R (eval x).
Proof. intros s r s' H. inversion H; subst. reflexivity. Qed.

Lemma keeps_gets A (f : Sys -> A) : keeps R (gets f).
Proof. intros s r s' H. inversion H; subst. reflexivity. Qed.

Lemma keeps_modify (f : Sys -> Sys) :
  (forall s, R s (f s)) -> keeps R (modify f).
Proof. intros Hf s r s' H. inversion H; subst. apply Hf. Qed.

Lemma keeps_call A (ev : Event) (oracle : World -> Reply A) :
  (forall dt s, R s (logEvent dt ev s)) -> keeps R (call ev oracle).
Proof. intros Hf s r s' H. inversion H; subst. apply Hf. Qed.

Lemma keeps_bind A B (m : M A) (k : A -> M B) :
  keeps R m -> (forall a, keeps R (k a)) -> keeps R (bind m k).
Proof.
  intros Hm Hk s r s' H. unfold bind in H.
  destruct (m s) as [[a|e] s1] eqn:E.
  - transitivity s1; [eapply Hm; eauto | eapply Hk; eauto].
  - inversion H; subst. eapply Hm; eauto.
Qed.

Lemma keeps_try_catch A (m : M A) (h : JsError -> M A) :
  keeps R m -> (forall e, keeps R (h e)) -> keeps R (try_catch m h).
Proof.
  intros Hm Hh s r s' H. unfold try_catch in H.
  destruct (m s) as [[a|e] s1] eqn:E.
  - inversion H; subst. eapply Hm; eauto.
  - transitivity s1; [eapply Hm; eauto | eapply Hh; eauto].
Qed.

End Keeps.

(** Structural decomposition of a [keeps] goal; [prim] closes the
    obligations on the primitive state changes. *)
Ltac keeps_struct prim :=
  repeat first
    [ assumption
    | apply keeps_ret; typeclasses eauto
    | apply keeps_throw; typeclasses eauto
    | apply keeps_eval; typeclasses eauto
    | apply keeps_gets; typeclasses eauto
    | apply keeps_bind; [ typeclasses eauto | | intros ]
    | apply keeps_try_catch; [ typeclasses eauto | | intros ]
    | apply keeps_modify; solve [prim]
    | apply keeps_call; solve [prim]
    | match goal with
      | |- keeps _ (if ?b then _ else _) => destruct b
      | |- keeps _ (match ?x with _ => _ end) => destruct x
      end ].

(** ** The log grows by permitted events only *)

Lemma grows_refl P s : grows P s s.
Proof. exists []. split; [now rewrite app_nil_r | reflexivity]. Qed.

Lemma grows_trans P a b c : grows P a b -> grows P b c -> grows P a c.
Proof.
  intros [n1 [E1 F1]] [n2 [E2 F2]]. exists (n1 ++ n2)%list. split.
  - rewrite E2, E1. now rewrite app_assoc.
  - rewrite forallb_app, F1, F2. reflexivity.
Qed.

Lemma grows_logEvent (P : Event -> bool) dt ev s :
  P ev = true -> grows P s (logEvent dt ev s).
Proof.
  intros H. exists [ev]. split; [reflexivity|]. simpl. now rewrite H.
Qed.

Lemma grows_with_svc P f s : grows P s (with_svc f s).
Proof. exists []. split; [simpl; now rewrite app_nil_r | reflexivity]. Qed.

Lemma grows_weaken (P Q : Event -> bool) s s' :
  (forall ev, P ev = true -> Q ev = true) -> grows P s s' -> grows Q s s'.
Proof.
  intros HPQ [n [E F]]. exists n. split; [assumption|].
  rewrite forallb_forall in *. auto.
Qed.

Lemma grows_newEvents P s s' :
  grows P s s' ->
  log (world s') = (log (world s) ++ newEvents s s')%list
  /\ forallb P (newEvents s s') = true.
Proof.
  intros [n [E F]]. unfold newEvents. rewrite E.
  rewrite skipn_app, skipn_all, Nat.sub_diag. simpl. auto.
Qed.

#[export] Instance grows_PreOrder P : PreOrder (grows P).
Proof. split; [intros s; apply grows_refl | intros a b c; apply grows_trans]. Qed.

Ltac grows_prim :=
  first [ intros; apply grows_logEvent; reflexivity
        | intros; apply grows_with_svc ].

Section GrowsGmail.

Variable env : Env.

Lemma notifyAuthError_quiet : keeps (grows notLoopEvent) (notifyAuthError env).
Proof.
  unfold notifyAuthError, emit, set_notificationSent.
  keeps_struct grows_prim.
Qed.

Lemma handleAuthError_quiet : keeps (grows notLoopEvent) (handleAuthError env).
Proof.
  pose proof notifyAuthError_quiet.
  unfold handleAuthError, emit, set_notificationSent.
  keeps_struct grows_prim.
Qed.

Lemma validateToken_quiet : keeps (grows notLoopEvent) (validateToken env).
Proof.
  pose proof handleAuthError_quiet.
  unfold validateToken, emit, dateNow, set_isTokenValid, set_lastTokenCheck.
  keeps_struct grows_prim.
Qed.

End GrowsGmail.

(** ** Token Guard: the liveness cache *)

#[export] Instance preserves_PreOrder A (f : Sys -> A) : PreOrder (preserves f).
Proof.
  split; [intros s; reflexivity|].
  intros a b c H1 H2. unfold preserves in *. congruence.
Qed.

Ltac preserves_prim := intros; reflexivity.

Lemma skipn_length_app A (l x : list A) : skipn (length l) (l ++ x) = x.
Proof. induction l; simpl; auto. Qed.

Lemma newEvents_app s s' new :
  log (world s') = (log (world s) ++ new)%list -> newEvents s s' = new.
Proof. intros H. unfold newEvents. rewrite H. apply skipn_length_app. Qed.

Lemma newEvents_refl s : newEvents s s = [].
Proof. apply newEvents_app. now rewrite app_nil_r. Qed.

Ltac mrun :=
  cbv beta iota zeta delta
    [bind ret try_catch throw eval gets modify emit call sleep dateNow
     set_isTokenValid set_lastTokenCheck set_notificationSent] in *.

Section TokenGuard.

Variable env : Env.

Lemma handleAuthError_sameLastCheck : keeps (preserves lastCheckOf) (handleAuthError env).
Proof.
  unfold handleAuthError, notifyAuthError, emit, set_notificationSent.
  keeps_struct preserves_prim.
Qed.

(** Inside the grace window the cached flag answers: no event, no state
    change. *)
Lemma validateToken_hit s :
  isTokenValid (svc s) = true ->
  now (world s) - lastTokenCheck (svc s) < graceWindow ->
  validateToken env s = (Ok true, s).
Proof.
  intros Hv Ht. unfold validateToken. mrun.
  rewrite Hv. simpl.
  replace (now (world s) - graceWindow <? lastTokenCheck (svc s)) with true.
  - reflexivity.
  - symmetry. apply Z.ltb_lt. lia.
Qed.

(** The catch block of [validateToken] never moves [lastTokenCheck]. *)
Lemma validateToken_catch_sameLastCheck (error : JsError) :
  keeps (preserves lastCheckOf)
    (emit (Console LogValidationFailed) ;;
     isAuth <- eval (isAuthenticationError error) ;;
     (if isAuth then set_isTokenValid false ;; handleAuthError env
      else ret tt) ;;
     ret false).
Proof.
  pose proof handleAuthError_sameLastCheck.
  unfold emit, set_isTokenValid.
  keeps_struct preserves_prim.
Qed.

Lemma validateToken_catch_false (error : JsError) s r s' :
  (emit (Console LogValidationFailed) ;;
   isAuth <- eval (isAuthenticationError error) ;;
   (if isAuth then set_isTokenValid false ;; handleAuthError env
    else ret tt) ;;
   ret false) s = (r, s') ->
  r <> Ok true.
Proof.
  mrun. destruct (isAuthenticationError error) as [[|]|e].
  - destruct (handleAuthError env _) as [[[]|e] s1];
      intros H; inversion H; discriminate.
  - intros H; inversion H; discriminate.
  - intros H; inversion H; discriminate.
Qed.

(** The three ways a run of [validateToken] can go: a cache hit, a
    successful probe that stamps [lastTokenCheck] with the time of
    completion, or a failed probe that leaves it alone. *)
Lemma validateToken_cases s r s' :
  validateToken env s = (r, s') ->
  (isTokenValid (svc s) = true
   /\ now (world s) - lastTokenCheck (svc s) < graceWindow
   /\ r = Ok true /\ s' = s)
  \/ (~ (isTokenValid (svc s) = true
         /\ now (world s) - lastTokenCheck (svc s) < graceWindow)
      /\ r = Ok true
      /\ newEvents s s' = [GetAccessToken; GetProfile]
      /\ lastTokenCheck (svc s') = now (world s')
      /\ isTokenValid (svc s') = true)
  \/ (~ (isTokenValid (svc s) = true
         /\ now (world s) - lastTokenCheck (svc s) < graceWindow)
      /\ r <> Ok true
      /\ lastTokenCheck (svc s') = lastTokenCheck (svc s)).
Proof.
  intros H. unfold validateToken in H.
  unfold bind at 1 2 in H. unfold dateNow, gets in H.
  cbv beta iota in H.
  destruct (isTokenValid (svc s)
            && (now (world s) - graceWindow <? lastTokenCheck (svc s)))%bool
    eqn:C.
  - left. apply andb_true_iff in C. destruct C as [C1 C2].
    apply Z.ltb_lt in C2. inversion H; subst. repeat split; auto. lia.
  - assert (Hmiss : ~ (isTokenValid (svc s) = true
         /\ now (world s) - lastTokenCheck (svc s) < graceWindow)).
    { intros [C1 C2]. rewrite C1 in C. simpl in C.
      apply Z.ltb_ge in C. lia. }
    right. unfold try_catch in H.
    match type of H with
    | match ?body s with _ => _ end = _ => destruct (body s) as [[b|e] s1] eqn:E
    end.
    + left. inversion H; subst; clear H.
      mrun.
      destruct (answer (env_getAccessToken env (world s))) as [tok|e1]; [|discriminate].
      destruct (falsy tok); [discriminate|].
      destruct (answer (env_getProfile env _)) as [[]|e2]; [|discriminate].
      inversion E; subst; clear E. simpl.
      repeat split; auto.
      apply newEvents_app. simpl. now rewrite <- app_assoc.
    + right.
      assert (Hs1 : lastTokenCheck (svc s1) = lastTokenCheck (svc s)).
      { mrun.
        destruct (answer (env_getAccessToken env (world s))) as [tok|e1].
        - destruct (falsy tok).
          + inversion E; subst. reflexivity.
          + destruct (answer (env_getProfile env _)) as [[]|e2];
              inversion E; subst. reflexivity.
        - inversion E; subst. reflexivity. }
      split; [assumption|]. split.
      * eapply validateToken_catch_false; eauto.
      * apply (validateToken_catch_sameLastCheck e) in H.
        unfold preserves, lastCheckOf in H. congruence.
Qed.

End TokenGuard.

(** C3, as amended.  In every state where the cached liveness flag is
    true and [lastTokenCheck] is less than five minutes old,
    [validateToken] returns [true] without any event (no probe) and
    without changing the state.  [lastTokenCheck] moves only in a run that
    performed a successful probe, which stamps it with the time the probe
    completed.  Consequently a call that misses the cache and probes
    successfully, followed by a second call inside the grace window,
    performs exactly one probe in all; two calls that both find the cache
    fresh perform none. *)
Theorem validateToken_cache_short_circuit (env : Env) :
  (forall s,
      isTokenValid (svc s) = true ->
      now (world s) - lastTokenCheck (svc s) < graceWindow ->
      validateToken env s = (Ok true, s))
  /\ (forall s r s',
         validateToken env s = (r, s') ->
         lastTokenCheck (svc s') <> lastTokenCheck (svc s) ->
         r = Ok true
         /\ newEvents s s' = [GetAccessToken; GetProfile]
         /\ lastTokenCheck (svc s') = now (world s'))
  /\ (forall s s1 ms,
         ~ (isTokenValid (svc s) = true
            /\ now (world s) - lastTokenCheck (svc s) < graceWindow) ->
         validateToken env s = (Ok true, s1) ->
         now (world (idle ms s1)) - lastTokenCheck (svc s1) < graceWindow ->
         validateToken env (idle ms s1) = (Ok true, idle ms s1)
         /\ countEv is_getAccessToken (newEvents s (idle ms s1)) = 1%nat)
  /\ (forall s ms,
         isTokenValid (svc s) = true ->
         now (world (idle ms s)) - lastTokenCheck (svc s) < graceWindow ->
         validateToken env s = (Ok true, s)
         /\ validateToken env (idle ms s) = (Ok true, idle ms s)
         /\ newEvents s (idle ms s) = []).
Proof.
  split; [|split; [|split]].
  - intros s Hv Ht. now apply validateToken_hit.
  - intros s r s' H Hne.
    destruct (validateToken_cases env s H)
      as [(_ & _ & _ & ->) | [(_ & Hr & Hn & Hl & _) | (_ & _ & Hl)]].
    + congruence.
    + auto.
    + congruence.
  - intros s s1 ms Hmiss H Hwin.
    destruct (validateToken_cases env s H)
      as [(Hv & Ht & _) | [(_ & _ & Hn & Hl & Hv) | (_ & Hr & _)]].
    + exfalso. apply Hmiss. auto.
    + split.
      * apply validateToken_hit; simpl; auto.
      * unfold newEvents in *. simpl. rewrite Hn. reflexivity.
    + congruence.
  - intros s ms Hv Hwin.
    assert (Hnow : now (world s) - lastTokenCheck (svc s) < graceWindow)
      by (simpl in Hwin; lia).
    split; [now apply validateToken_hit|]. split.
    + apply validateToken_hit; simpl; auto.
    + unfold newEvents. simpl. apply skipn_all.
Qed.

Lemma validateToken_cache_short_circuit_witness :
  validateToken envOk (startState 1000) = (Ok true, startState 1000)
  /\ (fst (validateToken envOk (staleState 1000)) = Ok true
      /\ newEvents (staleState 1000) (snd (validateToken envOk (staleState 1000)))
         = [GetAccessToken; GetProfile])
  /\ countEv is_getAccessToken
       (newEvents (staleState 1000)
          (idle 60000 (snd (validateToken envOk (staleState 1000))))) = 1%nat
  /\ newEvents (startState 1000) (idle 60000 (startState 1000)) = [].
Proof.
  destruct (validateToken_cache_short_circuit envOk) as [H1 [H2 [H3 H4]]].
  split; [|split; [|split]].
  - apply (H1 (startState 1000)); [reflexivity | vm_compute; reflexivity].
  - destruct (H2 (staleState 1000) (Ok true)
                (snd (validateToken envOk (staleState 1000))))
      as [_ [Hn _]].
    + vm_compute. reflexivity.
    + vm_compute. discriminate.
    + split; [vm_compute; reflexivity | exact Hn].
  - apply (H3 (staleState 1000)
              (snd (validateToken envOk (staleState 1000))) 60000%N).
    + vm_compute. intros [_ H]. discriminate H.
    + vm_compute. reflexivity.
    + vm_compute. reflexivity.
  - apply (H4 (startState 1000) 60000%N).
    + reflexivity.
    + vm_compute. reflexivity.
Defined.

(** The original wording of C3 fails on a service that was just
    constructed: its flag starts [true] and [lastTokenCheck] starts at the
    construction time, so two calls inside the grace window both hit the
    cache and perform no probe at all, not one. *)
Lemma validateToken_twice_after_start_no_probe :
  validateToken envOk (startState 1000) = (Ok true, startState 1000)
  /\ validateToken envOk (idle 1000 (startState 1000))
     = (Ok true, idle 1000 (startState 1000))
  /\ countEv is_getAccessToken
       (newEvents (startState 1000) (idle 1000 (startState 1000))) = 0%nat
  /\ countEv is_getAccessToken
       (newEvents (startState 1000) (idle 1000 (startState 1000))) <> 1%nat.
Proof.
  split; [reflexivity|]. split; [reflexivity|].
  split; [reflexivity|]. vm_compute. discriminate.
Qed.

(** C10.  In every status object [getTokenStatus] returns, [needsReAuth]
    is the negation of [valid]: a status is never both valid and in need
    of re-authorization, and never neither. *)
Theorem getTokenStatus_needsReAuth (v : Service) :
  needsReAuth (getTokenStatus v) = negb (valid (getTokenStatus v))
  /\ (valid (getTokenStatus v) && needsReAuth (getTokenStatus v))%bool = false
  /\ (valid (getTokenStatus v) || needsReAuth (getTokenStatus v))%bool = true.
Proof.
  unfold getTokenStatus. simpl.
  destruct (isTokenValid v); auto.
Qed.

(** ** Delivery Engine: the guard in front of the retry loop *)

Lemma forallb_filter_none A (p q : A -> bool) (l : list A) :
  forallb p l = true -> (forall x, p x = true -> q x = false) ->
  filter q l = [].
Proof.
  intros H Hpq. induction l as [|x l IH]; simpl in *; auto.
  apply andb_true_iff in H. destruct H as [Hx Hl].
  rewrite (Hpq x Hx). auto.
Qed.

Lemma notLoopEvent_countEv (q : Event -> bool) (l : list Event) :
  forallb notLoopEvent l = true ->
  (forall ev, q ev = true -> is_loopEvent ev = true) ->
  countEv q l = 0%nat.
Proof.
  intros H Hq. unfold countEv.
  rewrite (@forallb_filter_none _ notLoopEvent q l H); auto.
  intros ev Hev. destruct (q ev) eqn:E; auto.
  apply Hq in E. unfold notLoopEvent in Hev. rewrite E in Hev. discriminate.
Qed.

(** C7.  When [validateToken] returns [false], [sendEmail] returns the
    AUTH_REQUIRED failure with [requiresReAuth = true] from the very state
    the guard left: the retry loop does not run, so the invocation logs no
    attempt, no provider send and no backoff wait. *)
Theorem sendEmail_guard_rejects (env : Env) (options : GmailEmailOptions)
  (maxRetries : nat) (s s1 : Sys) :
  validateToken env s = (Ok false, s1) ->
  sendEmail env options maxRetries s
  = (Ok (authRequiredResponse (now (world s1))), s1)
  /\ success (authRequiredResponse (now (world s1))) = false
  /\ authRelated (authRequiredResponse (now (world s1))) = true
  /\ countEv is_attempt (newEvents s s1) = 0%nat
  /\ countEv is_send (newEvents s s1) = 0%nat
  /\ countEv is_sleep (newEvents s s1) = 0%nat.
Proof.
  intros H. split; [|split; [|split]]; try reflexivity.
  - unfold sendEmail. unfold bind at 1. rewrite H. reflexivity.
  - pose proof (validateToken_quiet env s H) as G.
    apply grows_newEvents in G. destruct G as [_ G].
    repeat split; apply notLoopEvent_countEv; auto;
      intros ev Hev; unfold is_loopEvent; rewrite Hev;
      rewrite ?orb_true_r; reflexivity.
Qed.

Lemma sendEmail_guard_rejects_witness :
  fst (sendEmail envRevoked sampleOptions 3 (staleState 1000))
  = Ok (authRequiredResponse 1040)
  /\ countEv is_send
       (newEvents (staleState 1000)
          (snd (validateToken envRevoked (staleState 1000)))) = 0%nat.
Proof.
  destruct (@sendEmail_guard_rejects envRevoked sampleOptions 3
              (staleState 1000)
              (snd (validateToken envRevoked (staleState 1000))))
    as (H1 & _ & _ & _ & H2 & _).
  - vm_compute. reflexivity.
  - split; [rewrite H1; vm_compute; reflexivity | exact H2].
Defined.

(** ** Computations that cannot throw *)

Lemma noThrow_ret A (a : A) : noThrow (ret a).
Proof. intros s. now exists a, s. Qed.

Lemma noThrow_gets A (f : Sys -> A) : noThrow (gets f).
Proof. intros s. now exists (f s), s. Qed.

Lemma noThrow_modify (f : Sys -> Sys) : noThrow (modify f).
Proof. intros s. now exists tt, (f s). Qed.

Lemma noThrow_bind A B (m : M A) (k : A -> M B) :
  noThrow m -> (forall a, noThrow (k a)) -> noThrow (bind m k).
Proof.
  intros Hm Hk s. destruct (Hm s) as [a [s1 E]].
  destruct (Hk a s1) as [b [s2 E2]].
  exists b, s2. unfold bind. now rewrite E.
Qed.

(** A [try] whose [catch] cannot throw cannot throw. *)
Lemma noThrow_try_catch A (m : M A) (h : JsError -> M A) :
  (forall e, noThrow (h e)) -> noThrow (try_catch m h).
Proof.
  intros Hh s. unfold try_catch.
  destruct (m s) as [[a|e] s1].
  - now exists a, s1.
  - apply Hh.
Qed.

Ltac noThrow_struct :=
  repeat first
    [ assumption
    | apply noThrow_ret
    | apply noThrow_gets
    | apply noThrow_modify
    | apply noThrow_try_catch; intros
    | apply noThrow_bind; [ | intros ]
    | match goal with
      | |- noThrow (if ?b then _ else _) => destruct b
      | |- noThrow (match ?x with _ => _ end) => destruct x
      end
    | assumption ].

Lemma countEv_app p (a b : list Event) :
  countEv p (a ++ b) = (countEv p a + countEv p b)%nat.
Proof. unfold countEv. now rewrite filter_app, length_app. Qed.

Lemma grows_countEv_zero (P q : Event -> bool) s s' :
  grows P s s' -> (forall ev, P ev = true -> q ev = false) ->
  countEv q (newEvents s s') = 0%nat.
Proof.
  intros G Hq. apply grows_newEvents in G. destruct G as [_ G].
  unfold countEv. now rewrite (@forallb_filter_none _ P q _ G).
Qed.

Lemma newEvents_trans a b c :
  grows (fun _ => true) a b -> grows (fun _ => true) b c ->
  newEvents a c = (newEvents a b ++ newEvents b c)%list.
Proof.
  intros [n1 [E1 _]] [n2 [E2 _]].
  rewrite (@newEvents_app a b n1 E1), (@newEvents_app b c n2 E2).
  apply newEvents_app. rewrite E2, E1. now rewrite app_assoc.
Qed.

Lemma grows_any P s s' : grows P s s' -> grows (fun _ => true) s s'.
Proof. apply grows_weaken. auto. Qed.

(** ** Delivery Engine: one attempt *)

Section DeliveryEngine.

Variable env : Env.
Variable options : GmailEmailOptions.

Lemma notifyAuthError_noThrow : noThrow (notifyAuthError env).
Proof. unfold notifyAuthError, emit. noThrow_struct. Qed.

Lemma handleAuthError_noThrow : noThrow (handleAuthError env).
Proof.
  pose proof notifyAuthError_noThrow.
  unfold handleAuthError, emit, set_notificationSent. noThrow_struct.
Qed.

Lemma handleAuthError_validOf : keeps (preserves validOf) (handleAuthError env).
Proof.
  unfold handleAuthError, notifyAuthError, emit, set_notificationSent.
  keeps_struct preserves_prim.
Qed.

Lemma attemptBody_throws attempt s e s1 :
  attemptBody env options attempt s = (Throw e, s1) ->
  svc s1 = svc s
  /\ (log (world s1) = (log (world s) ++ [GetAccessToken])%list
      \/ log (world s1)
         = (log (world s) ++ [GetAccessToken; MessagesSend options])%list).
Proof.
  unfold attemptBody. mrun.
  destruct (answer (env_getAccessToken env (world s))) as [tok|e1].
  - destruct (answer (env_messagesSend env options _)) as [d|e2];
      intros H; inversion H; subst; clear H.
    split; [reflexivity|]. right.
    simpl. now rewrite <- app_assoc.
  - intros H; inversion H; subst; clear H.
    split; [reflexivity|]. now left.
Qed.

(** What the [catch] block does with an error classified as auth-class:
    one failure line, the Token Guard marked invalid, the escalation, and
    the auth-related failure returned at once. *)
Lemma attemptCatch_auth maxRetries attempt e retryable s1 :
  isRetryableError e = Ok retryable ->
  isAuthenticationError e = Ok true ->
  exists s2,
    attemptCatch env maxRetries attempt e s1
    = (Ok (Some (authFailedResponse e (now (world s2)))), s2)
    /\ isTokenValid (svc s2) = false
    /\ exists rest,
         log (world s2)
         = (log (world s1) ++ Console (LogAttemptFailed attempt) :: rest)%list
         /\ forallb notLoopEvent rest = true.
Proof.
  intros Hr Ha. unfold attemptCatch. mrun. rewrite Hr, Ha.
  set (s1' := with_svc (put_isTokenValid false)
                (logEvent 0 (Console (LogAttemptFailed attempt)) s1)).
  destruct (handleAuthError_noThrow s1') as [[] [s2 E]]. rewrite E.
  exists s2. split; [reflexivity|]. split.
  - apply handleAuthError_validOf in E. unfold preserves, validOf in E.
    rewrite E. reflexivity.
  - apply handleAuthError_quiet in E. destruct E as [rest [E F]].
    exists rest. split; [|assumption].
    rewrite E. simpl. now rewrite <- app_assoc.
Qed.

End DeliveryEngine.

(** The auth short-circuit, for the thrown objects on which both
    classifiers return a verdict (every object with a string [message]
    does).  Whenever an attempt of the retry loop fails with an error that
    the taxonomy classifies as auth-class, the loop returns there and then,
    whatever the number of attempts left and whatever the retryability
    verdict on the same error: the outcome is a failure with
    [requiresReAuth = true], the Token Guard is marked invalid, and the
    iteration logs one attempt line and no backoff wait.  In particular,
    with [maxRetries = 3], an auth-class error on the first attempt makes
    the whole invocation exactly one attempt long. *)
Theorem sendEmail_auth_error_short_circuits (env : Env)
  (options : GmailEmailOptions) :
  (forall maxRetries remaining attempt s e s1 retryable,
      attemptBody env options attempt s = (Throw e, s1) ->
      isRetryableError e = Ok retryable ->
      isAuthenticationError e = Ok true ->
      exists s2,
        sendLoop env options maxRetries (S remaining) attempt s
        = (Ok (authFailedResponse e (now (world s2))), s2)
        /\ success (authFailedResponse e (now (world s2))) = false
        /\ authRelated (authFailedResponse e (now (world s2))) = true
        /\ isTokenValid (svc s2) = false
        /\ countEv is_attempt (newEvents s s2) = 1%nat
        /\ countEv is_sleep (newEvents s s2) = 0%nat)
  /\ (forall s s0 e s1 retryable,
         validateToken env s = (Ok true, s0) ->
         attemptBody env options 1 s0 = (Throw e, s1) ->
         isRetryableError e = Ok retryable ->
         isAuthenticationError e = Ok true ->
         exists s2,
           sendEmail env options 3 s
           = (Ok (authFailedResponse e (now (world s2))), s2)
           /\ isTokenValid (svc s2) = false
           /\ countEv is_attempt (newEvents s s2) = 1%nat
           /\ countEv is_sleep (newEvents s s2) = 0%nat).
Proof.
  assert (Hloop : forall maxRetries remaining attempt s e s1 retryable,
      attemptBody env options attempt s = (Throw e, s1) ->
      isRetryableError e = Ok retryable ->
      isAuthenticationError e = Ok true ->
      exists s2,
        sendLoop env options maxRetries (S remaining) attempt s
        = (Ok (authFailedResponse e (now (world s2))), s2)
        /\ isTokenValid (svc s2) = false
        /\ exists new, log (world s2) = (log (world s) ++ new)%list
                       /\ countEv is_attempt new = 1%nat
                       /\ countEv is_sleep new = 0%nat).
  { intros maxRetries remaining attempt s e s1 retryable Hb Hr Ha.
    destruct (@attemptCatch_auth env maxRetries attempt e retryable s1 Hr Ha)
      as (s2 & Ec & Hv & rest & El & Hq).
    exists s2. split; [|split; [assumption|]].
    - simpl. unfold bind at 1. unfold attemptOnce, try_catch.
      rewrite Hb, Ec. reflexivity.
    - assert (Hrest : countEv is_attempt rest = 0%nat
                      /\ countEv is_sleep rest = 0%nat).
      { split; apply notLoopEvent_countEv; auto;
          intros ev Hev; unfold is_loopEvent; rewrite Hev;
          rewrite ?orb_true_r; reflexivity. }
      destruct Hrest as [Hra Hrs].
      destruct (@attemptBody_throws env options attempt s e s1 Hb) as [_ [E|E]];
        rewrite E in El; rewrite <- app_assoc in El;
        eexists; (split; [exact El|]);
        rewrite !countEv_app; simpl;
        change (Console (LogAttemptFailed attempt) :: rest)
          with ([Console (LogAttemptFailed attempt)] ++ rest)%list;
        rewrite !countEv_app, Hra, Hrs; split; reflexivity. }
  split.
  - intros maxRetries remaining attempt s e s1 retryable Hb Hr Ha.
    destruct (Hloop maxRetries remaining attempt s e s1 retryable Hb Hr Ha)
      as (s2 & E & Hv & new & El & C1 & C2).
    exists s2. rewrite (@newEvents_app s s2 new El). auto 10.
  - intros s s0 e s1 retryable Hg Hb Hr Ha.
    destruct (Hloop 3%nat 2%nat 1%nat s0 e s1 retryable Hb Hr Ha)
      as (s2 & E & Hv & new & El & C1 & C2).
    exists s2. split; [|split; [assumption|]].
    + unfold sendEmail. unfold bind at 1. rewrite Hg. simpl negb. cbv iota.
      exact E.
    + pose proof (validateToken_quiet env s Hg) as [pre [Ep Fp]].
      rewrite (@newEvents_app s s2 (pre ++ new)%list) by
        (rewrite El, Ep; now rewrite <- app_assoc).
      rewrite !countEv_app, C1, C2.
      rewrite !(@notLoopEvent_countEv _ pre Fp); auto;
        intros ev Hev; unfold is_loopEvent; rewrite Hev;
        rewrite ?orb_true_r; reflexivity.
Qed.

Lemma sendEmail_auth_error_short_circuits_witness :
  (exists s2,
      sendLoop envSendAuthTimeout sampleOptions 3 2 2 (startState 1000)
      = (Ok (authFailedResponse errAuthTimeout (now (world s2))), s2)
      /\ isTokenValid (svc s2) = false
      /\ countEv is_attempt (newEvents (startState 1000) s2) = 1%nat
      /\ countEv is_sleep (newEvents (startState 1000) s2) = 0%nat)
  /\ (exists s2,
         sendEmail envSend401 sampleOptions 3 (startState 1000)
         = (Ok (authFailedResponse errUnauthorized (now (world s2))), s2)
         /\ countEv is_attempt (newEvents (startState 1000) s2) = 1%nat).
Proof.
  split.
  - destruct (sendEmail_auth_error_short_circuits envSendAuthTimeout
                sampleOptions) as [H _].
    destruct (H 3%nat 1%nat 2%nat (startState 1000) errAuthTimeout
                (snd (attemptBody envSendAuthTimeout sampleOptions 2
                        (startState 1000))) true)
      as (s2 & E & _ & _ & Hv & C1 & C2).
    + vm_compute. reflexivity.
    + vm_compute. reflexivity.
    + vm_compute. reflexivity.
    + exists s2. auto.
  - destruct (sendEmail_auth_error_short_circuits envSend401 sampleOptions)
      as [_ H].
    destruct (H (startState 1000) (startState 1000) errUnauthorized
                (snd (attemptBody envSend401 sampleOptions 1
                        (startState 1000))) false)
      as (s2 & E & _ & C1 & _).
    + vm_compute. reflexivity.
    + vm_compute. reflexivity.
    + vm_compute. reflexivity.
    + vm_compute. reflexivity.
    + exists s2. auto.
Defined.

(** C1.  The claim fails on the code for an auth-class error that carries
    no message.  The object [{ code: 401 }] is auth-class by its code
    ([isAuthenticationError] says so without reading the message), but the
    [catch] block asks [isRetryableError] first, which reads
    [error.message.includes] unguarded: the [TypeError] leaves
    [sendEmail] as an exception after one provider call.  No failure
    outcome is returned, the Token Guard stays marked valid, and nothing
    is escalated. *)
Theorem sendEmail_auth_error_without_message_raises :
  message errUnauthorizedNoMessage = None
  /\ isAuthenticationError errUnauthorizedNoMessage = Ok true
  /\ isRetryableError errUnauthorizedNoMessage = Throw (TypeError "includes")
  /\ fst (sendEmail envSend401NoMessage sampleOptions 3 (startState 1000))
     = Throw (TypeError "includes")
  /\ isTokenValid
       (svc (snd (sendEmail envSend401NoMessage sampleOptions 3
                    (startState 1000)))) = true
  /\ notificationSent
       (svc (snd (sendEmail envSend401NoMessage sampleOptions 3
                    (startState 1000)))) = false
  /\ countEv is_send
       (newEvents (startState 1000)
          (snd (sendEmail envSend401NoMessage sampleOptions 3
                  (startState 1000)))) = 1%nat
  /\ countEv is_authFailure
       (newEvents (startState 1000)
          (snd (sendEmail envSend401NoMessage sampleOptions 3
                  (startState 1000)))) = 0%nat
  /\ countEv is_notification
       (newEvents (startState 1000)
          (snd (sendEmail envSend401NoMessage sampleOptions 3
                  (startState 1000)))) = 0%nat.
Proof. repeat split; vm_compute; reflexivity. Qed.

(** ** Delivery Engine: transient failures and backoff *)

Section Backoff.

Variable env : Env.
Variable options : GmailEmailOptions.

Lemma attemptsAndWaits_app (a b : list Event) :
  attemptsAndWaits (a ++ b) = (attemptsAndWaits a ++ attemptsAndWaits b)%list.
Proof. unfold attemptsAndWaits. apply filter_app. Qed.

Lemma attemptBody_throws_trace attempt s e s1 :
  attemptBody env options attempt s = (Throw e, s1) ->
  exists calls,
    log (world s1) = (log (world s) ++ calls)%list
    /\ attemptsAndWaits calls = [].
Proof.
  intros H. destruct (@attemptBody_throws env options attempt s e s1 H)
    as [_ [E|E]]; eexists; split; try exact E; reflexivity.
Qed.

(** The loop against an always-transient provider, from any iteration:
    it runs out of attempts, waits [backoffDelay] after every attempt but
    the last, and returns a failure that is not auth-related. *)
Lemma sendLoop_transient maxRetries :
  alwaysTransient env options ->
  forall remaining attempt s,
    (attempt + remaining = maxRetries + 1)%nat ->
    (1 <= remaining)%nat ->
    exists r s' new,
      sendLoop env options maxRetries remaining attempt s = (Ok r, s')
      /\ success r = false
      /\ requiresReAuth r = None
      /\ log (world s') = (log (world s) ++ new)%list
      /\ attemptsAndWaits new = transientTrace remaining attempt.
Proof.
  intros HT. induction remaining as [|remaining IH]; intros attempt s Hsum Hpos.
  - lia.
  - destruct (HT attempt s) as (e & s1 & Hb & Hr & Ha).
    destruct (@attemptBody_throws_trace attempt s e s1 Hb)
      as (calls & Ec & Fc).
    cbn [sendLoop]. unfold bind at 1. unfold attemptOnce, try_catch.
    rewrite Hb. unfold attemptCatch. mrun. rewrite Hr, Ha.
    destruct remaining as [|remaining].
    + (* the last attempt *)
      assert (Hlast : Nat.eqb attempt maxRetries = true)
        by (apply Nat.eqb_eq; lia).
      rewrite Hlast. simpl.
      eexists _, _, _. split; [reflexivity|].
      split; [reflexivity|]. split; [reflexivity|]. split.
      * simpl. rewrite Ec, <- app_assoc. reflexivity.
      * rewrite attemptsAndWaits_app, Fc. reflexivity.
    + assert (Hlast : Nat.eqb attempt maxRetries = false)
        by (apply Nat.eqb_neq; lia).
      rewrite Hlast. cbn [orb negb]. mrun.
      match goal with
      | |- context [sendLoop _ _ _ _ _ ?st] =>
          destruct (IH (S attempt) st) as (r & s' & new & E & Hs & Hq & El & Ft);
          [lia | lia |]
      end.
      exists r, s'. eexists. split; [exact E|].
      split; [assumption|]. split; [assumption|]. split.
      * rewrite El. simpl. rewrite Ec, <- !app_assoc. simpl. reflexivity.
      * rewrite attemptsAndWaits_app, Fc. simpl. rewrite Ft. reflexivity.
Qed.

End Backoff.

(** C4, as amended.  With [maxRetries = 3], in every send invocation
    that the Token Guard lets through ([validateToken] returns [true]), a
    provider whose every attempt fails with a transient-class error is
    tried exactly three times, with a wait of [2^(attempt-1)] seconds
    after each attempt but the last (1 s after the first, 2 s after the
    second), and the outcome is a failure that is not auth-related. *)
Theorem sendEmail_transient_backoff (env : Env) (options : GmailEmailOptions)
  (s s0 : Sys) :
  validateToken env s = (Ok true, s0) ->
  alwaysTransient env options ->
  exists r s',
    sendEmail env options 3 s = (Ok r, s')
    /\ success r = false
    /\ authRelated r = false
    /\ attemptsAndWaits (newEvents s s')
       = [ Console (LogAttemptFailed 1); Sleep 1000;
           Console (LogAttemptFailed 2); Sleep 2000;
           Console (LogAttemptFailed 3) ]
    /\ countEv is_attempt (newEvents s s') = 3%nat
    /\ countEv is_sleep (newEvents s s') = 2%nat.
Proof.
  intros Hg HT.
  destruct (@sendLoop_transient env options 3%nat HT 3%nat 1%nat s0)
    as (r & s' & new & E & Hs & Hq & El & Ft); [lia | lia |].
  exists r, s'.
  assert (Hrun : sendEmail env options 3 s = (Ok r, s')).
  { unfold sendEmail. unfold bind at 1. rewrite Hg. exact E. }
  pose proof (validateToken_quiet env s Hg) as [pre [Ep Fp]].
  assert (Hpre : attemptsAndWaits pre = []).
  { unfold attemptsAndWaits.
    apply (@forallb_filter_none _ notLoopEvent _ pre Fp).
    intros ev Hev. unfold notLoopEvent, is_loopEvent in Hev.
    destruct (is_attempt ev), (is_sleep ev); simpl in *; congruence. }
  assert (Hnew : newEvents s s' = (pre ++ new)%list).
  { apply newEvents_app. rewrite El, Ep. now rewrite <- app_assoc. }
  assert (Htrace : attemptsAndWaits (newEvents s s')
       = [ Console (LogAttemptFailed 1); Sleep 1000;
           Console (LogAttemptFailed 2); Sleep 2000;
           Console (LogAttemptFailed 3) ]).
  { rewrite Hnew, attemptsAndWaits_app, Hpre, Ft. reflexivity. }
  split; [assumption|]. split; [assumption|].
  split; [unfold authRelated; now rewrite Hq|].
  split; [assumption|].
  assert (Hcount : forall q l,
             (forall ev, q ev = true -> (is_attempt ev || is_sleep ev)%bool = true) ->
             countEv q l = countEv q (attemptsAndWaits l)).
  { intros q l Hq'. unfold countEv, attemptsAndWaits.
    induction l as [|ev l IHl]; simpl; auto.
    destruct (q ev) eqn:Q.
    - rewrite (Hq' ev Q). simpl. rewrite Q. simpl. now f_equal.
    - destruct (is_attempt ev || is_sleep ev)%bool; simpl; auto.
      rewrite Q. auto. }
  split.
  - rewrite (Hcount is_attempt), Htrace; [reflexivity|].
    intros ev Hev. now rewrite Hev.
  - rewrite (Hcount is_sleep), Htrace; [reflexivity|].
    intros ev Hev. rewrite Hev. apply orb_true_r.
Qed.

Lemma sendEmail_transient_backoff_witness :
  exists r s',
    sendEmail envSend503 sampleOptions 3 (startState 1000) = (Ok r, s')
    /\ success r = false
    /\ authRelated r = false
    /\ attemptsAndWaits (newEvents (startState 1000) s')
       = [ Console (LogAttemptFailed 1); Sleep 1000;
           Console (LogAttemptFailed 2); Sleep 2000;
           Console (LogAttemptFailed 3) ]
    /\ countEv is_attempt (newEvents (startState 1000) s') = 3%nat
    /\ countEv is_sleep (newEvents (startState 1000) s') = 2%nat.
Proof.
  apply (@sendEmail_transient_backoff envSend503 sampleOptions
           (startState 1000) (startState 1000)).
  - vm_compute. reflexivity.
  - intros attempt st. exists err503. eexists.
    split; [reflexivity|]. split; vm_compute; reflexivity.
Defined.

(** The original wording of C4 fails when the Token Guard itself meets
    the outage: with a liveness check older than five minutes the probe
    fails with the same transient error, [validateToken] returns [false],
    and the invocation makes no attempt and returns the auth-related
    AUTH_REQUIRED failure. *)
Lemma sendEmail_outage_with_stale_cache_no_attempt :
  alwaysTransient envOutage sampleOptions
  /\ fst (sendEmail envOutage sampleOptions 3 (staleState 1000))
     = Ok (authRequiredResponse 1020)
  /\ authRelated (authRequiredResponse 1020) = true
  /\ countEv is_attempt
       (newEvents (staleState 1000)
          (snd (sendEmail envOutage sampleOptions 3 (staleState 1000))))
     = 0%nat.
Proof.
  split.
  - intros attempt st. exists err503. eexists.
    split; [reflexivity|]. split; vm_compute; reflexivity.
  - repeat split; vm_compute; reflexivity.
Qed.

(** ** Re-authorization flow: the wrong-account rejection *)

Lemma storeUntouched_refl s : storeUntouched s s.
Proof. split; [reflexivity | apply grows_refl]. Qed.

Lemma storeUntouched_trans a b c :
  storeUntouched a b -> storeUntouched b c -> storeUntouched a c.
Proof.
  intros [E1 G1] [E2 G2]. split; [congruence | eapply grows_trans; eauto].
Qed.

#[export] Instance storeUntouched_PreOrder : PreOrder storeUntouched.
Proof.
  split; [intros s; apply storeUntouched_refl
         | intros a b c; apply storeUntouched_trans].
Qed.

Ltac store_prim :=
  intros; split; [reflexivity | apply grows_logEvent; reflexivity].

Lemma storeUntouched_countEv s s' :
  storeUntouched s s' -> countEv is_writeTokenFile (newEvents s s') = 0%nat.
Proof.
  intros [_ G]. apply (grows_countEv_zero _ G).
  intros ev Hev. now apply negb_true_iff in Hev.
Qed.

Section Reauthorization.

Variable env : Env.

Lemma getTokens_store authorizationCode :
  keeps storeUntouched (getTokens env authorizationCode).
Proof. unfold getTokens, emit. keeps_struct store_prim. Qed.

Lemma validateTokens_store tokens :
  keeps storeUntouched (validateTokens env tokens).
Proof. unfold validateTokens, emit. keeps_struct store_prim. Qed.

(** The identity [validateTokens] returns is the one the identity endpoint
    answered with. *)
Lemma validateTokens_answer tokens s1 userInfo s2 :
  validateTokens env tokens s1 = (Ok userInfo, s2) ->
  answer (env_userinfo env (world s1)) = Ok userInfo.
Proof.
  unfold validateTokens. mrun.
  destruct (answer (env_userinfo env (world s1))); intros H; inversion H.
  reflexivity.
Qed.

Lemma differs_false mail :
  differs mail requiredEmail = false -> mail = Some requiredEmail.
Proof.
  destruct mail as [m|]; simpl; [|discriminate].
  intros H. apply negb_false_iff, String.eqb_eq in H. now subst.
Qed.

(** In every run of the callback, either the Credential Store is neither
    invoked nor changed, or the identity endpoint answered with the
    allow-listed address. *)
Lemma callback_store_guard queryCode queryError s r s' :
  callback env queryCode queryError s = (r, s') ->
  storeUntouched s s'
  \/ exists w userInfo,
       answer (env_userinfo env w) = Ok userInfo
       /\ email userInfo = Some requiredEmail.
Proof.
  unfold callback.
  destruct (negb (falsy queryError)).
  { intros H. inversion H; subst. left. apply storeUntouched_refl. }
  destruct queryCode as [[|c authorizationCode]|];
    try (intros H; inversion H; subst; left; apply storeUntouched_refl).
  set (code := String c authorizationCode).
  unfold try_catch. unfold bind at 1.
  destruct (getTokens env code s) as [[tokens|e] s1] eqn:E1.
  - unfold bind at 1.
    destruct (validateTokens env tokens s1) as [[userInfo|e] s2] eqn:E2.
    + destruct (differs (email userInfo) requiredEmail) eqn:D.
      * mrun. intros H. inversion H; subst. left.
        eapply storeUntouched_trans; [eapply getTokens_store; eauto|].
        eapply storeUntouched_trans; [eapply validateTokens_store; eauto|].
        store_prim.
      * intros _. right. exists (world s1), userInfo. split.
        -- eapply validateTokens_answer; eauto.
        -- now apply differs_false.
    + mrun. intros H. inversion H; subst. left.
      eapply storeUntouched_trans; [eapply getTokens_store; eauto|].
      eapply storeUntouched_trans; [eapply validateTokens_store; eauto|].
      store_prim.
  - mrun. intros H. inversion H; subst. left.
    eapply storeUntouched_trans; [eapply getTokens_store; eauto|].
    store_prim.
Qed.

End Reauthorization.

(** C6.  A callback run in which the authorized account's address differs
    from the allow-listed one ends in the wrong-account page; the
    Credential Store is not invoked (no [saveRefreshToken] write is logged)
    and the persisted record is unchanged. *)
Theorem callback_wrong_account_rejected (env : Env)
  (authorizationCode : string) (queryError : option string)
  (s s1 s2 : Sys) (tokens : Credentials) (userInfo : UserInfo) :
  falsy queryError = true ->
  falsy (Some authorizationCode) = false ->
  getTokens env authorizationCode s = (Ok tokens, s1) ->
  validateTokens env tokens s1 = (Ok userInfo, s2) ->
  differs (email userInfo) requiredEmail = true ->
  exists s',
    callback env (Some authorizationCode) queryError s
    = (Ok (WrongAccountPage (email userInfo) requiredEmail), s')
    /\ tokenFile s' = tokenFile s
    /\ countEv is_writeTokenFile (newEvents s s') = 0%nat.
Proof.
  intros Hq Hc E1 E2 D.
  assert (Hrun : callback env (Some authorizationCode) queryError s
                 = (Ok (WrongAccountPage (email userInfo) requiredEmail),
                    logEvent 0 (Console (LogOther "Wrong account tried to authorize")) s2)).
  { destruct authorizationCode as [|c rest]; [discriminate|].
    unfold callback. rewrite Hq. cbn [negb]. cbv iota.
    unfold try_catch. unfold bind at 1. rewrite E1.
    unfold bind at 1. rewrite E2. rewrite D. reflexivity. }
  eexists. split; [exact Hrun|].
  assert (U : storeUntouched s
      (logEvent 0 (Console (LogOther "Wrong account tried to authorize")) s2)).
  { eapply storeUntouched_trans; [eapply getTokens_store; eauto|].
    eapply storeUntouched_trans; [eapply validateTokens_store; eauto|].
    store_prim. }
  split; [apply U | now apply storeUntouched_countEv].
Qed.

Lemma callback_wrong_account_rejected_witness :
  exists s',
    callback envIntruder (Some "4/0AbCd") None (startState 0)
    = (Ok (WrongAccountPage (Some "someone.else@gmail.com") requiredEmail), s')
    /\ tokenFile s' = None
    /\ countEv is_writeTokenFile (newEvents (startState 0) s') = 0%nat.
Proof.
  apply (@callback_wrong_account_rejected envIntruder "4/0AbCd" None
           (startState 0)
           (snd (getTokens envIntruder "4/0AbCd" (startState 0)))
           (snd (validateTokens envIntruder
                   (mkCredentials (Some "ya29.token") (Some "1//refresh"))
                   (snd (getTokens envIntruder "4/0AbCd" (startState 0)))))
           (mkCredentials (Some "ya29.token") (Some "1//refresh"))
           (mkUserInfo (Some "someone.else@gmail.com") (Some true) None));
    vm_compute; reflexivity.
Defined.

(** ** Escalation: one notification per failure episode *)

Lemma accounting_refl s : accounting s s.
Proof.
  exists []. split; [now rewrite app_nil_r|]. simpl.
  rewrite orb_false_r. split; [reflexivity|].
  now destruct (notificationSent (svc s)).
Qed.

Lemma accounting_trans a b c :
  accounting a b -> accounting b c -> accounting a c.
Proof.
  intros (n1 & E1 & F1 & N1) (n2 & E2 & F2 & N2).
  exists (n1 ++ n2)%list. split; [rewrite E2, E1; now rewrite app_assoc|].
  rewrite !countEv_app. rewrite F2, N1, N2, F1.
  destruct (notificationSent (svc a));
    destruct (Nat.ltb_spec 0 (countEv is_authFailure n1));
    destruct (Nat.ltb_spec 0 (countEv is_authFailure n2));
    destruct (Nat.ltb_spec 0 (countEv is_authFailure n1
                              + countEv is_authFailure n2));
    simpl; split; try reflexivity; lia.
Qed.

#[export] Instance accounting_PreOrder : PreOrder accounting.
Proof.
  split; [intros s; apply accounting_refl
         | intros a b c; apply accounting_trans].
Qed.

Lemma accounting_logEvent dt ev s :
  unmarked ev = true -> accounting s (logEvent dt ev s).
Proof.
  intros H. exists [ev]. split; [reflexivity|].
  unfold unmarked in H. apply negb_true_iff, orb_false_iff in H.
  destruct H as [Ha Hn]. unfold countEv. simpl. rewrite Ha, Hn. simpl.
  rewrite orb_false_r. split; [reflexivity|].
  now destruct (notificationSent (svc s)).
Qed.

Lemma accounting_same_flag s s' :
  log (world s') = log (world s) ->
  notificationSent (svc s') = notificationSent (svc s) ->
  accounting s s'.
Proof.
  intros El Ef. exists []. rewrite app_nil_r. split; [assumption|].
  simpl. rewrite orb_false_r. split; [assumption|].
  now destruct (notificationSent (svc s)).
Qed.

Ltac accounting_prim :=
  first [ intros; apply accounting_logEvent; reflexivity
        | intros; apply accounting_same_flag; reflexivity ].

(** What an episode amounts to: from a lowered flag, any run that keeps
    the books and sees at least one auth-class failure fires exactly one
    notification and leaves the flag raised. *)
Lemma accounting_episode s s' :
  accounting s s' ->
  notificationSent (svc s) = false ->
  (1 <= countEv is_authFailure (newEvents s s'))%nat ->
  countEv is_notification (newEvents s s') = 1%nat
  /\ notificationSent (svc s') = true.
Proof.
  intros (new & E & F & N) Hf Hn.
  rewrite (@newEvents_app s s' new E) in *.
  rewrite Hf in *. simpl in F.
  destruct (Nat.ltb_spec 0 (countEv is_authFailure new)); [auto | lia].
Qed.

Section Escalation.

Variable env : Env.

Lemma handleAuthError_accounting : keeps accounting (handleAuthError env).
Proof.
  intros s r s'. unfold handleAuthError, notifyAuthError. mrun.
  cbn [svc logEvent with_world notificationSent].
  destruct (notificationSent (svc s)) eqn:Hf; cbn [negb].
  - intros H. inversion H; subst; clear H.
    exists [Console LogAuthFailed]. simpl. rewrite Hf.
    repeat split; reflexivity.
  - destruct (env_botConfigured env);
      [ destruct (answer (env_telegram env AuthErrorNotice _)) | ];
      destruct (env_hasReAuthCallback env);
      intros H; inversion H; subst; clear H;
      (eexists; split;
       [ simpl; rewrite <- ?app_assoc; simpl; reflexivity
       | simpl; rewrite Hf; split; reflexivity ]).
Qed.

Lemma validateToken_accounting : keeps accounting (validateToken env).
Proof.
  pose proof handleAuthError_accounting.
  unfold validateToken, emit, dateNow, set_isTokenValid, set_lastTokenCheck.
  keeps_struct accounting_prim.
Qed.

Lemma attemptCatch_accounting maxRetries attempt e :
  keeps accounting (attemptCatch env maxRetries attempt e).
Proof.
  pose proof handleAuthError_accounting.
  unfold attemptCatch, emit, sleep, dateNow, set_isTokenValid.
  keeps_struct accounting_prim.
Qed.

Lemma attemptOnce_verdict options maxRetries attempt s r s' :
  attemptOnce env options maxRetries attempt s = (r, s') ->
  match r with
  | Ok (Some resp) => sendVerdict s (Ok resp) s'
  | _ => accounting s s'
  end.
Proof.
  unfold attemptOnce, try_catch.
  destruct (attemptBody env options attempt s) as [[x|e] s1] eqn:Eb.
  - intros H. inversion H; subst; clear H.
    unfold attemptBody in Eb. mrun.
    destruct (answer (env_getAccessToken env (world s))); [|discriminate].
    destruct (answer (env_messagesSend env options _)); [|discriminate].
    inversion Eb; subst; clear Eb. left. split; reflexivity.
  - intros H.
    assert (A1 : accounting s s1).
    { unfold attemptBody in Eb. mrun.
      destruct (answer (env_getAccessToken env (world s))).
      - destruct (answer (env_messagesSend env options _));
          inversion Eb; subst.
        eapply accounting_trans; [|accounting_prim]; accounting_prim.
      - inversion Eb; subst. accounting_prim. }
    pose proof (@attemptCatch_accounting maxRetries attempt e _ _ _ H) as A2.
    pose proof (accounting_trans A1 A2) as A.
    destruct r as [[resp|]|e']; auto.
    unfold sendVerdict.
    destruct (success resp) eqn:Es; [|right; auto].
    exfalso. revert H Es. unfold attemptCatch. mrun.
    destruct (isRetryableError e) as [b1|]; [|discriminate].
    destruct (isAuthenticationError e) as [[|]|]; [| |discriminate].
    + destruct (handleAuthError env _) as [[[]|] ?];
        intros H; inversion H; subst; discriminate.
    + destruct (Nat.eqb attempt maxRetries || negb b1)%bool;
        intros H; inversion H; subst; discriminate.
Qed.

Lemma sendLoop_verdict options maxRetries remaining :
  forall attempt s r s',
    sendLoop env options maxRetries remaining attempt s = (r, s') ->
    sendVerdict s r s'.
Proof.
  induction remaining as [|remaining IH]; intros attempt s r s'.
  - simpl. mrun. intros H. inversion H; subst. right.
    split; [reflexivity | apply accounting_refl].
  - cbn [sendLoop]. unfold bind at 1.
    destruct (attemptOnce env options maxRetries attempt s)
      as [[[resp|]|e] s1] eqn:E1;
      pose proof (attemptOnce_verdict _ _ _ _ E1) as V1; cbv iota in V1.
    + intros H. inversion H; subst. exact V1.
    + intros H. apply IH in H.
      destruct r as [resp|e]; unfold sendVerdict in *.
      * destruct H as [H|[Hs A]]; [left; exact H|].
        right. split; [assumption | eapply accounting_trans; eauto].
      * eapply accounting_trans; eauto.
    + intros H. inversion H; subst. exact V1.
Qed.

Lemma sendEmail_verdict options maxRetries s r s' :
  sendEmail env options maxRetries s = (r, s') -> sendVerdict s r s'.
Proof.
  unfold sendEmail. unfold bind at 1.
  destruct (validateToken env s) as [[[|]|e] s0] eqn:Eg;
    pose proof (validateToken_accounting _ Eg) as A0; simpl.
  - intros H. apply sendLoop_verdict in H.
    destruct r as [resp|e]; unfold sendVerdict in *.
    + destruct H as [H|[Hs A]]; [left; exact H|].
      right. split; [assumption | eapply accounting_trans; eauto].
    + eapply accounting_trans; eauto.
  - mrun. intros H. inversion H; subst. right. split; [reflexivity|assumption].
  - intros H. inversion H; subst. exact A0.
Qed.

(** [refreshToken] lowers the flag when it returns [true] and keeps the
    books otherwise. *)
Lemma refreshToken_verdict s r s' :
  refreshToken env s = (r, s') ->
  (r = Ok true /\ notificationSent (svc s') = false)
  \/ (r <> Ok true /\ accounting s s').
Proof.
  unfold refreshToken, try_catch.
  match goal with
  | |- (match ?body s with _ => _ end) = _ -> _ =>
      destruct (body s) as [[b|e] s1] eqn:Eb
  end.
  - intros H. inversion H; subst; clear H.
    revert Eb. unfold bind at 1. unfold emit, modify.
    unfold bind at 1. unfold call.
    destruct (answer (env_refreshAccessToken env _)); [|discriminate].
    unfold bind at 1.
    match goal with
    | |- context [validateToken env ?st] =>
        destruct (validateToken env st) as [[[|]|e] s2] eqn:Eg;
        pose proof (validateToken_accounting _ Eg) as A0
    end.
    + mrun. intros H. inversion H; subst. left. split; reflexivity.
    + mrun. intros H. inversion H; subst. right.
      split; [discriminate|].
      eapply accounting_trans; [|exact A0].
      eapply accounting_trans; [|accounting_prim]; accounting_prim.
    + discriminate.
  - intros H. right.
    assert (A1 : accounting s s1).
    { revert Eb. unfold bind at 1. unfold emit, modify.
      unfold bind at 1. unfold call.
      destruct (answer (env_refreshAccessToken env _)).
      - unfold bind at 1.
        match goal with
        | |- context [validateToken env ?st] =>
            destruct (validateToken env st) as [[[|]|e'] s2] eqn:Eg;
            pose proof (validateToken_accounting _ Eg) as A0
        end.
        + mrun. discriminate.
        + mrun. discriminate.
        + intros H'. inversion H'; subst.
          eapply accounting_trans; [|exact A0].
          eapply accounting_trans; [|accounting_prim]; accounting_prim.
      - intros H'. inversion H'; subst.
        eapply accounting_trans; [|accounting_prim]; accounting_prim. }
    assert (A2 : accounting s1 s').
    { pose proof handleAuthError_accounting.
      revert H. generalize s1 r s'. fold (keeps accounting
        (emit (Console LogRefreshFailed) ;;
         isAuth <- eval (isAuthenticationError e) ;;
         (if isAuth then handleAuthError env else ret tt) ;;
         ret false)).
      unfold emit. keeps_struct accounting_prim. }
    split; [|eapply accounting_trans; eauto].
    revert H. mrun.
    destruct (isAuthenticationError e) as [[|]|].
    + destruct (handleAuthError env _) as [[[]|] ?];
        intros H; inversion H; discriminate.
    + intros H; inversion H; discriminate.
    + intros H; inversion H; discriminate.
Qed.

Lemma runOp_verdict op s o s' :
  runOp env op s = (o, s') ->
  (recovered op o = true /\ notificationSent (svc s') = false)
  \/ (recovered op o = false /\ accounting s s').
Proof.
  destruct op as [options maxRetries| | |ms]; simpl.
  - destruct (sendEmail env options maxRetries s) as [r s1] eqn:E.
    intros H. inversion H; subst; clear H.
    apply sendEmail_verdict in E. destruct r as [resp|e]; simpl in *.
    + destruct E as [[Hs Hf]|[Hs A]]; rewrite Hs; auto.
    + auto.
  - destruct (validateToken env s) as [r s1] eqn:E.
    intros H. inversion H; subst; clear H.
    right. split; [reflexivity | eapply validateToken_accounting; eauto].
  - destruct (refreshToken env s) as [r s1] eqn:E.
    intros H. inversion H; subst; clear H.
    apply refreshToken_verdict in E.
    destruct E as [[-> Hf]|[Hr A]]; [left; auto|].
    right. split; [|assumption].
    destruct r as [[|]|]; simpl; congruence.
  - intros H. inversion H; subst. right.
    split; [reflexivity | apply accounting_same_flag; reflexivity].
Qed.

Lemma runOps_accounting ops :
  forall s os s',
    runOps env ops s = (os, s') ->
    anyRecovered ops os = false ->
    accounting s s'.
Proof.
  induction ops as [|op ops IH]; intros s os s'; simpl.
  - intros H _. inversion H; subst. apply accounting_refl.
  - destruct (runOp env op s) as [o s1] eqn:E1.
    destruct (runOps env ops s1) as [os1 s2] eqn:E2.
    intros H. inversion H; subst; clear H. simpl.
    intros Hr. apply orb_false_iff in Hr. destruct Hr as [Hr1 Hr2].
    apply runOp_verdict in E1. destruct E1 as [[Hc _]|[_ A]]; [congruence|].
    eapply accounting_trans; [exact A | eapply IH; eauto].
Qed.

End Escalation.

(** Episodes that start with the flag lowered.  Over any sequence of
    [sendEmail], [validateToken] and [refreshToken] calls (and idle time)
    that starts with the flag lowered and contains no recovery, N >= 1
    handled auth-class failures fire the escalation notification exactly
    once.  A recovery, that is a send that
    succeeds or a [refreshToken] that returns [true], lowers the flag, so
    that in what follows the next auth-class failures again fire exactly
    one notification. *)
Theorem single_notification_per_episode (env : Env) :
  (forall ops s os s',
      notificationSent (svc s) = false ->
      runOps env ops s = (os, s') ->
      anyRecovered ops os = false ->
      (1 <= countEv is_authFailure (newEvents s s'))%nat ->
      countEv is_notification (newEvents s s') = 1%nat)
  /\ (forall op s o s',
         runOp env op s = (o, s') ->
         recovered op o = true ->
         notificationSent (svc s') = false)
  /\ (forall op s o s1 ops os s2,
         runOp env op s = (o, s1) ->
         recovered op o = true ->
         runOps env ops s1 = (os, s2) ->
         anyRecovered ops os = false ->
         (1 <= countEv is_authFailure (newEvents s1 s2))%nat ->
         countEv is_notification (newEvents s1 s2) = 1%nat).
Proof.
  assert (Hepisode : forall ops s os s',
      notificationSent (svc s) = false ->
      runOps env ops s = (os, s') ->
      anyRecovered ops os = false ->
      (1 <= countEv is_authFailure (newEvents s s'))%nat ->
      countEv is_notification (newEvents s s') = 1%nat).
  { intros ops s os s' Hf Hrun Hno Hn.
    apply accounting_episode; auto.
    eapply runOps_accounting; eauto. }
  assert (Hclear : forall op s o s',
         runOp env op s = (o, s') ->
         recovered op o = true ->
         notificationSent (svc s') = false).
  { intros op s o s' Hrun Hrec.
    destruct (runOp_verdict env op s Hrun) as [[_ Hf]|[Hc _]]; congruence. }
  split; [exact Hepisode|]. split; [exact Hclear|].
  intros op s o s1 ops os s2 Hrun Hrec Hrun2 Hno Hn.
  eapply Hepisode; eauto.
Qed.

Lemma single_notification_per_episode_witness :
  countEv is_authFailure
    (newEvents (startState 1000)
       (snd (runOps envRevoked
               [OpSendEmail sampleOptions 3; OpSendEmail sampleOptions 3;
                OpRefreshToken; OpValidateToken] (startState 1000)))) = 4%nat
  /\ countEv is_notification
       (newEvents (startState 1000)
          (snd (runOps envRevoked
                  [OpSendEmail sampleOptions 3; OpSendEmail sampleOptions 3;
                   OpRefreshToken; OpValidateToken] (startState 1000)))) = 1%nat
  /\ notificationSent
       (svc (snd (runOp envFirstSendOnly (OpSendEmail sampleOptions 3)
                    (midEpisodeState 1000)))) = false
  /\ countEv is_notification
       (newEvents
          (snd (runOp envFirstSendOnly (OpSendEmail sampleOptions 3)
                  (midEpisodeState 1000)))
          (snd (runOps envFirstSendOnly
                  [OpSendEmail sampleOptions 3; OpSendEmail sampleOptions 3]
                  (snd (runOp envFirstSendOnly (OpSendEmail sampleOptions 3)
                          (midEpisodeState 1000)))))) = 1%nat.
Proof.
  split; [vm_compute; reflexivity|].
  split; [|split].
  - destruct (single_notification_per_episode envRevoked) as [H _].
    apply (H [OpSendEmail sampleOptions 3; OpSendEmail sampleOptions 3;
              OpRefreshToken; OpValidateToken]
             (startState 1000)
             (fst (runOps envRevoked
                     [OpSendEmail sampleOptions 3; OpSendEmail sampleOptions 3;
                      OpRefreshToken; OpValidateToken] (startState 1000)))).
    + reflexivity.
    + vm_compute. reflexivity.
    + vm_compute. reflexivity.
    + vm_compute. lia.
  - destruct (single_notification_per_episode envFirstSendOnly) as [_ [H _]].
    apply (H (OpSendEmail sampleOptions 3) (midEpisodeState 1000)
             (fst (runOp envFirstSendOnly (OpSendEmail sampleOptions 3)
                     (midEpisodeState 1000)))).
    + vm_compute. reflexivity.
    + vm_compute. reflexivity.
  - destruct (single_notification_per_episode envFirstSendOnly) as [_ [_ H]].
    apply (H (OpSendEmail sampleOptions 3) (midEpisodeState 1000)
             (fst (runOp envFirstSendOnly (OpSendEmail sampleOptions 3)
                     (midEpisodeState 1000)))
             (snd (runOp envFirstSendOnly (OpSendEmail sampleOptions 3)
                     (midEpisodeState 1000)))
             [OpSendEmail sampleOptions 3; OpSendEmail sampleOptions 3]
             (fst (runOps envFirstSendOnly
                  [OpSendEmail sampleOptions 3; OpSendEmail sampleOptions 3]
                  (snd (runOp envFirstSendOnly (OpSendEmail sampleOptions 3)
                          (midEpisodeState 1000)))))).
    + vm_compute. reflexivity.
    + vm_compute. reflexivity.
    + vm_compute. reflexivity.
    + vm_compute. reflexivity.
    + vm_compute. lia.
Defined.


(** ** What [GmailService] leaves alone *)

(** Any preorder that tolerates the events the service logs and changes
    to the service's own fields relates the states around each of its
    methods. *)
Section GmailFrame.

Context (R : Sys -> Sys -> Prop) `{HR : !PreOrder R}.
Hypothesis R_log : forall dt ev s, gmailEvent ev = true -> R s (logEvent dt ev s).
Hypothesis R_svc : forall f s, R s (with_svc f s).

Variable env : Env.

Ltac frame_prim :=
  first [ intros; apply R_log; reflexivity | intros; apply R_svc ].

Lemma handleAuthError_frame : keeps R (handleAuthError env).
Proof.
  unfold handleAuthError, notifyAuthError, emit, set_notificationSent.
  keeps_struct frame_prim.
Qed.

Lemma validateToken_frame : keeps R (validateToken env).
Proof.
  pose proof handleAuthError_frame.
  unfold validateToken, emit, dateNow, set_isTokenValid, set_lastTokenCheck.
  keeps_struct frame_prim.
Qed.

Lemma attemptOnce_frame options maxRetries attempt :
  keeps R (attemptOnce env options maxRetries attempt).
Proof.
  pose proof handleAuthError_frame.
  unfold attemptOnce, attemptBody, attemptCatch, emit, sleep, dateNow,
    set_isTokenValid, set_notificationSent.
  keeps_struct frame_prim.
Qed.

Lemma sendLoop_frame options maxRetries remaining :
  forall attempt, keeps R (sendLoop env options maxRetries remaining attempt).
Proof.
  induction remaining as [|remaining IH]; intros attempt; cbn [sendLoop].
  - unfold dateNow. keeps_struct frame_prim.
  - apply keeps_bind; [typeclasses eauto | apply attemptOnce_frame |].
    intros [resp|]; [apply keeps_ret; typeclasses eauto | apply IH].
Qed.

Lemma sendEmail_frame options maxRetries :
  keeps R (sendEmail env options maxRetries).
Proof.
  unfold sendEmail.
  apply keeps_bind; [typeclasses eauto | apply validateToken_frame |].
  intros [|]; simpl.
  - apply sendLoop_frame.
  - unfold dateNow. keeps_struct frame_prim.
Qed.

Lemma sendConfirmationEmail_frame userEmail userName requestMessage language :
  keeps R (sendConfirmationEmail env userEmail userName requestMessage language).
Proof.
  unfold sendConfirmationEmail.
  apply keeps_bind; [typeclasses eauto | |intros; apply sendEmail_frame].
  apply keeps_call. frame_prim.
Qed.

Lemma sendSupportResponse_frame userEmail userName original reply replyTo :
  keeps R (sendSupportResponse env userEmail userName original reply replyTo).
Proof. unfold sendSupportResponse. apply sendEmail_frame. Qed.

Lemma resend_frame fe : keeps R (resend (gmailService env) fe).
Proof.
  unfold resend. destruct (fe_type fe); simpl.
  - apply sendConfirmationEmail_frame.
  - apply sendSupportResponse_frame.
Qed.

End GmailFrame.

Lemma resend_queue env fe :
  keeps (preserves queueOf) (resend (gmailService env) fe).
Proof. apply resend_frame; [typeclasses eauto | reflexivity | reflexivity]. Qed.

Lemma resend_grows env fe :
  keeps (grows gmailEvent) (resend (gmailService env) fe).
Proof.
  apply resend_frame; [typeclasses eauto | |].
  - intros. now apply grows_logEvent.
  - intros. apply grows_with_svc.
Qed.

(** ** Fallback Queue: the drain *)

Lemma filter_filter A (p q : A -> bool) (l : list A) :
  filter p (filter q l) = filter (fun x => (q x && p x)%bool) l.
Proof.
  induction l as [|x l IH]; simpl; auto.
  destruct (q x); simpl; [destruct (p x)|]; now rewrite IH.
Qed.

Lemma filter_all A (p : A -> bool) (l : list A) :
  (forall x, In x l -> p x = true) -> filter p l = l.
Proof.
  induction l as [|x l IH]; simpl; intros H; auto.
  rewrite (H x (or_introl eq_refl)). f_equal. apply IH. auto.
Qed.

Lemma counters_eq (a a' b b' : nat) (s : Sys) :
  a = a' -> b = b' -> (Ok (a, b), s) = (Ok (a', b'), s).
Proof. intros -> ->. reflexivity. Qed.

Lemma removeEntry_outside pre fe rest :
  ~ In (ref fe) (map ref pre) -> ~ In (ref fe) (map ref rest) ->
  removeEntry fe (pre ++ fe :: rest) = (pre ++ rest)%list.
Proof.
  intros Hp Hr. unfold removeEntry. rewrite filter_app. cbn [filter].
  rewrite Nat.eqb_refl. cbn [negb]. f_equal.
  - apply filter_all. intros x Hx. apply negb_true_iff, Nat.eqb_neq.
    intros E. apply Hp. rewrite <- E. now apply in_map.
  - apply filter_all. intros x Hx. apply negb_true_iff, Nat.eqb_neq.
    intros E. apply Hr. rewrite <- E. now apply in_map.
Qed.

(** On the snapshot itself (distinct objects) the removals leave the
    entries whose resend failed. *)
Lemma dropSent_snapshot rest :
  forall outcomes pre,
    distinctRefs (pre ++ rest) ->
    length outcomes = length rest ->
    dropSent rest outcomes (pre ++ rest)
    = (pre ++ keepFailed outcomes rest)%list.
Proof.
  induction rest as [|fe rest IH]; intros outcomes pre ND Hl.
  - destruct outcomes; [|discriminate]. reflexivity.
  - destruct outcomes as [|sent outcomes]; [discriminate|].
    cbn [dropSent keepFailed]. injection Hl as Hl.
    unfold distinctRefs in ND. rewrite map_app in ND. cbn [map] in ND.
    pose proof (NoDup_remove_1 _ _ _ ND) as ND1.
    pose proof (NoDup_remove_2 _ _ _ ND) as ND2.
    destruct sent.
    + rewrite removeEntry_outside.
      * apply IH; [|assumption]. unfold distinctRefs. now rewrite map_app.
      * intros H. apply ND2. apply in_or_app. now left.
      * intros H. apply ND2. apply in_or_app. now right.
    + change (pre ++ fe :: rest)%list with (pre ++ [fe] ++ rest)%list.
      rewrite app_assoc. rewrite IH; [now rewrite <- app_assoc| |assumption].
      unfold distinctRefs. rewrite <- app_assoc, map_app. exact ND.
Qed.

Lemma resendOutcomes_length gm snapshot :
  forall s, length (resendOutcomes gm snapshot s) = length snapshot.
Proof.
  induction snapshot as [|fe rest IH]; intros s; simpl; [reflexivity|].
  now rewrite IH.
Qed.

Lemma keepFailed_all_sent outcomes :
  forall q, forallb (fun sent => sent) outcomes = true ->
            keepFailed outcomes q = [].
Proof.
  induction outcomes as [|sent outcomes IH]; intros q H; [reflexivity|].
  simpl in H. apply andb_true_iff in H. destruct H as [-> H].
  destruct q; simpl; auto.
Qed.

Lemma all_sent_counts outcomes :
  forallb (fun sent => sent) outcomes = true ->
  sentOf outcomes = length outcomes /\ failedOf outcomes = 0%nat.
Proof.
  unfold sentOf, failedOf.
  induction outcomes as [|sent outcomes IH]; intros H; [auto|].
  simpl in H. apply andb_true_iff in H. destruct H as [-> H].
  destruct (IH H) as [A B]. simpl. now rewrite A, B.
Qed.

Lemma afterIteration_sent gm fe s resp s1 :
  resend gm fe s = (Ok resp, s1) -> success resp = true ->
  afterIteration gm fe s
  = logEvent 1000 (Sleep 1000)
      (logEvent 0 (Console (LogOther "Successfully retried email"))
         (with_failedEmails (removeEntry fe) s1)).
Proof.
  intros Er Es. unfold afterIteration. cbn [retryLoop]. mrun.
  rewrite Er, Es. reflexivity.
Qed.

Lemma afterIteration_failed gm fe s resp s1 :
  resend gm fe s = (Ok resp, s1) -> success resp = false ->
  afterIteration gm fe s
  = logEvent 1000 (Sleep 1000)
      (logEvent 0 (Console (LogOther "Retry failed for email")) s1).
Proof.
  intros Er Es. unfold afterIteration. cbn [retryLoop]. mrun.
  rewrite Er, Es. reflexivity.
Qed.

Lemma afterIteration_thrown gm fe s e s1 :
  resend gm fe s = (Throw e, s1) ->
  afterIteration gm fe s
  = logEvent 1000 (Sleep 1000)
      (logEvent 0 (Console (LogOther "Error retrying email")) s1).
Proof.
  intros Er. unfold afterIteration. cbn [retryLoop]. mrun.
  rewrite Er. reflexivity.
Qed.

Section DrainOutcomes.

Variable env : Env.

(** The loop over a snapshot, whatever the resends do: the counters count
    the outcomes, and the live list loses the entries whose resend
    succeeded. *)
Lemma retryLoop_outcomes snapshot :
  forall results s,
    exists s',
      retryLoop (gmailService env) snapshot results s
      = (Ok ((fst results
              + sentOf (resendOutcomes (gmailService env) snapshot s))%nat,
             (snd results
              + failedOf (resendOutcomes (gmailService env) snapshot s))%nat),
         s')
      /\ failedEmails s'
         = dropSent snapshot (resendOutcomes (gmailService env) snapshot s)
             (failedEmails s)
      /\ grows gmailEvent s s'.
Proof.
  induction snapshot as [|fe rest IH]; intros results s.
  - exists s. simpl. unfold sentOf, failedOf. simpl. rewrite !Nat.add_0_r.
    unfold ret. destruct results. split; [reflexivity|].
    split; [reflexivity|apply grows_refl].
  - cbn [retryLoop resendOutcomes dropSent].
    unfold bind at 1. unfold try_catch. unfold bind at 1.
    destruct (resend (gmailService env) fe s) as [[resp|e] s1] eqn:Er;
      pose proof (@resend_queue env fe _ _ _ Er) as Fq;
      pose proof (@resend_grows env fe _ _ _ Er) as Gq;
      unfold preserves, queueOf in Fq; inversion Fq as [[Fq1 Fq2]];
      cbn [fst succeeded].
    + destruct (success resp) eqn:Es;
        [ rewrite (afterIteration_sent _ _ _ Er Es)
        | rewrite (afterIteration_failed _ _ _ Er Es) ];
        mrun;
        match goal with
        | |- context [retryLoop _ rest ?res ?st] =>
            destruct (IH res st) as (s' & E & Fs & G)
        end;
        exists s'; rewrite E; unfold sentOf, failedOf in *;
          cbn [filter negb length fst snd];
        (split; [apply counters_eq; lia|]); split.
      * rewrite Fs. cbn [failedEmails logEvent with_world with_failedEmails].
        now rewrite Fq1.
      * eapply grows_trans; [exact Gq|].
        eapply grows_trans; [|exact G].
        eapply grows_trans; [|apply grows_logEvent; reflexivity].
        eapply grows_trans; [|apply grows_logEvent; reflexivity].
        exists []. simpl. now rewrite app_nil_r.
      * rewrite Fs. cbn [failedEmails logEvent with_world with_failedEmails].
        now rewrite Fq1.
      * eapply grows_trans; [exact Gq|].
        eapply grows_trans; [|exact G].
        eapply grows_trans; [|apply grows_logEvent; reflexivity].
        apply grows_logEvent; reflexivity.
    + rewrite (afterIteration_thrown _ _ _ Er). mrun.
      match goal with
      | |- context [retryLoop _ rest ?res ?st] =>
          destruct (IH res st) as (s' & E & Fs & G)
      end.
      exists s'. rewrite E. unfold sentOf, failedOf in *.
      cbn [filter negb length fst snd].
      split; [apply counters_eq; lia|]. split.
      * rewrite Fs. cbn [failedEmails logEvent with_world with_failedEmails].
        now rewrite Fq1.
      * eapply grows_trans; [exact Gq|].
        eapply grows_trans; [|exact G].
        eapply grows_trans; [|apply grows_logEvent; reflexivity].
        apply grows_logEvent; reflexivity.
Qed.

End DrainOutcomes.

(** C5, as amended.  For every non-empty queue of K entries (distinct
    objects) and every behaviour of the provider, one [retryFailedEmails]
    call removes from the live list exactly the entries whose resend
    succeeded: an entry whose resend failed is left in the list and
    counted in [failed].  The summary is reported once, with the numbers
    of succeeded and failed resends; when every resend succeeds the queue
    is empty afterwards and the report is [{success: K, failed: 0}]. *)
Theorem retryFailedEmails_drain (env : Env) (s : Sys) :
  failedEmails s <> [] ->
  distinctRefs (failedEmails s) ->
  exists s',
    retryFailedEmails env (gmailService env) s = (Ok tt, s')
    /\ length (drainOutcomes env s) = length (failedEmails s)
    /\ failedEmails s' = keepFailed (drainOutcomes env s) (failedEmails s)
    /\ In (Telegram
             (RetryResultsNotice (sentOf (drainOutcomes env s))
                (failedOf (drainOutcomes env s))
                (length (failedEmails s'))))
          (newEvents s s')
    /\ countEv is_retryReport (newEvents s s') = 1%nat
    /\ (forallb (fun sent => sent) (drainOutcomes env s) = true ->
        failedEmails s' = []
        /\ In (Telegram (RetryResultsNotice (length (failedEmails s)) 0 0))
              (newEvents s s')).
Proof.
  intros Hne ND. unfold drainOutcomes.
  set (s0 := logEvent 0 (Console (LogOther "Retrying failed emails...")) s).
  set (outcomes := resendOutcomes (gmailService env) (failedEmails s) s0).
  assert (Hlen : length outcomes = length (failedEmails s))
    by apply resendOutcomes_length.
  destruct (retryLoop_outcomes env (failedEmails s) (0%nat, 0%nat) s0)
    as (s1 & E & Fs & (new & El & Fl)).
  fold outcomes in E, Fs. cbn [fst snd Nat.add] in E.
  change (failedEmails s0) with (failedEmails s) in Fs.
  pose proof (@dropSent_snapshot (failedEmails s) outcomes [] ND Hlen) as Hd.
  cbn [app] in Hd. rewrite Hd in Fs. clear Hd.
  assert (Hcount : countEv is_retryReport new = 0%nat).
  { unfold countEv. rewrite (@forallb_filter_none _ gmailEvent _ new Fl); auto.
    intros ev Hev. destruct ev; try reflexivity; try discriminate.
    destruct n; try reflexivity; discriminate. }
  assert (Hrun : exists s',
             retryFailedEmails env (gmailService env) s = (Ok tt, s')
             /\ failedEmails s' = failedEmails s1
             /\ exists tail,
                  log (world s')
                  = (log (world s)
                     ++ Console (LogOther "Retrying failed emails...")
                        :: new
                     ++ Telegram
                          (RetryResultsNotice (sentOf outcomes)
                             (failedOf outcomes) (length (failedEmails s1)))
                        :: tail)%list
                  /\ countEv is_retryReport tail = 0%nat).
  { unfold retryFailedEmails. unfold bind at 1. unfold gets.
    destruct (failedEmails s) as [|fe0 q0] eqn:Eq; [congruence|].
    cbn [length Nat.eqb]. unfold bind at 1. unfold emit, modify.
    unfold bind at 1. fold s0. rewrite E.
    unfold notifyRetryResults, try_catch. mrun. cbn [fst snd].
    destruct (answer (env_telegram env _ (world s1)));
      eexists; (split; [reflexivity|]);
      cbn [failedEmails logEvent with_world world log];
      (split; [reflexivity|]); rewrite El; subst s0;
      cbn [world logEvent with_world log]; rewrite <- !app_assoc;
      cbn [app]; eexists; (split; [reflexivity|]); reflexivity. }
  destruct Hrun as (s' & Erun & Fq & tail & Elog & Htail).
  rewrite <- Fq in Fs, Elog.
  assert (Hin : In (Telegram
                      (RetryResultsNotice (sentOf outcomes) (failedOf outcomes)
                         (length (failedEmails s'))))
                  (newEvents s s')).
  { rewrite (@newEvents_app _ _ _ Elog). right. apply in_or_app. right.
    now left. }
  exists s'. split; [exact Erun|]. split; [exact Hlen|].
  split; [exact Fs|]. split; [exact Hin|]. split.
  - rewrite (@newEvents_app _ _ _ Elog).
    change (Console (LogOther "Retrying failed emails...") :: new ++ ?x)
      with ([Console (LogOther "Retrying failed emails...")] ++ new ++ x)%list.
    rewrite !countEv_app, Hcount.
    change (Telegram ?n :: tail) with ([Telegram n] ++ tail)%list.
    rewrite countEv_app, Htail. reflexivity.
  - intros Hall. destruct (all_sent_counts _ Hall) as [Hs Hf].
    assert (Hempty : failedEmails s' = [])
      by (rewrite Fs; now apply keepFailed_all_sent).
    split; [exact Hempty|].
    rewrite Hs, Hf, Hempty, Hlen in Hin. exact Hin.
Qed.

Lemma retryFailedEmails_drain_witness :
  (exists s',
     retryFailedEmails envFirstSendOnly (gmailService envFirstSendOnly)
       (queueState 5000 sampleQueue) = (Ok tt, s')
     /\ failedEmails s'
        = [mkFailedEmail 1 "b@x.com" "B" "help me" 2000 response;
           mkFailedEmail 2 "c@x.com" "C" "please" 3000 confirmation]
     /\ In (Telegram (RetryResultsNotice 1 2 2))
           (newEvents (queueState 5000 sampleQueue) s'))
  /\ (exists s',
        retryFailedEmails (envOneBadRecipient "b@x.com")
          (gmailService (envOneBadRecipient "b@x.com"))
          (queueState 5000 sampleQueue) = (Ok tt, s')
        /\ failedEmails s'
           = [mkFailedEmail 1 "b@x.com" "B" "help me" 2000 response]
        /\ In (Telegram (RetryResultsNotice 2 1 1))
              (newEvents (queueState 5000 sampleQueue) s')).
Proof.
  assert (Hne : failedEmails (queueState 5000 sampleQueue) <> [])
    by (simpl; discriminate).
  assert (ND : distinctRefs (failedEmails (queueState 5000 sampleQueue))).
  { unfold distinctRefs. simpl.
    repeat constructor; simpl; intuition discriminate. }
  split.
  - destruct (@retryFailedEmails_drain envFirstSendOnly
                (queueState 5000 sampleQueue) Hne ND)
      as (s' & E & _ & Fs & Hin & _).
    assert (O : drainOutcomes envFirstSendOnly (queueState 5000 sampleQueue)
                = [true; false; false]) by (vm_compute; reflexivity).
    rewrite O in Fs, Hin. exists s'. split; [exact E|]. split.
    + rewrite Fs. reflexivity.
    + rewrite Fs in Hin. exact Hin.
  - destruct (@retryFailedEmails_drain (envOneBadRecipient "b@x.com")
                (queueState 5000 sampleQueue) Hne ND)
      as (s' & E & _ & Fs & Hin & _).
    assert (O : drainOutcomes (envOneBadRecipient "b@x.com")
                  (queueState 5000 sampleQueue)
                = [true; false; true]) by (vm_compute; reflexivity).
    rewrite O in Fs, Hin. exists s'. split; [exact E|]. split.
    + rewrite Fs. reflexivity.
    + rewrite Fs in Hin. exact Hin.
Defined.

(** The original wording of C5 fails on the empty queue: with K = 0 the
    call returns at once, and no counters are reported. *)
Lemma retryFailedEmails_empty_queue_reports_nothing :
  failedEmails (queueState 5000 []) = []
  /\ (forall fe st, In fe (failedEmails (queueState 5000 [])) ->
        succeeded (fst (resend (gmailService envOk) fe st)) = true)
  /\ retryFailedEmails envOk (gmailService envOk) (queueState 5000 [])
     = (Ok tt,
        logEvent 0 (Console (LogOther "No failed emails to retry"))
          (queueState 5000 []))
  /\ ~ In (Telegram (RetryResultsNotice 0 0 0))
          (newEvents (queueState 5000 [])
             (snd (retryFailedEmails envOk (gmailService envOk)
                     (queueState 5000 []))))
  /\ countEv is_retryReport
       (newEvents (queueState 5000 [])
          (snd (retryFailedEmails envOk (gmailService envOk)
                  (queueState 5000 [])))) = 0%nat.
Proof.
  split; [reflexivity|]. split; [intros fe st []|].
  split; [reflexivity|]. split; [|reflexivity].
  vm_compute. intros [H|[]]. discriminate H.
Qed.

(** ** The webhook route *)




Section Webhook.

Variable env : Env.
Variable cfg : IndexConfig.




(** The handler, once the secret and the fields are accepted, answers 200
    whatever the chat API and the mail provider do. *)
Lemma fieldsAreText_inv (b : SupportRequestBody) :
  fieldsAreText b = true ->
  exists nm mail text,
    body_name b = BString nm /\ body_email b = BString mail
    /\ body_text b = BString text
    /\ truthy (body_name b) = true /\ truthy (body_email b) = true
    /\ truthy (body_text b) = true.
Proof.
  unfold fieldsAreText, isText, truthy.
  destruct (body_name b) as [| |nm| | |]; try discriminate.
  destruct (body_email b) as [| |mail| | |];
    try (rewrite andb_false_r; discriminate).
  destruct (body_text b) as [| |text| | |];
    try (rewrite andb_false_r; discriminate).
  intros H. apply andb_true_iff in H. destruct H as [H Ht].
  apply andb_true_iff in H. destruct H as [Hn He].
  exists nm, mail, text. auto 10.
Qed.



Lemma isText_truthy (v : BodyValue) : isText v = true -> truthy v = true.
Proof. destruct v; simpl; try discriminate; auto. Qed.



End Webhook.







(** ** Error containment of the public operations *)

Lemma noThrow_try_catch_guarded A (P : JsError -> Prop) (m : M A)
  (h : JsError -> M A) :
  throwsOnly P m -> (forall e, P e -> noThrow (h e)) ->
  noThrow (try_catch m h).
Proof.
  intros Hm Hh s. unfold try_catch.
  destruct (m s) as [[a|e] s1] eqn:E.
  - now exists a, s1.
  - apply Hh. eapply Hm; eauto.
Qed.

Lemma isAuthenticationError_total e :
  messageful e -> exists b, isAuthenticationError e = Ok b.
Proof.
  unfold messageful, isAuthenticationError. intros H.
  destruct (js_includes authErrors (code e)); [now exists true|].
  destruct (js_includes authErrors (status e)); [now exists true|].
  destruct (message e); [eauto | congruence].
Qed.

Lemma isRetryableError_total e :
  messageful e -> exists b, isRetryableError e = Ok b.
Proof.
  unfold messageful, isRetryableError. intros H.
  destruct (js_includes retryableCodes (code e)); [now exists true|].
  destruct (js_includes retryableCodes (status e)); [now exists true|].
  destruct (message e); [eauto | congruence].
Qed.

Section Containment.

Variable env : Env.
Hypothesis Henv : envMessageful env.

Lemma validateToken_noThrow : noThrow (validateToken env).
Proof.
  pose proof (handleAuthError_noThrow env) as Hh.
  destruct Henv as (Htok & Hprof & _ & _).
  unfold validateToken.
  apply noThrow_bind; [apply noThrow_gets|]. intros t.
  apply noThrow_bind; [apply noThrow_gets|]. intros v.
  destruct (isTokenValid v && _)%bool; [apply noThrow_ret|].
  apply noThrow_try_catch_guarded with (P := messageful).
  - intros s e s'. mrun.
    destruct (answer (env_getAccessToken env (world s))) as [tok|e1] eqn:E1.
    + destruct (falsy tok).
      * intros H; inversion H; subst. discriminate.
      * destruct (answer (env_getProfile env _)) as [[]|e2] eqn:E2;
          intros H; inversion H; subst. eapply Hprof; eauto.
    + intros H; inversion H; subst. eapply Htok; eauto.
  - intros e He. destruct (isAuthenticationError_total He) as [b Eb].
    rewrite Eb. unfold emit, eval, set_isTokenValid.
    apply noThrow_bind; [apply noThrow_modify|]. intros _.
    apply noThrow_bind; [intros s; now exists b, s|]. intros isAuth.
    noThrow_struct.
Qed.

Lemma attemptOnce_noThrow options maxRetries attempt :
  noThrow (attemptOnce env options maxRetries attempt).
Proof.
  pose proof (handleAuthError_noThrow env) as Hh.
  destruct Henv as (Htok & _ & Hsend & _).
  unfold attemptOnce.
  apply noThrow_try_catch_guarded with (P := messageful).
  - intros s e s'. unfold attemptBody. mrun.
    destruct (answer (env_getAccessToken env (world s))) as [tok|e1] eqn:E1.
    + destruct (answer (env_messagesSend env options _)) as [d|e2] eqn:E2;
        intros H; inversion H; subst. eapply Hsend; eauto.
    + intros H; inversion H; subst. eapply Htok; eauto.
  - intros e He.
    destruct (isAuthenticationError_total He) as [b Eb].
    destruct (isRetryableError_total He) as [b' Eb'].
    unfold attemptCatch. rewrite Eb, Eb'.
    unfold emit, eval, sleep, dateNow, set_isTokenValid.
    apply noThrow_bind; [intros s; now exists b', s|]. intros isRetryable.
    apply noThrow_bind; [intros s; now exists b, s|]. intros isAuth.
    noThrow_struct.
Qed.

Lemma sendLoop_noThrow options maxRetries remaining :
  forall attempt, noThrow (sendLoop env options maxRetries remaining attempt).
Proof.
  induction remaining as [|remaining IH]; intros attempt; cbn [sendLoop].
  - unfold dateNow. noThrow_struct.
  - apply noThrow_bind; [apply attemptOnce_noThrow|].
    intros [resp|]; [apply noThrow_ret | apply IH].
Qed.

(** When the provider rejects with proper [Error]s only, the three public
    operations always return a structured result. *)
Lemma public_operations_contained options maxRetries :
  noThrow (sendEmail env options maxRetries)
  /\ noThrow (validateToken env)
  /\ noThrow (refreshToken env).
Proof.
  pose proof validateToken_noThrow as Hv.
  pose proof (handleAuthError_noThrow env) as Hh.
  split; [|split; [assumption|]].
  - unfold sendEmail. apply noThrow_bind; [assumption|].
    intros [|]; simpl; [apply sendLoop_noThrow|].
    unfold dateNow. noThrow_struct.
  - destruct Henv as (_ & _ & _ & Hrefresh).
    unfold refreshToken.
    apply noThrow_try_catch_guarded with (P := messageful).
    + intros s e s'. unfold bind at 1. unfold emit, modify.
      unfold bind at 1. unfold call.
      destruct (answer (env_refreshAccessToken env _)) as [[]|e1] eqn:E1.
      * unfold bind at 1.
        match goal with
        | |- context [validateToken env ?st] =>
            destruct (Hv st) as [b [s2 E2]]; rewrite E2
        end.
        destruct b; mrun; discriminate.
      * intros H; inversion H; subst. eapply Hrefresh; eauto.
    + intros e He. destruct (isAuthenticationError_total He) as [b Eb].
      rewrite Eb. unfold emit, eval.
      apply noThrow_bind; [apply noThrow_modify|]. intros _.
      apply noThrow_bind; [intros s; now exists b, s|]. intros isAuth.
      noThrow_struct.
Qed.

End Containment.

(** C8.  The claim fails on the code for a thrown object that has no
    string under [message]: [isAuthenticationError] reads
    [error.message.toLowerCase()] inside the [catch] block, and the
    resulting [TypeError] leaves [sendEmail], [validateToken] and
    [refreshToken] as an exception instead of a structured result. *)
Theorem public_operations_raise_without_message :
  message errNoMessage = None
  /\ fst (sendEmail envNoMessage sampleOptions 3 (startState 1000))
     = Throw (TypeError "toLowerCase")
  /\ fst (validateToken envProbeNoMessage (staleState 1000))
     = Throw (TypeError "toLowerCase")
  /\ fst (refreshToken envNoMessage (startState 1000))
     = Throw (TypeError "toLowerCase").
Proof. repeat split; vm_compute; reflexivity. Qed.

(** ** The queue holds distinct objects *)

Lemma startState_queueWf t0 : queueWf (startState t0).
Proof. split; [constructor | intros fe []]. Qed.

(** [handleFailedEmail] appends a fresh object, so identities stay
    pairwise distinct: the hypothesis of the drain theorem holds in every
    state the process reaches by enqueueing. *)
Lemma handleFailedEmail_queueWf env emailResponse userEmail userName msg type
  s r s' :
  queueWf s ->
  handleFailedEmail env emailResponse userEmail userName msg type s = (r, s') ->
  queueWf s'.
Proof.
  intros [ND Hlt] H.
  set (fe := mkFailedEmail (nextRef s) userEmail userName msg
               (now (world s)) type).
  assert (Hq : failedEmails s' = (failedEmails s ++ [fe])%list
               /\ nextRef s' = S (nextRef s)).
  { revert H. unfold handleFailedEmail, notifyFailedEmail,
      notifyReAuthRequired. mrun.
    cbn [nextRef with_nextRef with_failedEmails failedEmails world].
    destruct (answer (env_telegram env (FailedEmailNotice userEmail) _));
      destruct (authRelated emailResponse);
      try match goal with
          | |- context [answer (env_telegram env (ReAuthRequiredNotice ?n) ?w)] =>
              destruct (answer (env_telegram env (ReAuthRequiredNotice n) w))
          end;
      intros H; inversion H; subst; split; reflexivity. }
  destruct Hq as [Eq En]. unfold queueWf, distinctRefs. rewrite Eq, En. split.
  - rewrite map_app. simpl.
    apply NoDup_app.
    + exact ND.
    + repeat constructor. intros [].
    + intros x Hx [Hy|[]]. subst x.
      apply in_map_iff in Hx. destruct Hx as (fe0 & Hr & Hin).
      apply Hlt in Hin. lia.
  - intros fe0 Hin. apply in_app_or in Hin. destruct Hin as [Hin|[<-|[]]].
    + apply Hlt in Hin. lia.
    + simpl. lia.
Qed.

(** * Further properties *)

(** ** Delivery Engine: bounds and the other exits of the loop *)

Section LoopBounds.

Variable env : Env.
Variable options : GmailEmailOptions.

Lemma quiet_counts l :
  forallb notLoopEvent l = true ->
  countEv is_attempt l = 0%nat /\ countEv is_send l = 0%nat
  /\ countEv is_sleep l = 0%nat.
Proof.
  intros H. repeat split; apply notLoopEvent_countEv; auto;
    intros ev Hev; unfold is_loopEvent; rewrite Hev;
    rewrite ?orb_true_r; reflexivity.
Qed.

(** One iteration: at most one provider send and one attempt line; a wait
    only when the iteration falls through to the next one, which it never
    does on the last attempt. *)
Lemma attemptOnce_counts maxRetries attempt s r s' :
  attemptOnce env options maxRetries attempt s = (r, s') ->
  exists new,
    log (world s') = (log (world s) ++ new)%list
    /\ (countEv is_attempt new <= 1)%nat
    /\ (countEv is_send new <= 1)%nat
    /\ (r = Ok None -> attempt <> maxRetries /\ countEv is_sleep new = 1%nat)
    /\ (r <> Ok None -> countEv is_sleep new = 0%nat).
Proof.
  unfold attemptOnce, try_catch.
  destruct (attemptBody env options attempt s) as [[x|e] s1] eqn:Eb.
  - intros H. inversion H; subst; clear H.
    unfold attemptBody in Eb. mrun.
    destruct (answer (env_getAccessToken env (world s))); [|discriminate].
    destruct (answer (env_messagesSend env options _)); [|discriminate].
    inversion Eb; subst; clear Eb.
    exists [GetAccessToken; MessagesSend options; Console (LogSent attempt)].
    split; [simpl; rewrite <- !app_assoc; reflexivity|].
    unfold countEv in *; simpl.
    repeat split; try lia; try discriminate; try congruence.
  - assert (Hcalls : exists calls,
               log (world s1) = (log (world s) ++ calls)%list
               /\ countEv is_attempt calls = 0%nat
               /\ (countEv is_send calls <= 1)%nat
               /\ countEv is_sleep calls = 0%nat).
    { destruct (@attemptBody_throws env options attempt s e s1 Eb)
        as [_ [E|E]]; eexists; (split; [exact E|]);
        unfold countEv in *; simpl;
        repeat split; lia. }
    destruct Hcalls as (calls & Ec & Ca & Cs & Cw).
    unfold attemptCatch. mrun.
    destruct (isRetryableError e) as [b1|e1].
    2:{ intros H; inversion H; subst. exists calls.
        rewrite Ca, Cw. repeat split; auto; try lia; try discriminate; try congruence. }
    destruct (isAuthenticationError e) as [[|]|e2].
    3:{ intros H; inversion H; subst. exists calls.
        rewrite Ca, Cw. repeat split; auto; try lia; try discriminate; try congruence. }
    + match goal with
      | |- context [handleAuthError env ?st] =>
          destruct (handleAuthError env st) as [[[]|e3] s2] eqn:Eh;
          pose proof (handleAuthError_quiet env st Eh) as [rest [Er Fr]]
      end;
        destruct (quiet_counts rest Fr) as (Ra & Rs & Rw);
        intros H; inversion H; subst; clear H;
        exists (calls ++ Console (LogAttemptFailed attempt) :: rest)%list;
        (split; [rewrite Er; simpl; rewrite Ec, <- !app_assoc; reflexivity|]);
        change (Console (LogAttemptFailed attempt) :: rest)
          with ([Console (LogAttemptFailed attempt)] ++ rest)%list;
        rewrite !countEv_app, Ca, Cw, Ra, Rs, Rw;
        unfold countEv in *; simpl;
        repeat split; try lia; try discriminate; try congruence.
    + destruct (Nat.eqb attempt maxRetries) eqn:El; cbn [orb].
      * intros H; inversion H; subst; clear H.
        exists (calls ++ [Console (LogAttemptFailed attempt)])%list.
        split; [simpl; rewrite Ec, <- app_assoc; reflexivity|].
        rewrite !countEv_app, Ca, Cw.
        unfold countEv in *; simpl.
        repeat split; try lia; try discriminate; try congruence.
      * destruct b1; cbn [negb].
        -- intros H; inversion H; subst; clear H.
           exists (calls ++ [Console (LogAttemptFailed attempt);
                             Console (LogRetrying (backoffDelay attempt));
                             Sleep (backoffDelay attempt)])%list.
           split; [simpl; rewrite Ec, <- !app_assoc; reflexivity|].
           rewrite !countEv_app, Ca, Cw.
           unfold countEv in *; simpl.
           apply Nat.eqb_neq in El.
           repeat split; try lia; try assumption; try congruence.
        -- intros H; inversion H; subst; clear H.
           exists (calls ++ [Console (LogAttemptFailed attempt)])%list.
           split; [simpl; rewrite Ec, <- app_assoc; reflexivity|].
           rewrite !countEv_app, Ca, Cw.
           unfold countEv in *; simpl.
           repeat split; try lia; try discriminate; try congruence.
Qed.

Lemma sendLoop_counts maxRetries remaining :
  forall attempt s r s',
    (attempt + remaining = maxRetries + 1)%nat ->
    sendLoop env options maxRetries remaining attempt s = (r, s') ->
    exists new,
      log (world s') = (log (world s) ++ new)%list
      /\ (countEv is_attempt new <= remaining)%nat
      /\ (countEv is_send new <= remaining)%nat
      /\ (countEv is_sleep new <= remaining - 1)%nat.
Proof.
  induction remaining as [|remaining IH]; intros attempt s r s' Hsum.
  - simpl. mrun. intros H. inversion H; subst. exists [].
    rewrite app_nil_r. repeat split; auto.
  - cbn [sendLoop]. unfold bind at 1.
    destruct (attemptOnce env options maxRetries attempt s) as [r1 s1] eqn:E1.
    destruct (@attemptOnce_counts maxRetries attempt s r1 s1 E1)
      as (n1 & L1 & A1 & S1 & W1 & W0).
    destruct r1 as [[resp|]|e].
    + intros H. inversion H; subst; clear H. exists n1.
      rewrite W0 by discriminate. repeat split; auto; lia.
    + intros H. destruct (W1 eq_refl) as [Hne Hw].
      destruct remaining as [|remaining]; [exfalso; apply Hne; lia|].
      destruct (IH (S attempt) s1 r s') as (n2 & L2 & A2 & S2 & W2);
        [lia | exact H |].
      exists (n1 ++ n2)%list.
      split; [rewrite L2, L1; now rewrite app_assoc|].
      rewrite !countEv_app. repeat split; lia.
    + intros H. inversion H; subst; clear H. exists n1.
      rewrite W0 by discriminate. repeat split; auto; lia.
Qed.

End LoopBounds.

(** X1.  Whatever the provider and the Token Guard do, and whether the
    invocation returns or throws, one [sendEmail] logs at most
    [maxRetries] attempt lines, makes at most [maxRetries] provider sends
    and waits at most [maxRetries - 1] times. *)
Theorem sendEmail_bounded_retries (env : Env) (options : GmailEmailOptions)
  (maxRetries : nat) (s : Sys) :
  (countEv is_attempt
     (newEvents s (snd (sendEmail env options maxRetries s))) <= maxRetries)%nat
  /\ (countEv is_send
        (newEvents s (snd (sendEmail env options maxRetries s))) <= maxRetries)%nat
  /\ (countEv is_sleep
        (newEvents s (snd (sendEmail env options maxRetries s)))
      <= maxRetries - 1)%nat.
Proof.
  unfold sendEmail. unfold bind at 1 3 5.
  destruct (validateToken env s) as [rg s0] eqn:Eg.
  pose proof (validateToken_quiet env s Eg) as [pre [Ep Fp]].
  destruct (quiet_counts pre Fp) as (Pa & Ps & Pw).
  destruct rg as [[|]|e]; cbn [negb].
  - destruct (sendLoop env options maxRetries maxRetries 1 s0) as [r s'] eqn:El.
    destruct (@sendLoop_counts env options maxRetries maxRetries 1%nat s0 r s')
      as (new & L & A & S & W); [lia | exact El |].
    cbn [snd].
    rewrite (@newEvents_app s s' (pre ++ new)%list)
      by (rewrite L, Ep; now rewrite app_assoc).
    rewrite !countEv_app. lia.
  - mrun. cbn [snd]. rewrite (@newEvents_app s s0 pre Ep). lia.
  - cbn [snd]. rewrite (@newEvents_app s s0 pre Ep). lia.
Qed.

(** X2.  With [maxRetries = 0] the loop body never runs: once the Token
    Guard has passed, [sendEmail] returns the [Max retries exceeded]
    failure (not auth-related, no error code) without asking the provider
    for a token or a send. *)
Theorem sendEmail_zero_retries (env : Env) (options : GmailEmailOptions)
  (s s0 : Sys) :
  validateToken env s = (Ok true, s0) ->
  sendEmail env options 0 s = (Ok (maxRetriesResponse (now (world s0))), s0)
  /\ success (maxRetriesResponse (now (world s0))) = false
  /\ authRelated (maxRetriesResponse (now (world s0))) = false
  /\ countEv is_send (newEvents s s0) = 0%nat.
Proof.
  intros Hg. split; [|split; [reflexivity|split; [reflexivity|]]].
  - unfold sendEmail. unfold bind at 1. rewrite Hg. reflexivity.
  - pose proof (validateToken_quiet env s Hg) as G.
    apply grows_newEvents in G. destruct G as [_ G].
    apply notLoopEvent_countEv; auto.
    intros ev Hev. unfold is_loopEvent. rewrite Hev. apply orb_true_r.
Qed.

Lemma sendEmail_zero_retries_witness :
  sendEmail envOk sampleOptions 0 (startState 1000)
  = (Ok (maxRetriesResponse 1000), startState 1000).
Proof.
  destruct (@sendEmail_zero_retries envOk sampleOptions (startState 1000)
              (startState 1000)) as [H _].
  - vm_compute. reflexivity.
  - exact H.
Defined.

(** X3.  An attempt that fails with an error of neither class (not
    retryable, not auth-class) ends the loop there and then, whatever the
    number of attempts left: the outcome carries the error's message and
    code and is not auth-related, nothing is waited for, and the Token
    Guard state is exactly what it was (no invalidation, no escalation). *)
Theorem sendLoop_non_retryable_error_stops (env : Env)
  (options : GmailEmailOptions) (maxRetries remaining attempt : nat)
  (s s1 : Sys) (e : JsError) :
  attemptBody env options attempt s = (Throw e, s1) ->
  isRetryableError e = Ok false ->
  isAuthenticationError e = Ok false ->
  exists s',
    sendLoop env options maxRetries (S remaining) attempt s
    = (Ok (failedResponse e (now (world s'))), s')
    /\ error (failedResponse e (now (world s'))) = message e
    /\ errorCode (failedResponse e (now (world s'))) = code e
    /\ authRelated (failedResponse e (now (world s'))) = false
    /\ svc s' = svc s
    /\ countEv is_attempt (newEvents s s') = 1%nat
    /\ countEv is_sleep (newEvents s s') = 0%nat
    /\ countEv is_notification (newEvents s s') = 0%nat.
Proof.
  intros Hb Hr Ha.
  exists (logEvent 0 (Console (LogAttemptFailed attempt)) s1).
  split.
  - cbn [sendLoop]. unfold bind at 1. unfold attemptOnce, try_catch.
    rewrite Hb. unfold attemptCatch. mrun. rewrite Hr, Ha.
    rewrite orb_true_r. reflexivity.
  - destruct (@attemptBody_throws env options attempt s e s1 Hb) as [Hs [E|E]];
      (repeat split; [exact Hs | | |]);
      erewrite newEvents_app
        by (simpl; rewrite E, <- app_assoc; reflexivity);
      reflexivity.
Qed.

Lemma sendLoop_non_retryable_error_stops_witness :
  exists s',
    sendLoop envSend400 sampleOptions 3 3 1 (startState 1000)
    = (Ok (failedResponse errBadRequest (now (world s'))), s')
    /\ svc s' = svc (startState 1000)
    /\ countEv is_attempt (newEvents (startState 1000) s') = 1%nat.
Proof.
  destruct (@sendLoop_non_retryable_error_stops envSend400 sampleOptions
              3 2 1 (startState 1000)
              (snd (attemptBody envSend400 sampleOptions 1 (startState 1000)))
              errBadRequest)
    as (s' & E & _ & _ & _ & Hs & Ca & _).
  - vm_compute. reflexivity.
  - vm_compute. reflexivity.
  - vm_compute. reflexivity.
  - exists s'. auto.
Defined.

(** X4.  Recovery inside one invocation: when the first two attempts fail
    with transient-class errors and the third succeeds, the loop returns
    the success outcome of the third attempt after waits of 1 s and 2 s,
    and leaves the Token Guard valid with the notification flag lowered. *)
Theorem sendLoop_succeeds_on_third_attempt (env : Env)
  (options : GmailEmailOptions) (s0 s1 s2 s3 : Sys) (e1 e2 : JsError)
  (x : option GmailEmailResponse) :
  attemptBody env options 1 s0 = (Throw e1, s1) ->
  isRetryableError e1 = Ok true -> isAuthenticationError e1 = Ok false ->
  attemptBody env options 2 (afterTransient 1 s1) = (Throw e2, s2) ->
  isRetryableError e2 = Ok true -> isAuthenticationError e2 = Ok false ->
  attemptBody env options 3 (afterTransient 2 s2) = (Ok x, s3) ->
  exists resp,
    x = Some resp
    /\ sendLoop env options 3 3 1 s0 = (Ok resp, s3)
    /\ success resp = true
    /\ authRelated resp = false
    /\ isTokenValid (svc s3) = true
    /\ notificationSent (svc s3) = false
    /\ attemptsAndWaits (newEvents s0 s3)
       = [ Console (LogAttemptFailed 1); Sleep 1000;
           Console (LogAttemptFailed 2); Sleep 2000;
           Console (LogSent 3) ].
Proof.
  intros B1 R1 A1 B2 R2 A2 B3.
  assert (Hx : exists d t,
             x = Some (sentResponse d t)
             /\ isTokenValid (svc s3) = true
             /\ notificationSent (svc s3) = false
             /\ log (world s3)
                = (log (world (afterTransient 2 s2))
                   ++ [GetAccessToken; MessagesSend options;
                       Console (LogSent 3)])%list).
  { revert B3. unfold attemptBody. mrun.
    destruct (answer (env_getAccessToken env _)); [|discriminate].
    destruct (answer (env_messagesSend env options _)); [|discriminate].
    intros H. inversion H; subst; clear H.
    eexists _, _. split; [reflexivity|].
    split; [reflexivity|]. split; [reflexivity|].
    simpl. rewrite <- !app_assoc. reflexivity. }
  destruct Hx as (d & t & -> & Hv & Hf & L3).
  exists (sentResponse d t). split; [reflexivity|]. split.
  - cbn [sendLoop]. unfold bind at 1. unfold attemptOnce at 1, try_catch.
    rewrite B1. unfold attemptCatch at 1. mrun. rewrite R1, A1.
    cbn [Nat.eqb orb negb]. mrun.
    fold (afterTransient 1 s1).
    unfold attemptOnce at 1, try_catch. rewrite B2.
    unfold attemptCatch at 1. mrun. rewrite R2, A2.
    cbn [Nat.eqb orb negb]. mrun.
    fold (afterTransient 2 s2).
    unfold attemptOnce at 1, try_catch. rewrite B3. reflexivity.
  - split; [reflexivity|]. split; [reflexivity|].
    split; [assumption|]. split; [assumption|].
    destruct (@attemptBody_throws_trace env options 1%nat s0 e1 s1 B1)
      as (c1 & L1 & F1).
    destruct (@attemptBody_throws_trace env options 2%nat _ e2 s2 B2)
      as (c2 & L2 & F2).
    erewrite newEvents_app.
    2:{ rewrite L3. unfold afterTransient at 1. simpl.
        rewrite L2. unfold afterTransient. simpl. rewrite L1.
        rewrite <- !app_assoc. reflexivity. }
    rewrite !attemptsAndWaits_app, F1, F2. reflexivity.
Qed.

Lemma sendLoop_succeeds_on_third_attempt_witness :
  exists resp s3,
    sendLoop envThirdTimeLucky sampleOptions 3 3 1 (startState 1000)
    = (Ok resp, s3)
    /\ success resp = true
    /\ messageId resp = Some "msg-3"
    /\ attemptsAndWaits (newEvents (startState 1000) s3)
       = [ Console (LogAttemptFailed 1); Sleep 1000;
           Console (LogAttemptFailed 2); Sleep 2000;
           Console (LogSent 3) ].
Proof.
  set (s1 := snd (attemptBody envThirdTimeLucky sampleOptions 1
                    (startState 1000))).
  set (s2 := snd (attemptBody envThirdTimeLucky sampleOptions 2
                    (afterTransient 1 s1))).
  set (r3 := attemptBody envThirdTimeLucky sampleOptions 3
               (afterTransient 2 s2)).
  destruct (@sendLoop_succeeds_on_third_attempt envThirdTimeLucky
              sampleOptions (startState 1000) s1 s2 (snd r3) err503 err503
              (Some (sentResponse (mkSendData (Some "msg-3") None) 4120)))
    as (resp & Hx & E & Hs & _ & _ & _ & Ht);
    try (vm_compute; reflexivity).
  exists resp, (snd r3). inversion Hx; subst resp.
  split; [exact E|]. split; [reflexivity|]. split; [reflexivity|exact Ht].
Defined.

(** ** Token Guard: what the other operations do to its state *)

Ltac new_events :=
  erewrite newEvents_app by (simpl; rewrite <- ?app_assoc; reflexivity).

Lemma envSend503_messageful : envMessageful envSend503.
Proof.
  repeat split; intros; simpl in *; try discriminate.
  match goal with H : Throw _ = Throw _ |- _ => inversion H; subst end.
  discriminate.
Qed.

(** X5.  As long as the provider rejects with objects that carry a
    [message] (as every instance of [Error] does), [sendEmail],
    [validateToken], [refreshToken] and [sendSupportResponse] return a
    value from every state: no exception leaves them. *)
Theorem operations_return_for_error_objects (env : Env)
  (options : GmailEmailOptions) (maxRetries : nat)
  (userEmail userName original reply : string) (replyTo : option string) :
  envMessageful env ->
  noThrow (sendEmail env options maxRetries)
  /\ noThrow (validateToken env)
  /\ noThrow (refreshToken env)
  /\ noThrow (sendSupportResponse env userEmail userName original reply replyTo).
Proof.
  intros Henv.
  destruct (@public_operations_contained env Henv options maxRetries)
    as (H1 & H2 & H3).
  split; [assumption|]. split; [assumption|]. split; [assumption|].
  unfold sendSupportResponse.
  apply (@public_operations_contained env Henv).
Qed.

Lemma operations_return_for_error_objects_witness :
  exists r s',
    sendEmail envSend503 sampleOptions 3 (startState 1000) = (Ok r, s').
Proof.
  destruct (@operations_return_for_error_objects envSend503 sampleOptions 3
              "a@x.com" "A" "help" "answer" None envSend503_messageful)
    as [H _].
  exact (H (startState 1000)).
Defined.

Lemma validateToken_true_flag (env : Env) s s' :
  validateToken env s = (Ok true, s') ->
  notificationSent (svc s') = notificationSent (svc s)
  /\ isTokenValid (svc s') = true
  /\ (newEvents s s' = [] \/ newEvents s s' = [GetAccessToken; GetProfile]).
Proof.
  intros H.
  destruct (@validateToken_accounting env _ _ _ H) as (new & L & F & _).
  pose proof (@newEvents_app _ _ _ L) as N.
  destruct (@validateToken_cases env _ _ _ H)
    as [(V & _ & _ & ->) | [(_ & _ & E & _ & V) | (_ & C & _)]].
  - split; [reflexivity|]. split; [assumption|].
    left. apply newEvents_refl.
  - rewrite N in E. subst new.
    split; [rewrite F, E; apply orb_false_r|]. split; [assumption|].
    right. assumption.
  - congruence.
Qed.

(** X6.  [validateToken] never lowers the notification flag, and a run
    that returns [true] leaves the flag exactly as it was: a successful
    probe marks the token valid again but does not end the episode (only a
    successful send or a successful [refreshToken] re-arms the
    notification). *)
Theorem validateToken_never_lowers_flag (env : Env) (s s' : Sys)
  (r : Res bool) :
  validateToken env s = (r, s') ->
  (notificationSent (svc s) = true -> notificationSent (svc s') = true)
  /\ (r = Ok true ->
      notificationSent (svc s') = notificationSent (svc s)
      /\ isTokenValid (svc s') = true).
Proof.
  intros H. split.
  - intros Hf.
    destruct (@validateToken_accounting env _ _ _ H) as (new & _ & F & _).
    rewrite F, Hf. reflexivity.
  - intros ->. destruct (@validateToken_true_flag env _ _ H) as (A & B & _).
    now split.
Qed.

Lemma validateToken_never_lowers_flag_witness :
  fst (validateToken envOk (invalidState 1000000)) = Ok true
  /\ notificationSent (svc (snd (validateToken envOk (invalidState 1000000))))
     = true.
Proof.
  split; [vm_compute; reflexivity|].
  apply (@validateToken_never_lowers_flag envOk (invalidState 1000000)
           (snd (validateToken envOk (invalidState 1000000)))
           (fst (validateToken envOk (invalidState 1000000)))).
  - vm_compute. reflexivity.
  - vm_compute. reflexivity.
Defined.

(** X7.  A [refreshToken] that returns [true] made exactly one refresh
    call, leaves the token marked valid and the notification flag lowered,
    and notified nobody. *)
Theorem refreshToken_true_resets (env : Env) (s s' : Sys) :
  refreshToken env s = (Ok true, s') ->
  isTokenValid (svc s') = true
  /\ notificationSent (svc s') = false
  /\ countEv is_refresh (newEvents s s') = 1%nat
  /\ countEv is_notification (newEvents s s') = 0%nat.
Proof.
  unfold refreshToken, try_catch.
  match goal with
  | |- (match ?body s with _ => _ end) = _ -> _ =>
      destruct (body s) as [[b|e] s1] eqn:Eb
  end.
  - intros H. inversion H; subst; clear H.
    revert Eb. unfold bind at 1. unfold emit, modify.
    unfold bind at 1. unfold call.
    destruct (answer (env_refreshAccessToken env _)) as [[]|e1];
      [|discriminate].
    unfold bind at 1.
    match goal with
    | |- context [validateToken env ?st] =>
        set (s0 := st);
        destruct (validateToken env s0) as [[[|]|e2] s2] eqn:Ev
    end; mrun; try discriminate.
    intros H. inversion H; subst; clear H.
    destruct (@validateToken_true_flag env _ _ Ev) as (_ & _ & N).
    assert (L0 : log (world s0)
                 = (log (world s) ++ [Console LogRefreshing;
                                      RefreshAccessToken])%list).
    { subst s0. simpl. now rewrite <- app_assoc. }
    assert (L2 : exists mid,
               log (world s2) = (log (world s0) ++ mid)%list
               /\ (mid = [] \/ mid = [GetAccessToken; GetProfile])).
    { destruct (@validateToken_quiet env _ _ _ Ev) as (mid & Lm & _).
      exists mid. split; [assumption|].
      now rewrite (@newEvents_app _ _ _ Lm) in N. }
    destruct L2 as (mid & Lm & Hm).
    split; [reflexivity|]. split; [reflexivity|].
    erewrite !newEvents_app
      by (simpl; rewrite Lm, L0, <- !app_assoc; reflexivity).
    destruct Hm as [-> | ->]; split; reflexivity.
  - unfold bind, emit, modify, eval.
    destruct (isAuthenticationError e) as [[|]|e'].
    + destruct (handleAuthError env _) as [[[]|e3] s3];
        intros H; inversion H.
    + intros H; inversion H.
    + intros H; inversion H.
Qed.

Lemma refreshToken_true_resets_witness :
  isTokenValid (svc (snd (refreshToken envOk (invalidState 1000)))) = true
  /\ notificationSent (svc (snd (refreshToken envOk (invalidState 1000))))
     = false.
Proof.
  destruct (@refreshToken_true_resets envOk (invalidState 1000)
              (snd (refreshToken envOk (invalidState 1000))))
    as (A & B & _).
  - vm_compute. reflexivity.
  - split; assumption.
Defined.

(** ** The connection test and the token monitor *)

Section MonitoringFacts.

Variable env : Env.

(** A run of [testConnection]: it returns a boolean, writes no field of
    the process state, and calls nothing but the token endpoint and the
    probe. *)
Lemma testConnection_run s :
  exists b s',
    testConnection env s = (Ok b, s')
    /\ svc s' = svc s
    /\ queueOf s' = queueOf s
    /\ tokenFile s' = tokenFile s
    /\ countEv is_refresh (newEvents s s') = 0%nat
    /\ countEv is_notification (newEvents s s') = 0%nat
    /\ countEv is_telegram (newEvents s s') = 0%nat
    /\ (b = true <->
        exists tok,
          answer (env_getAccessToken env (world s)) = Ok tok
          /\ falsy tok = false
          /\ answer (env_getProfile env
                       (world (logEvent
                                 (Z.of_N (took (env_getAccessToken env (world s))))
                                 GetAccessToken s)))
             = Ok tt).
Proof.
  unfold testConnection. mrun.
  destruct (answer (env_getAccessToken env (world s))) as [tok|e1] eqn:E1.
  - destruct (falsy tok) eqn:F.
    + eexists _, _. split; [reflexivity|]. repeat split; try new_events;
        try reflexivity; try discriminate.
      intros (tok' & Ht & Hf & _). inversion Ht; subst. congruence.
    + destruct (answer (env_getProfile env _)) as [[]|e2] eqn:E2.
      * eexists _, _. split; [reflexivity|]. repeat split; try new_events;
          try reflexivity.
        exists tok. auto.
      * eexists _, _. split; [reflexivity|]. repeat split; try new_events;
          try reflexivity; try discriminate.
        intros (tok' & _ & _ & Hp). congruence.
  - eexists _, _. split; [reflexivity|]. repeat split; try new_events;
      try reflexivity; try discriminate.
    intros (tok' & Ht & _). discriminate.
Qed.

End MonitoringFacts.

(** X8.  [testConnection] never throws and is read-only: whatever the
    provider answers, the Token Guard fields, the queue and the credential
    record are as before, nobody is notified, and the result is [true]
    exactly when the token endpoint returned a non-empty token and the
    probe answered. *)
Theorem testConnection_read_only (env : Env) (s : Sys) :
  exists b s',
    testConnection env s = (Ok b, s')
    /\ svc s' = svc s
    /\ queueOf s' = queueOf s
    /\ tokenFile s' = tokenFile s
    /\ countEv is_telegram (newEvents s s') = 0%nat
    /\ (b = true <->
        exists tok,
          answer (env_getAccessToken env (world s)) = Ok tok
          /\ falsy tok = false
          /\ answer (env_getProfile env
                       (world (logEvent
                                 (Z.of_N (took (env_getAccessToken env (world s))))
                                 GetAccessToken s)))
             = Ok tt).
Proof.
  destruct (testConnection_run env s)
    as (b & s' & E & A & B & C & _ & _ & D & I).
  exists b, s'. repeat split; try assumption; apply I.
Qed.

(** X9.  The two timer callbacks of [startTokenMonitoring] never throw,
    whatever the provider does: also an error without a message, which
    makes [refreshToken] itself throw, ends in the callback's own [catch]. *)
Theorem monitor_callbacks_never_throw (env : Env) :
  noThrow (monitorTick env) /\ noThrow (initialTokenCheck env).
Proof.
  split.
  - unfold monitorTick. apply noThrow_try_catch.
    intros e. unfold emit. apply noThrow_modify.
  - unfold initialTokenCheck, emit.
    apply noThrow_bind; [apply noThrow_modify|]. intros _.
    apply noThrow_try_catch. intros e. apply noThrow_modify.
Qed.

(** X10.  While the cached flag says valid, a monitor tick is passive: it
    does not refresh, does not notify, and leaves the Token Guard state
    and the queue untouched, whatever its connection test finds.  A
    token that died silently is therefore not invalidated by the
    monitor. *)
Theorem monitorTick_valid_flag_is_passive (env : Env) (s : Sys) :
  isTokenValid (svc s) = true ->
  exists s',
    monitorTick env s = (Ok tt, s')
    /\ svc s' = svc s
    /\ queueOf s' = queueOf s
    /\ countEv is_refresh (newEvents s s') = 0%nat
    /\ countEv is_notification (newEvents s s') = 0%nat.
Proof.
  intros Hv. unfold monitorTick, getTokenStatus. mrun.
  cbn [valid svc logEvent with_world]. rewrite Hv. cbn [negb].
  match goal with
  | |- context [testConnection env ?st] =>
      set (s0 := st);
      destruct (testConnection_run env s0)
        as (b & s1 & E & A & B & C & R & N & _ & _)
  end.
  rewrite E. eexists. split; [reflexivity|].
  assert (L0 : log (world s0)
               = (log (world s)
                  ++ [Console (LogOther "Gmail token monitoring check started...");
                      Console (LogOther "Gmail token valid")])%list).
  { subst s0. simpl. now rewrite <- app_assoc. }
  assert (G : grows (fun _ => true) s0 s1).
  { unfold testConnection in E.
    assert (K : keeps (grows (fun _ => true))
                  (testConnection env)).
    { unfold testConnection, emit. keeps_struct grows_prim. }
    exact (K s0 _ _ E). }
  destruct G as (mid & Lm & _).
  rewrite (@newEvents_app _ _ _ Lm) in R, N.
  split; [exact A|]. split; [exact B|].
  erewrite !newEvents_app
    by (simpl; rewrite Lm, L0, <- !app_assoc; reflexivity).
  rewrite !countEv_app, R, N. split; reflexivity.
Qed.

Lemma monitorTick_valid_flag_is_passive_witness :
  svc (snd (monitorTick envRevoked (startState 1000))) = svc (startState 1000).
Proof.
  destruct (@monitorTick_valid_flag_is_passive envRevoked (startState 1000))
    as (s' & E & A & _).
  - reflexivity.
  - rewrite E. exact A.
Defined.

Lemma grows_intro s s' new :
  log (world s') = (log (world s) ++ new)%list -> grows (fun _ => true) s s'.
Proof.
  intros E. exists new. split; [assumption|].
  apply forallb_forall. reflexivity.
Qed.

Lemma envOk_healthy : healthyProvider envOk.
Proof.
  repeat split; intros w; try reflexivity.
  exists (Some "ya29.token"). split; reflexivity.
Qed.

Section Healthy.

Variable env : Env.
Hypothesis Henv : healthyProvider env.

(** Against a healthy provider the Token Guard always passes. *)
Lemma validateToken_healthy s :
  exists s', validateToken env s = (Ok true, s').
Proof.
  destruct Henv as (Htok & Hprof & _).
  unfold validateToken. mrun.
  destruct (isTokenValid (svc s) && _)%bool; [eexists; reflexivity|].
  destruct (Htok (world s)) as (tok & E & F). rewrite E, F.
  rewrite Hprof. eexists. reflexivity.
Qed.

Lemma refreshToken_healthy s :
  exists s',
    refreshToken env s = (Ok true, s')
    /\ isTokenValid (svc s') = true
    /\ notificationSent (svc s') = false
    /\ countEv is_refresh (newEvents s s') = 1%nat
    /\ countEv is_notification (newEvents s s') = 0%nat
    /\ grows (fun _ => true) s s'.
Proof.
  destruct Henv as (_ & _ & Href).
  unfold refreshToken, try_catch.
  unfold bind at 1. unfold emit, modify.
  unfold bind at 1. unfold call. rewrite Href.
  unfold bind at 1.
  match goal with
  | |- context [validateToken env ?st] =>
      destruct (validateToken_healthy st) as (s1 & E); rewrite E;
      destruct (@validateToken_true_flag env _ _ E) as (_ & _ & N);
      destruct (@validateToken_quiet env _ _ _ E) as (mid & Lm & _)
  end.
  rewrite (@newEvents_app _ _ _ Lm) in N.
  cbn [world log logEvent with_world] in Lm.
  mrun. eexists. split; [reflexivity|].
  split; [reflexivity|]. split; [reflexivity|].
  assert (L : log (world s1)
              = (log (world s)
                 ++ [Console LogRefreshing; RefreshAccessToken] ++ mid)%list)
    by (rewrite Lm, <- !app_assoc; reflexivity).
  split; [|split].
  - erewrite newEvents_app
      by (simpl; rewrite L, <- !app_assoc; reflexivity).
    destruct N as [-> | ->]; reflexivity.
  - erewrite newEvents_app
      by (simpl; rewrite L, <- !app_assoc; reflexivity).
    destruct N as [-> | ->]; reflexivity.
  - eapply grows_intro. simpl. rewrite L, <- !app_assoc. reflexivity.
Qed.

End Healthy.

(** X11.  From a state marked invalid, one monitor tick against a healthy
    provider brings the service back: one refresh call, the token marked
    valid, the notification flag lowered (so that the next failure
    notifies again), and nobody notified. *)
Theorem monitorTick_recovers (env : Env) (s : Sys) :
  healthyProvider env ->
  isTokenValid (svc s) = false ->
  exists s',
    monitorTick env s = (Ok tt, s')
    /\ isTokenValid (svc s') = true
    /\ notificationSent (svc s') = false
    /\ countEv is_refresh (newEvents s s') = 1%nat
    /\ countEv is_notification (newEvents s s') = 0%nat.
Proof.
  intros Henv Hv. unfold monitorTick, getTokenStatus. mrun.
  cbn [valid svc logEvent with_world]. rewrite Hv. cbn [negb].
  match goal with
  | |- context [refreshToken env ?st] =>
      set (s0 := st);
      destruct (refreshToken_healthy Henv s0)
        as (s1 & E1 & V1 & F1 & R1 & N1 & G1)
  end.
  rewrite E1. cbn [negb].
  match goal with
  | |- context [testConnection env ?st] =>
      set (s2 := st);
      destruct (testConnection_run env s2)
        as (b & s3 & E & A & _ & _ & R & N & _ & _)
  end.
  rewrite E. eexists. split; [reflexivity|].
  assert (L0 : log (world s0)
               = (log (world s)
                  ++ [Console (LogOther "Gmail token monitoring check started...");
                      Console (LogOther "Gmail token invalid - attempting refresh...")])%list).
  { subst s0. simpl. now rewrite <- app_assoc. }
  assert (G3 : grows (fun _ => true) s2 s3).
  { assert (K : keeps (grows (fun _ => true)) (testConnection env)).
    { unfold testConnection, emit. keeps_struct grows_prim. }
    exact (K s2 _ _ E). }
  destruct G1 as (m1 & L1 & _). destruct G3 as (m3 & L3 & _).
  rewrite (@newEvents_app _ _ _ L1) in R1, N1.
  rewrite (@newEvents_app _ _ _ L3) in R, N.
  split; [change (isTokenValid (svc s3) = true); rewrite A; exact V1|].
  split; [change (notificationSent (svc s3) = false); rewrite A; exact F1|].
  erewrite !newEvents_app
    by (simpl; rewrite L3; subst s2; simpl; rewrite L1, L0, <- !app_assoc;
        reflexivity).
  rewrite !countEv_app, R, N, R1, N1. split; reflexivity.
Qed.

Lemma monitorTick_recovers_witness :
  isTokenValid (svc (snd (monitorTick envOk (invalidState 1000)))) = true
  /\ notificationSent (svc (snd (monitorTick envOk (invalidState 1000))))
     = false.
Proof.
  destruct (@monitorTick_recovers envOk (invalidState 1000) envOk_healthy)
    as (s' & E & V & F & _).
  - reflexivity.
  - rewrite E. split; assumption.
Defined.

(** ** Credential Store: what is written is what is read back *)



(** ** The re-authorization route, end to end *)

Section CallbackFacts.

Variable env : Env.

Lemma callback_noThrow queryCode queryError :
  noThrow (callback env queryCode queryError).
Proof.
  unfold callback.
  destruct (negb (falsy queryError)); [apply noThrow_ret|].
  destruct queryCode as [[|c rest]|]; try apply noThrow_ret.
  apply noThrow_try_catch. intros e. unfold emit. noThrow_struct.
Qed.

Lemma callback_preserves A (f : Sys -> A) queryCode queryError :
  (forall dt ev s, f (logEvent dt ev s) = f s) ->
  (forall g s, f (with_tokenFile g s) = f s) ->
  keeps (preserves f) (callback env queryCode queryError).
Proof.
  intros Hlog Hfile.
  unfold callback, getTokens, validateTokens, testGmailAccess,
    saveRefreshToken, sendTokenUpdateNotification, emit, dateNow.
  destruct (negb (falsy queryError));
    [apply keeps_ret; typeclasses eauto|].
  destruct queryCode as [[|c rest]|];
    try (apply keeps_ret; typeclasses eauto).
  keeps_struct ltac:(intros; unfold preserves; first [apply Hlog | apply Hfile]).
Qed.

End CallbackFacts.

(** X13.  The callback route always answers with a page: every failure
    of the exchange, of the identity check or of the store ends in the
    route's own [catch].  It never touches the running service: the Token
    Guard fields and the fallback queue are as before, also after a
    completed re-authorization. *)
Theorem callback_contained (env : Env) (queryCode queryError : option string)
  (s : Sys) :
  exists page s',
    callback env queryCode queryError s = (Ok page, s')
    /\ svc s' = svc s
    /\ queueOf s' = queueOf s.
Proof.
  destruct (callback_noThrow env queryCode queryError s) as (page & s' & E).
  exists page, s'. split; [exact E|]. split.
  - apply (@callback_preserves env _ svc queryCode queryError
             (fun _ _ _ => eq_refl) (fun _ _ => eq_refl) _ _ _ E).
  - apply (@callback_preserves env _ queueOf queryCode queryError
             (fun _ _ _ => eq_refl) (fun _ _ => eq_refl) _ _ _ E).
Qed.





(** X15.  The [/test] route never throws and never answers 500 (the
    access test it wraps in a [try] cannot throw): it answers 400 exactly
    when no refresh token can be loaded, and otherwise 200 with the
    verdict of the access test: the body is
    [{success: accessOk, timestamp}] where [accessOk] is what
    [testGmailAccess] returns in the state the load left, that is, whether
    the provider answered [getProfile] there, and the timestamp is the
    time of the answer.  It changes nothing but the log. *)
Theorem oauthTest_answers (env : Env) (s : Sys) :
  exists resp s',
    oauthTest env s = (Ok resp, s')
    /\ (test_status resp = 400 \/ test_status resp = 200)
    /\ (test_status resp = 400 <-> fst (loadRefreshToken s) = Ok None)
    /\ (test_status resp = 400 <-> test_json resp = TestNoToken)
    /\ (test_status resp = 200 ->
        exists accessOk,
          (forall tok,
              fst (testGmailAccess env tok (snd (loadRefreshToken s)))
              = Ok accessOk)
          /\ test_json resp = TestReport accessOk (now (world s'))
          /\ (accessOk = true <->
              answer (env_getProfile env (world (snd (loadRefreshToken s))))
              = Ok tt))
    /\ svc s' = svc s
    /\ tokenFile s' = tokenFile s
    /\ queueOf s' = queueOf s.
Proof.
  unfold oauthTest, loadRefreshToken, testGmailAccess. mrun.
  destruct (tokenFile s) as [td|] eqn:Ef.
  - destruct (td_refreshToken td) as [|c rest] eqn:Et; simpl.
    + eexists _, _. split; [reflexivity|]. simpl.
      repeat split; auto; discriminate.
    + destruct (answer (env_getProfile env _)) as [[]|e] eqn:Ep;
        eexists _, _; (split; [reflexivity|]); simpl;
        (split; [auto|]);
        (split; [split; intros; [lia|discriminate]|]);
        (split; [split; intros; [lia|discriminate]|]);
        (split; [|repeat split; auto]);
        intros _; eexists; (split; [intros tok; reflexivity|]);
        (split; [reflexivity|]); split; intros; congruence.
  - eexists _, _. split; [reflexivity|]. simpl.
    repeat split; auto; discriminate.
Qed.

(** ** Fallback Queue: enqueueing and draining in general *)

Lemma handleFailedEmail_run (env : Env)
  (emailResponse : GmailEmailResponse) (userEmail userName msg : string)
  (type : EmailType) (s : Sys) :
  exists s',
    handleFailedEmail env emailResponse userEmail userName msg type s
    = (Ok tt, s')
    /\ failedEmails s'
       = (failedEmails s
          ++ [mkFailedEmail (nextRef s) userEmail userName msg
                (now (world s)) type])%list
    /\ nextRef s' = S (nextRef s)
    /\ svc s' = svc s
    /\ countEv is_failedEmailNotice (newEvents s s') = 1%nat
    /\ countEv is_reAuthNotice (newEvents s s')
       = (if authRelated emailResponse then 1%nat else 0%nat)
    /\ (authRelated emailResponse = true ->
        In (Telegram (ReAuthRequiredNotice (S (length (failedEmails s)))))
           (newEvents s s'))
    /\ countEv is_sentLine (newEvents s s') = 0%nat
    /\ grows (fun _ => true) s s'.
Proof.
  unfold handleFailedEmail, notifyFailedEmail, notifyReAuthRequired. mrun.
  destruct (answer (env_telegram env (FailedEmailNotice userEmail) _));
    destruct (authRelated emailResponse);
    cbv beta iota;
    cbn [nextRef with_nextRef with_failedEmails failedEmails world
         logEvent with_world];
    rewrite ?length_app; cbn [length]; rewrite ?Nat.add_1_r;
    try match goal with
        | |- context [answer (env_telegram env (ReAuthRequiredNotice ?n) ?w)] =>
            destruct (answer (env_telegram env (ReAuthRequiredNotice n) w))
        end;
    eexists; (split; [reflexivity|]);
    (split; [reflexivity|]); (split; [reflexivity|]);
    (split; [reflexivity|]);
    (split; [new_events; reflexivity|]);
    (split; [new_events; reflexivity|]);
    (split; [intros Ha; try discriminate Ha; new_events; simpl; auto|]);
    (split; [new_events; reflexivity|]);
    (eapply grows_intro; simpl; rewrite <- ?app_assoc; reflexivity).
Qed.

(** X16.  [handleFailedEmail] never throws (both notifications swallow
    their errors).  It appends exactly one entry, at the end of the queue,
    with the caller's data and the time of the call; it sends one
    failed-email notice, and one re-authorization notice for every
    auth-related outcome (this notice is not deduplicated), reporting the
    queue length that includes the new entry.  The Token Guard state is
    not touched. *)
Theorem handleFailedEmail_effects (env : Env)
  (emailResponse : GmailEmailResponse) (userEmail userName msg : string)
  (type : EmailType) (s : Sys) :
  exists s',
    handleFailedEmail env emailResponse userEmail userName msg type s
    = (Ok tt, s')
    /\ failedEmails s'
       = (failedEmails s
          ++ [mkFailedEmail (nextRef s) userEmail userName msg
                (now (world s)) type])%list
    /\ nextRef s' = S (nextRef s)
    /\ svc s' = svc s
    /\ countEv is_failedEmailNotice (newEvents s s') = 1%nat
    /\ countEv is_reAuthNotice (newEvents s s')
       = (if authRelated emailResponse then 1%nat else 0%nat)
    /\ (authRelated emailResponse = true ->
        In (Telegram (ReAuthRequiredNotice (S (length (failedEmails s)))))
           (newEvents s s')).
Proof.
  destruct (handleFailedEmail_run env emailResponse userEmail userName msg
              type s) as (s' & E & A & B & C & D & F & G & _).
  exists s'. auto 10.
Qed.

(** *** The clock *)

#[export] Instance clockAdvances_PreOrder : PreOrder clockAdvances.
Proof.
  split; unfold clockAdvances.
  - intros s. lia.
  - intros a b c. lia.
Qed.

Lemma backoffDelay_nonneg attempt : 0 <= backoffDelay attempt.
Proof.
  unfold backoffDelay.
  apply Z.mul_nonneg_nonneg; [apply Z.pow_nonneg|]; lia.
Qed.

Lemma clock_call A (ev : Event) (oracle : World -> Reply A) :
  keeps clockAdvances (call ev oracle).
Proof.
  intros s r s' H. inversion H; subst. unfold clockAdvances. simpl.
  pose proof (N2Z.is_nonneg (took (oracle (world s)))). lia.
Qed.

Ltac clock_prim :=
  intros; unfold clockAdvances, logEvent, with_world, with_svc,
    with_failedEmails, with_nextRef;
  cbn [now world];
  try match goal with
      | |- context [backoffDelay ?a] => pose proof (backoffDelay_nonneg a)
      end;
  lia.

Ltac clock_struct := keeps_struct clock_prim; try apply clock_call.

Section Clock.

Variable env : Env.

Lemma handleAuthError_clock : keeps clockAdvances (handleAuthError env).
Proof.
  unfold handleAuthError, notifyAuthError, emit, set_notificationSent.
  clock_struct.
Qed.

Lemma validateToken_clock : keeps clockAdvances (validateToken env).
Proof.
  pose proof handleAuthError_clock.
  unfold validateToken, emit, dateNow, set_isTokenValid, set_lastTokenCheck.
  clock_struct.
Qed.

Lemma attemptOnce_clock options maxRetries attempt :
  keeps clockAdvances (attemptOnce env options maxRetries attempt).
Proof.
  pose proof handleAuthError_clock.
  unfold attemptOnce, attemptBody, attemptCatch, emit, sleep, dateNow,
    set_isTokenValid, set_notificationSent.
  clock_struct.
Qed.

Lemma sendLoop_clock options maxRetries remaining :
  forall attempt,
    keeps clockAdvances (sendLoop env options maxRetries remaining attempt).
Proof.
  induction remaining as [|remaining IH]; intros attempt; cbn [sendLoop].
  - unfold dateNow. clock_struct.
  - apply keeps_bind; [typeclasses eauto | apply attemptOnce_clock |].
    intros [resp|]; [apply keeps_ret; typeclasses eauto | apply IH].
Qed.

Lemma sendEmail_clock options maxRetries :
  keeps clockAdvances (sendEmail env options maxRetries).
Proof.
  unfold sendEmail.
  apply keeps_bind; [typeclasses eauto | apply validateToken_clock |].
  intros [|]; simpl.
  - apply sendLoop_clock.
  - unfold dateNow. clock_struct.
Qed.

Lemma resend_clock fe : keeps clockAdvances (resend (gmailService env) fe).
Proof.
  unfold resend. destruct (fe_type fe); simpl.
  - unfold sendConfirmationEmail.
    apply keeps_bind; [typeclasses eauto | apply clock_call |].
    intros. apply sendEmail_clock.
  - unfold sendSupportResponse. apply sendEmail_clock.
Qed.

End Clock.

(** Removing entries keeps the remaining identities distinct. *)
Lemma distinctRefs_filter (keep : FailedEmail -> bool) (q : list FailedEmail) :
  distinctRefs q -> distinctRefs (filter keep q).
Proof.
  unfold distinctRefs. intros ND.
  induction q as [|fe q IH]; cbn [filter map]; [constructor|].
  cbn [map] in ND. apply NoDup_cons_iff in ND. destruct ND as [Hnew Hq].
  destruct (keep fe); cbn [map]; [|now apply IH].
  apply NoDup_cons; [|now apply IH].
  intros Hin. apply Hnew. apply in_map_iff in Hin.
  destruct Hin as (other & Href & Hother).
  apply filter_In in Hother. apply in_map_iff. exists other. tauto.
Qed.

Lemma queueWf_filter keep s s' :
  failedEmails s' = filter keep (failedEmails s) ->
  nextRef s' = nextRef s ->
  queueWf s -> queueWf s'.
Proof.
  intros Eq En [ND Hlt]. unfold queueWf, distinctRefs. rewrite Eq, En. split.
  - now apply distinctRefs_filter.
  - intros fe Hin. apply filter_In in Hin. apply Hlt. tauto.
Qed.

Lemma gmailEvent_not_report ev :
  gmailEvent ev = true -> negb (is_retryReport ev) = true.
Proof.
  destruct ev; try reflexivity; try discriminate.
  destruct n; try reflexivity; discriminate.
Qed.

Section DrainInGeneral.

Variable env : Env.

(** The loop over a snapshot, whatever the resends do: it returns, every
    entry is counted once, the live list only loses entries, one second
    at least passes per entry, and no report is sent from inside. *)
Lemma retryLoop_general snapshot :
  forall results s,
    exists results' s' keep,
      retryLoop (gmailService env) snapshot results s = (Ok results', s')
      /\ failedEmails s' = filter keep (failedEmails s)
      /\ nextRef s' = nextRef s
      /\ (fst results' + snd results'
          = fst results + snd results + length snapshot)%nat
      /\ now (world s) + 1000 * Z.of_nat (length snapshot) <= now (world s')
      /\ grows (fun ev => negb (is_retryReport ev)) s s'.
Proof.
  induction snapshot as [|fe rest IH]; intros results s.
  - exists results, s, (fun _ => true). simpl.
    split; [reflexivity|]. split; [symmetry; apply filter_all; auto|].
    split; [reflexivity|]. split; [lia|]. split; [lia|apply grows_refl].
  - cbn [retryLoop]. unfold bind at 1. unfold try_catch. unfold bind at 1.
    destruct (resend (gmailService env) fe s) as [[resp|e] s1] eqn:Er;
      pose proof (@resend_queue env fe _ _ _ Er) as Fq;
      pose proof (@resend_grows env fe _ _ _ Er) as Gq;
      pose proof (@resend_clock env fe _ _ _ Er) as Cq;
      apply (@grows_weaken gmailEvent (fun ev => negb (is_retryReport ev)))
        in Gq; try exact gmailEvent_not_report;
      unfold preserves, queueOf in Fq; inversion Fq as [[Fq1 Fq2]];
      unfold clockAdvances in Cq.
    + destruct (success resp) eqn:Es; mrun;
        match goal with
        | |- context [retryLoop _ rest ?res ?st] =>
            destruct (IH res st)
              as (results' & s' & keep & E & Fs & Ns & Cs & Ts & G)
        end;
        rewrite E; cbn [fst snd] in Cs;
        cbn [failedEmails nextRef world now logEvent with_world
             with_failedEmails] in Fs, Ns, Ts.
      * exists results', s',
          (fun x => (negb (Nat.eqb (ref x) (ref fe)) && keep x)%bool).
        split; [reflexivity|]. split.
        { rewrite Fs. unfold removeEntry. rewrite Fq1.
          apply filter_filter. }
        split; [congruence|]. split; [simpl; lia|].
        split; [cbn [length]; lia|].
        eapply grows_trans; [exact Gq|].
        eapply grows_trans; [|exact G].
        eapply grows_trans; [|apply grows_logEvent; reflexivity].
        eapply grows_trans; [|apply grows_logEvent; reflexivity].
        exists []. simpl. now rewrite app_nil_r.
      * exists results', s', keep.
        split; [reflexivity|]. split; [now rewrite Fs, Fq1|].
        split; [congruence|]. split; [simpl; lia|].
        split; [cbn [length]; lia|].
        eapply grows_trans; [exact Gq|].
        eapply grows_trans; [|exact G].
        eapply grows_trans; [|apply grows_logEvent; reflexivity].
        apply grows_logEvent; reflexivity.
    + mrun.
      match goal with
      | |- context [retryLoop _ rest ?res ?st] =>
          destruct (IH res st)
            as (results' & s' & keep & E & Fs & Ns & Cs & Ts & G)
      end.
      rewrite E. cbn [fst snd] in Cs.
      cbn [failedEmails nextRef world now logEvent with_world
           with_failedEmails] in Fs, Ns, Ts.
      exists results', s', keep.
      split; [reflexivity|]. split; [now rewrite Fs, Fq1|].
      split; [congruence|]. split; [simpl; lia|].
      split; [cbn [length]; lia|].
      eapply grows_trans; [exact Gq|].
      eapply grows_trans; [|exact G].
      eapply grows_trans; [|apply grows_logEvent; reflexivity].
      apply grows_logEvent; reflexivity.
Qed.

Lemma retryFailedEmails_general s :
  exists s' keep,
    retryFailedEmails env (gmailService env) s = (Ok tt, s')
    /\ failedEmails s' = filter keep (failedEmails s)
    /\ nextRef s' = nextRef s
    /\ now (world s) + 1000 * Z.of_nat (length (failedEmails s))
       <= now (world s')
    /\ countEv is_retryReport (newEvents s s')
       = (if Nat.eqb (length (failedEmails s)) 0 then 0%nat else 1%nat)
    /\ grows (fun _ => true) s s'.
Proof.
  unfold retryFailedEmails. unfold bind at 1. unfold gets.
  destruct (failedEmails s) as [|fe0 q0] eqn:Eq.
  - exists (logEvent 0 (Console (LogOther "No failed emails to retry")) s),
      (fun _ => true).
    simpl. rewrite Eq. repeat split; try lia.
    + new_events. reflexivity.
    + now apply grows_logEvent.
  - cbn [length Nat.eqb]. unfold bind at 1. unfold emit, modify.
    unfold bind at 1.
    set (s0 := logEvent 0 (Console (LogOther "Retrying failed emails...")) s).
    destruct (retryLoop_general (fe0 :: q0) (0%nat, 0%nat) s0)
      as (results' & s1 & keep & E & Fs & Ns & _ & Ts & (new & El & Fl)).
    rewrite E.
    unfold notifyRetryResults, try_catch. mrun.
    assert (Hcount : countEv is_retryReport new = 0%nat).
    { unfold countEv.
      rewrite (@forallb_filter_none _ (fun ev => negb (is_retryReport ev))
                 _ new Fl); auto.
      intros ev Hev. now apply negb_true_iff in Hev. }
    subst s0.
    cbn [failedEmails nextRef world now log logEvent with_world] in Fs, Ns, Ts, El.
    rewrite Eq in Fs.
    destruct (answer (env_telegram env _ (world s1)));
      eexists; exists keep; (split; [reflexivity|]);
      cbn [failedEmails nextRef world now logEvent with_world];
      (split; [exact Fs|]); (split; [exact Ns|]);
      (split; [cbn [length] in Ts |- *; lia|]);
      (split;
       [ erewrite newEvents_app;
         [|cbn [world logEvent with_world log]; rewrite El;
           rewrite <- !app_assoc; reflexivity];
         rewrite !countEv_app, Hcount; reflexivity
       | eapply grows_intro; cbn [world logEvent with_world log];
         rewrite El, <- !app_assoc; reflexivity ]).
Qed.

End DrainInGeneral.

(** X17.  [retryFailedEmails] over the real service never throws, whatever
    the provider and the chat API do.  It allocates nothing and only
    removes entries (what is left is a sub-list of the queue, in the same
    order), it takes at least one second per queued entry, and it reports
    once if the queue was not empty and not at all if it was. *)
Theorem retryFailedEmails_contained (env : Env) (s : Sys) :
  exists s' keep,
    retryFailedEmails env (gmailService env) s = (Ok tt, s')
    /\ failedEmails s' = filter keep (failedEmails s)
    /\ nextRef s' = nextRef s
    /\ now (world s) + 1000 * Z.of_nat (length (failedEmails s))
       <= now (world s')
    /\ countEv is_retryReport (newEvents s s')
       = (if Nat.eqb (length (failedEmails s)) 0 then 0%nat else 1%nat).
Proof.
  destruct (retryFailedEmails_general env s)
    as (s' & keep & E & A & B & C & D & _).
  exists s', keep. auto.
Qed.

(** X18.  The auto-retry timer callback never throws.  With an empty
    queue it does nothing at all: no event and no state change (the
    [No failed emails to retry] branch of [retryFailedEmails] is never
    taken from the timer).  With a non-empty queue it is one drain,
    reported once. *)
Theorem autoRetryTick_contained (env : Env) (s : Sys) :
  exists s',
    autoRetryTick env (gmailService env) s = (Ok tt, s')
    /\ (failedEmails s = [] -> s' = s)
    /\ (failedEmails s <> [] ->
        countEv is_retryReport (newEvents s s') = 1%nat
        /\ (length (failedEmails s') <= length (failedEmails s))%nat).
Proof.
  unfold autoRetryTick, getFailedEmailsCount. mrun.
  destruct (failedEmails s) as [|fe0 q0] eqn:Eq.
  - exists s. simpl. split; [reflexivity|]. split; [reflexivity|].
    intros H. now elim H.
  - cbn [length Nat.ltb Nat.leb].
    set (s0 := logEvent 0 (Console (LogOther "Auto-retry starting")) s).
    destruct (retryFailedEmails_general env s0)
      as (s' & keep & E & Fs & _ & _ & C & (new & El & _)).
    rewrite E. exists s'. split; [reflexivity|].
    split; [discriminate|]. intros _.
    rewrite (@newEvents_app _ _ _ El) in C.
    subst s0. cbn [failedEmails logEvent with_world world log] in Fs, C, El.
    rewrite Eq in Fs, C. cbn [length Nat.eqb] in C.
    split.
    + erewrite newEvents_app
        by (rewrite El, <- !app_assoc; reflexivity).
      rewrite countEv_app, C. reflexivity.
    + rewrite Fs. apply filter_length_le.
Qed.

(** ** Invariants over sequences of operations *)

#[export] Instance wfStep_PreOrder : PreOrder wfStep.
Proof. split; unfold wfStep; [intros s; auto | intros a b c; auto]. Qed.

#[export] Instance guardStep_PreOrder : PreOrder guardStep.
Proof. split; unfold guardStep; [intros s; auto | intros a b c; auto]. Qed.

Lemma wfStep_of_queue s s' : preserves queueOf s s' -> wfStep s s'.
Proof.
  unfold preserves, queueOf, wfStep, queueWf. intros E. inversion E as [[E1 E2]].
  now rewrite E1, E2.
Qed.

Lemma guardStep_of_svc s s' : preserves svc s s' -> guardStep s s'.
Proof.
  unfold preserves, guardStep, guardConsistent. intros E. now rewrite E.
Qed.

Lemma keeps_weaken A (R Q : Sys -> Sys -> Prop) (m : M A) :
  (forall s s', R s s' -> Q s s') -> keeps R m -> keeps Q m.
Proof. intros H K s r s' E. apply H. eapply K; eauto. Qed.

(** Structural decomposition with a stock of lemmas on sub-computations. *)
Ltac keeps_with known prim :=
  repeat first
    [ assumption
    | solve [known]
    | apply keeps_ret; typeclasses eauto
    | apply keeps_throw; typeclasses eauto
    | apply keeps_eval; typeclasses eauto
    | apply keeps_gets; typeclasses eauto
    | apply keeps_bind; [ typeclasses eauto | | intros ]
    | apply keeps_try_catch; [ typeclasses eauto | | intros ]
    | apply keeps_modify; solve [prim]
    | apply keeps_call; solve [prim]
    | match goal with
      | |- keeps _ (if ?b then _ else _) => destruct b
      | |- keeps _ (match ?x with _ => _ end) => destruct x
      end ].

(** What the support route and the drain leave alone, given what the
    mail operations and the enqueueing leave alone. *)
Section ProcessFrame.

Context (R : Sys -> Sys -> Prop) `{HR : !PreOrder R}.
Variable env : Env.
Variable cfg : IndexConfig.

Hypothesis R_log : forall dt ev s, R s (logEvent dt ev s).
Hypothesis R_rate : forall f s, R s (with_rateStore f s).
Hypothesis R_remove : forall fe s, R s (with_failedEmails (removeEntry fe) s).
Hypothesis R_mail : forall options maxRetries,
    keeps R (sendEmail env options maxRetries).
Hypothesis R_enqueue : forall resp a b c t,
    keeps R (handleFailedEmail env resp a b c t).

Ltac frame_prim := intros; first [apply R_log | apply R_rate | apply R_remove].

Lemma sendMessageWithRetry_frame n maxRetries remaining :
  forall attempt,
    keeps R (sendMessageWithRetry env n maxRetries remaining attempt).
Proof.
  induction remaining as [|remaining IH]; intros attempt;
    cbn [sendMessageWithRetry].
  - apply keeps_ret. typeclasses eauto.
  - unfold emit, sleep.
    apply keeps_bind; [typeclasses eauto | | ].
    + keeps_struct frame_prim.
    + intros [result|]; [apply keeps_ret; typeclasses eauto | apply IH].
Qed.

Lemma sendConfirmationEmail_frame' a b c d :
  keeps R (sendConfirmationEmail env a b c d).
Proof.
  unfold sendConfirmationEmail.
  apply keeps_bind; [typeclasses eauto | apply keeps_call; frame_prim |].
  intros. apply R_mail.
Qed.

Lemma resend_frame' fe : keeps R (resend (gmailService env) fe).
Proof.
  unfold resend. destruct (fe_type fe); simpl.
  - apply sendConfirmationEmail_frame'.
  - unfold sendSupportResponse. apply R_mail.
Qed.

Lemma webhookSupport_frame req : keeps R (webhookSupport env cfg req).
Proof.
  unfold webhookSupport, emit, dateNow.
  keeps_with
    ltac:(first [ apply sendMessageWithRetry_frame
                | apply sendConfirmationEmail_frame'
                | apply R_enqueue ])
    frame_prim.
Qed.

Lemma supportRoute_frame clientKey req :
  keeps R (supportRoute env cfg clientKey req).
Proof.
  unfold supportRoute, dateNow.
  keeps_with ltac:(apply webhookSupport_frame) frame_prim.
Qed.

Lemma retryLoop_frame snapshot :
  forall results, keeps R (retryLoop (gmailService env) snapshot results).
Proof.
  induction snapshot as [|fe rest IH]; intros results; cbn [retryLoop].
  - apply keeps_ret. typeclasses eauto.
  - unfold emit, sleep.
    keeps_with ltac:(first [apply resend_frame' | apply IH]) frame_prim.
Qed.

Lemma retryFailedEmails_frame :
  keeps R (retryFailedEmails env (gmailService env)).
Proof.
  unfold retryFailedEmails, notifyRetryResults, emit.
  keeps_with ltac:(apply retryLoop_frame) frame_prim.
Qed.

Lemma autoRetryTick_frame :
  keeps R (autoRetryTick env (gmailService env)).
Proof.
  unfold autoRetryTick, getFailedEmailsCount, emit.
  keeps_with ltac:(apply retryFailedEmails_frame) frame_prim.
Qed.

End ProcessFrame.

(** *** The Token Guard stays consistent *)

Section GuardInvariant.

Variable env : Env.

(** After [handleAuthError] the flag is raised, whatever happened. *)
Lemma handleAuthError_raises s r s' :
  handleAuthError env s = (r, s') -> notificationSent (svc s') = true.
Proof.
  unfold handleAuthError, notifyAuthError. mrun.
  cbn [svc logEvent with_world notificationSent].
  destruct (notificationSent (svc s)) eqn:F; cbn [negb].
  - intros H; inversion H; subst. exact F.
  - destruct (env_botConfigured env).
    + destruct (answer (env_telegram env AuthErrorNotice _));
        destruct (env_hasReAuthCallback env);
        intros H; inversion H; subst; reflexivity.
    + destruct (env_hasReAuthCallback env);
        intros H; inversion H; subst; reflexivity.
Qed.

Lemma guard_raised s : notificationSent (svc s) = true -> guardConsistent s.
Proof. intros H _. exact H. Qed.

Lemma guard_valid s : isTokenValid (svc s) = true -> guardConsistent s.
Proof. intros H Hf. congruence. Qed.

(** The [catch] pattern shared by the three operations: classify, and on
    an auth-class error invalidate and escalate. *)
Ltac guard_catch_with H G pre :=
  match type of H with
  | context [isAuthenticationError ?e] =>
      destruct (isAuthenticationError e) as [[|]|?e']
  end;
  [ match type of H with
    | context [handleAuthError env ?st] =>
        let Eh := fresh "Eh" in
        destruct (handleAuthError env st) as [[[]|?e''] ?s2] eqn:Eh;
        apply handleAuthError_raises in Eh;
        inversion H; subst; clear H;
        apply guard_raised; exact Eh
    end
  | pre; inversion H; subst; clear H; exact G
  | inversion H; subst; clear H; exact G ].

Ltac guard_catch H G := guard_catch_with H G idtac.

Lemma validateToken_guard : keeps guardStep (validateToken env).
Proof.
  intros s r s' H G. unfold validateToken in H. mrun.
  destruct (isTokenValid (svc s) && _)%bool;
    [inversion H; subst; exact G|].
  destruct (answer (env_getAccessToken env (world s))) as [tok|e1].
  - destruct (falsy tok).
    + guard_catch H G.
    + destruct (answer (env_getProfile env _)) as [[]|e2].
      * inversion H; subst; clear H. now apply guard_valid.
      * guard_catch H G.
  - guard_catch H G.
Qed.

Lemma attemptOnce_guard options maxRetries attempt :
  keeps guardStep (attemptOnce env options maxRetries attempt).
Proof.
  intros s r s' H G. unfold attemptOnce, try_catch in H.
  destruct (attemptBody env options attempt s) as [[x|e] s1] eqn:Eb.
  - inversion H; subst; clear H. apply guard_valid.
    revert Eb. unfold attemptBody. mrun.
    destruct (answer (env_getAccessToken env _)); [|discriminate].
    destruct (answer (env_messagesSend env options _)); [|discriminate].
    intros H; inversion H; subst. reflexivity.
  - destruct (@attemptBody_throws env options attempt s e s1 Eb) as [Hs _].
    assert (G1 : guardConsistent s1)
      by (unfold guardConsistent; now rewrite Hs).
    unfold attemptCatch in H. mrun.
    destruct (isRetryableError e) as [retryable|e0];
      [|inversion H; subst; exact G1].
    guard_catch_with H G1
      ltac:(destruct (Nat.eqb attempt maxRetries || negb retryable)%bool).
Qed.

Lemma sendLoop_guard options maxRetries remaining :
  forall attempt,
    keeps guardStep (sendLoop env options maxRetries remaining attempt).
Proof.
  induction remaining as [|remaining IH]; intros attempt; cbn [sendLoop].
  - unfold dateNow. keeps_struct ltac:(intros; apply guardStep_of_svc; reflexivity).
  - apply keeps_bind; [typeclasses eauto | apply attemptOnce_guard |].
    intros [resp|]; [apply keeps_ret; typeclasses eauto | apply IH].
Qed.

Lemma sendEmail_guard options maxRetries :
  keeps guardStep (sendEmail env options maxRetries).
Proof.
  unfold sendEmail.
  apply keeps_bind; [typeclasses eauto | apply validateToken_guard |].
  intros [|]; simpl.
  - apply sendLoop_guard.
  - unfold dateNow. keeps_struct ltac:(intros; apply guardStep_of_svc; reflexivity).
Qed.

Lemma refreshToken_guard : keeps guardStep (refreshToken env).
Proof.
  intros s r s' H G. unfold refreshToken, try_catch in H.
  unfold bind at 1 in H. unfold emit, modify in H.
  unfold bind at 1 in H. unfold call in H.
  destruct (answer (env_refreshAccessToken env _)) as [[]|e1].
  - unfold bind at 1 in H.
    match type of H with
    | context [validateToken env ?st] =>
        destruct (validateToken env st) as [[[|]|e2] s2] eqn:Ev;
        pose proof (@validateToken_guard st _ _ Ev G) as G2
    end; mrun.
    + inversion H; subst; clear H. now apply guard_valid.
    + inversion H; subst; clear H. exact G2.
    + guard_catch H G2.
  - mrun. guard_catch H G.
Qed.

Lemma refreshToken_queue : keeps (preserves queueOf) (refreshToken env).
Proof.
  pose proof (@validateToken_frame (preserves queueOf) _
                (fun _ _ _ _ => eq_refl) (fun _ _ => eq_refl) env).
  pose proof (@handleAuthError_frame (preserves queueOf) _
                (fun _ _ _ _ => eq_refl) (fun _ _ => eq_refl) env).
  unfold refreshToken, emit, set_isTokenValid, set_notificationSent.
  keeps_struct preserves_prim.
Qed.

Lemma testConnection_preserves A (f : Sys -> A) :
  (forall dt ev s, f (logEvent dt ev s) = f s) ->
  keeps (preserves f) (testConnection env).
Proof.
  intros Hlog. unfold testConnection, emit.
  keeps_struct ltac:(intros; unfold preserves; apply Hlog).
Qed.

Lemma monitorTick_guard : keeps guardStep (monitorTick env).
Proof.
  pose proof refreshToken_guard.
  pose proof (@keeps_weaken _ _ _ _ guardStep_of_svc
                (@testConnection_preserves _ svc (fun _ _ _ => eq_refl))).
  unfold monitorTick, emit.
  keeps_struct ltac:(intros; apply guardStep_of_svc; reflexivity).
Qed.

Lemma monitorTick_queue : keeps (preserves queueOf) (monitorTick env).
Proof.
  pose proof refreshToken_queue.
  pose proof (@testConnection_preserves _ queueOf (fun _ _ _ => eq_refl)).
  unfold monitorTick, emit.
  keeps_struct preserves_prim.
Qed.

Lemma handleFailedEmail_svc resp a b c t :
  keeps (preserves svc) (handleFailedEmail env resp a b c t).
Proof.
  unfold handleFailedEmail, notifyFailedEmail, notifyReAuthRequired, emit,
    dateNow.
  keeps_struct preserves_prim.
Qed.

End GuardInvariant.

Lemma sendEmail_queue env options maxRetries :
  keeps (preserves queueOf) (sendEmail env options maxRetries).
Proof.
  apply sendEmail_frame; [typeclasses eauto | reflexivity | reflexivity].
Qed.

Lemma runComponentOp_wf env cfg op s : wfStep s (runComponentOp env cfg op s).
Proof.
  assert (Hmail : forall options maxRetries,
             keeps wfStep (sendEmail env options maxRetries)).
  { intros. eapply keeps_weaken; [apply wfStep_of_queue|].
    apply sendEmail_queue. }
  assert (Hq : forall resp a b c t,
             keeps wfStep (handleFailedEmail env resp a b c t)).
  { intros resp a b c t s0 r s' E W.
    eapply handleFailedEmail_queueWf; eauto. }
  assert (Hrm : forall fe s0, wfStep s0 (with_failedEmails (removeEntry fe) s0)).
  { intros fe s0 W. eapply queueWf_filter; [| |exact W]; reflexivity. }
  destruct op; cbn [runComponentOp];
    try match goal with
        | |- wfStep s (snd ?m) => destruct m as [r s'] eqn:E; cbn [snd]
        end.
  - eapply (@supportRoute_frame wfStep _ env cfg); eauto;
      intros; apply wfStep_of_queue; reflexivity.
  - apply wfStep_of_queue.
    eapply (@callback_preserves env _ queueOf); eauto.
  - apply wfStep_of_queue. eapply monitorTick_queue; eauto.
  - eapply (@autoRetryTick_frame wfStep _ env); eauto;
      intros; apply wfStep_of_queue; reflexivity.
  - eapply (@retryFailedEmails_frame wfStep _ env); eauto;
      intros; apply wfStep_of_queue; reflexivity.
  - inversion E; subst. intros _. split; [constructor | intros fe []].
  - eapply Hmail; eauto.
  - apply wfStep_of_queue. reflexivity.
Qed.

Lemma runComponentOp_guard env cfg op s : guardStep s (runComponentOp env cfg op s).
Proof.
  assert (Hq : forall resp a b c t,
             keeps guardStep (handleFailedEmail env resp a b c t)).
  { intros. eapply keeps_weaken; [apply guardStep_of_svc|].
    apply handleFailedEmail_svc. }
  destruct op; cbn [runComponentOp];
    try match goal with
        | |- guardStep s (snd ?m) => destruct m as [r s'] eqn:E; cbn [snd]
        end.
  - eapply (@supportRoute_frame guardStep _ env cfg); eauto;
      try (intros; apply guardStep_of_svc; reflexivity).
    apply sendEmail_guard.
  - apply guardStep_of_svc.
    eapply (@callback_preserves env _ svc); eauto.
  - eapply monitorTick_guard; eauto.
  - eapply (@autoRetryTick_frame guardStep _ env); eauto;
      try (intros; apply guardStep_of_svc; reflexivity).
    apply sendEmail_guard.
  - eapply (@retryFailedEmails_frame guardStep _ env); eauto;
      try (intros; apply guardStep_of_svc; reflexivity).
    apply sendEmail_guard.
  - inversion E; subst. intros W. exact W.
  - eapply sendEmail_guard; eauto.
  - apply guardStep_of_svc. reflexivity.
Qed.

(** X19.  After any sequence of operations of the components, run one
    after another from start-up against any provider (support requests of
    any clients, with the route's mail branch on or off, callback
    requests, monitor and auto-retry ticks, drains, clears, support
    replies, and idle time in between), the queue holds pairwise distinct
    objects, all allocated before [nextRef]: the premise of the drain
    theorem holds.  The runs of the program as [index.ts] wires it (mail
    branch off, no auto-retry timer) are among these sequences. *)
Theorem queue_wellformed_after_any_operations (env : Env)
  (cfg : IndexConfig) (ops : list ComponentOp) (t0 : Z) :
  queueWf (runComponentOps env cfg ops (startState t0)).
Proof.
  unfold runComponentOps.
  assert (H : forall s, queueWf s ->
              queueWf (fold_left (fun st op => runComponentOp env cfg op st)
                         ops s)).
  { induction ops as [|op ops IH]; intros s W; simpl; [exact W|].
    apply IH. now apply runComponentOp_wf. }
  apply H. apply startState_queueWf.
Qed.

(** X20.  After any such sequence of operations, whenever [isTokenValid]
    is [false] the flag [notificationSent] is raised, so a status object
    with [needsReAuth] is only ever returned with the flag raised.  (The
    flag may have been raised by an earlier failure and left raised since:
    this says nothing about a notification for the latest failure.) *)
Theorem guard_consistent_after_any_operations (env : Env)
  (cfg : IndexConfig) (ops : list ComponentOp) (t0 : Z) :
  guardConsistent (runComponentOps env cfg ops (startState t0))
  /\ (needsReAuth (getTokenStatus (svc (runComponentOps env cfg ops (startState t0))))
      = true ->
      notificationSent (svc (runComponentOps env cfg ops (startState t0))) = true).
Proof.
  assert (H : forall s, guardConsistent s ->
              guardConsistent (runComponentOps env cfg ops s)).
  { unfold runComponentOps.
    induction ops as [|op ops IH]; intros s W; simpl; [exact W|].
    apply IH. now apply runComponentOp_guard. }
  assert (G : guardConsistent (runComponentOps env cfg ops (startState t0))).
  { apply H. intros Hf. discriminate Hf. }
  split; [exact G|].
  unfold getTokenStatus. cbn [needsReAuth]. intros Hn.
  apply G. now apply negb_true_iff.
Qed.

(** ** The chat message of the support route *)

Section ChatRetry.

Variable env : Env.
Variable n : Notice.

Lemma sendMessageWithRetry_run maxRetries remaining :
  forall attempt s r s',
    (attempt + remaining = maxRetries + 1)%nat ->
    sendMessageWithRetry env n maxRetries remaining attempt s = (r, s') ->
    exists new,
      log (world s') = (log (world s) ++ new)%list
      /\ forallb is_chatEvent new = true
      /\ (countEv is_telegram new <= remaining)%nat
      /\ (countEv is_sleep new <= remaining - 1)%nat
      /\ (forall e, r = Throw e ->
            exists w, answer (env_telegram env n w) = Throw e)
      /\ (forall x, r = Ok x ->
            (remaining = 0%nat /\ x = None)
            \/ exists w, answer (env_telegram env n w) = Ok x)
      /\ svc s' = svc s
      /\ queueOf s' = queueOf s.
Proof.
  induction remaining as [|remaining IH]; intros attempt s r s' Hsum.
  - simpl. intros H. inversion H; subst. exists [].
    rewrite app_nil_r. repeat split; auto; try discriminate.
    intros x Hx. inversion Hx. now left.
  - cbn [sendMessageWithRetry]. mrun.
    destruct (answer (env_telegram env n (world s))) as [result|e] eqn:Ea.
    + intros H. inversion H; subst; clear H.
      exists [Telegram n; Console (LogOther "Message sent successfully")].
      split; [simpl; rewrite <- !app_assoc; reflexivity|].
      unfold countEv; simpl.
      repeat split; try lia; try discriminate.
      intros x Hx. inversion Hx; subst. right. eauto.
    + destruct (Nat.eqb attempt maxRetries) eqn:El; cbn [orb].
      * intros H. inversion H; subst; clear H.
        exists [Telegram n; Console (LogOther "Attempt failed")].
        split; [simpl; rewrite <- !app_assoc; reflexivity|].
        unfold countEv; simpl.
        repeat split; try lia; try discriminate.
        intros e0 He. inversion He; subst. eauto.
      * destruct (telegramRetryable e); cbn [negb].
        -- apply Nat.eqb_neq in El.
           destruct remaining as [|remaining]; [exfalso; lia|].
           intros H.
           match type of H with
           | sendMessageWithRetry _ _ _ _ _ ?st = _ =>
               destruct (IH (S attempt) st r s')
                 as (new & L & F & Ct & Cs & Pt & Po & Sv & Sq);
               [lia | exact H |]
           end.
           exists ([Telegram n; Console (LogOther "Attempt failed");
                    Console (LogRetrying (backoffDelay attempt));
                    Sleep (backoffDelay attempt)] ++ new)%list.
           split; [rewrite L; simpl; rewrite <- !app_assoc; reflexivity|].
           split; [rewrite forallb_app, F; reflexivity|].
           rewrite !countEv_app.
           change (countEv is_telegram
                     [Telegram n; Console (LogOther "Attempt failed");
                      Console (LogRetrying (backoffDelay attempt));
                      Sleep (backoffDelay attempt)]) with 1%nat.
           change (countEv is_sleep
                     [Telegram n; Console (LogOther "Attempt failed");
                      Console (LogRetrying (backoffDelay attempt));
                      Sleep (backoffDelay attempt)]) with 1%nat.
           repeat split; try lia; try assumption.
           intros x Hx. destruct (Po x Hx) as [[Hz _]|Hw];
             [discriminate Hz | now right].
        -- intros H. inversion H; subst; clear H.
           exists [Telegram n; Console (LogOther "Attempt failed")].
           split; [simpl; rewrite <- !app_assoc; reflexivity|].
           unfold countEv; simpl.
           repeat split; try lia; try discriminate.
           intros e0 He. inversion He; subst. eauto.
Qed.

End ChatRetry.

(** X21.  [sendMessageWithRetry] with [maxRetries] attempts calls the chat
    API at most [maxRetries] times and waits at most [maxRetries - 1]
    times.  What it returns is what a call of the chat API returned
    ([undefined] only when the loop did not run), and what it throws is
    an error a call of the chat API threw.  It touches neither the Token
    Guard nor the queue. *)
Theorem sendMessageWithRetry_bounded (env : Env) (n : Notice)
  (maxRetries : nat) (s s' : Sys) (r : Res (option Z)) :
  sendMessageWithRetry env n maxRetries maxRetries 1 s = (r, s') ->
  (countEv is_telegram (newEvents s s') <= maxRetries)%nat
  /\ (countEv is_sleep (newEvents s s') <= maxRetries - 1)%nat
  /\ (forall e, r = Throw e ->
        exists w, answer (env_telegram env n w) = Throw e)
  /\ (forall x, r = Ok x ->
        (maxRetries = 0%nat /\ x = None)
        \/ exists w, answer (env_telegram env n w) = Ok x)
  /\ svc s' = svc s
  /\ queueOf s' = queueOf s.
Proof.
  intros H.
  destruct (@sendMessageWithRetry_run env n maxRetries maxRetries 1%nat
              s r s' ltac:(lia) H)
    as (new & L & _ & Ct & Cs & Pt & Po & Sv & Sq).
  rewrite (@newEvents_app _ _ _ L). auto 10.
Qed.

Lemma sendMessageWithRetry_bounded_witness :
  fst (sendMessageWithRetry envChatBusy SupportRequestNotice 3 3 1
         (startState 0))
  = Throw errTooManyRequests
  /\ (countEv is_telegram
        (newEvents (startState 0)
           (snd (sendMessageWithRetry envChatBusy SupportRequestNotice 3 3 1
                   (startState 0)))) <= 3)%nat.
Proof.
  split; [vm_compute; reflexivity|].
  apply (@sendMessageWithRetry_bounded envChatBusy SupportRequestNotice 3
           (startState 0)
           (snd (sendMessageWithRetry envChatBusy SupportRequestNotice 3 3 1
                   (startState 0)))
           (Throw errTooManyRequests)).
  vm_compute. reflexivity.
Defined.

(** ** The support route: a confirmation is sent or queued *)

Lemma sentLine_loopEvent ev : is_sentLine ev = true -> is_loopEvent ev = true.
Proof.
  destruct ev; try discriminate. destruct c; try discriminate. reflexivity.
Qed.

Lemma quiet_sent l :
  forallb notLoopEvent l = true -> countEv is_sentLine l = 0%nat.
Proof.
  intros H. apply notLoopEvent_countEv; auto. apply sentLine_loopEvent.
Qed.

Lemma chat_sent l :
  forallb is_chatEvent l = true -> countEv is_sentLine l = 0%nat.
Proof.
  intros H. unfold countEv.
  rewrite (@forallb_filter_none _ is_chatEvent is_sentLine l H); auto.
  intros ev Hev. destruct ev; try discriminate; try reflexivity.
  destruct c; try discriminate; reflexivity.
Qed.

Section SentLines.

Variable env : Env.

Lemma attemptOnce_sent options maxRetries attempt s r s' :
  attemptOnce env options maxRetries attempt s = (r, s') ->
  exists new,
    log (world s') = (log (world s) ++ new)%list
    /\ countEv is_sentLine new
       = match r with
         | Ok (Some resp) => if success resp then 1%nat else 0%nat
         | _ => 0%nat
         end.
Proof.
  unfold attemptOnce, try_catch.
  destruct (attemptBody env options attempt s) as [[x|e] s1] eqn:Eb.
  - intros H. inversion H; subst; clear H.
    unfold attemptBody in Eb. mrun.
    destruct (answer (env_getAccessToken env (world s))); [|discriminate].
    destruct (answer (env_messagesSend env options _)); [|discriminate].
    inversion Eb; subst; clear Eb.
    exists [GetAccessToken; MessagesSend options; Console (LogSent attempt)].
    split; [simpl; rewrite <- !app_assoc; reflexivity|reflexivity].
  - assert (Hcalls : exists calls,
               log (world s1) = (log (world s) ++ calls)%list
               /\ countEv is_sentLine calls = 0%nat).
    { destruct (@attemptBody_throws env options attempt s e s1 Eb)
        as [_ [E|E]]; eexists; (split; [exact E|reflexivity]). }
    destruct Hcalls as (calls & Ec & Ca).
    unfold attemptCatch. mrun.
    destruct (isRetryableError e) as [b1|e1].
    2:{ intros H; inversion H; subst. exists calls. auto. }
    destruct (isAuthenticationError e) as [[|]|e2].
    3:{ intros H; inversion H; subst. exists calls. auto. }
    + match goal with
      | |- context [handleAuthError env ?st] =>
          destruct (handleAuthError env st) as [[[]|e3] s2] eqn:Eh;
          pose proof (@handleAuthError_quiet env st _ _ Eh) as [rest [Er Fr]]
      end;
        pose proof (quiet_sent rest Fr) as Rs;
        intros H; inversion H; subst; clear H;
        exists (calls ++ Console (LogAttemptFailed attempt) :: rest)%list;
        (split; [rewrite Er; simpl; rewrite Ec, <- !app_assoc; reflexivity|]);
        change (Console (LogAttemptFailed attempt) :: rest)
          with ([Console (LogAttemptFailed attempt)] ++ rest)%list;
        rewrite !countEv_app, Ca, Rs; reflexivity.
    + destruct (Nat.eqb attempt maxRetries || negb b1)%bool;
        intros H; inversion H; subst; clear H;
        eexists; (split; [simpl; rewrite Ec, <- !app_assoc; reflexivity|]);
        rewrite !countEv_app, Ca; reflexivity.
Qed.

Lemma sendLoop_sent options maxRetries remaining :
  forall attempt s r s',
    sendLoop env options maxRetries remaining attempt s = (r, s') ->
    exists new,
      log (world s') = (log (world s) ++ new)%list
      /\ countEv is_sentLine new = sentCount r.
Proof.
  induction remaining as [|remaining IH]; intros attempt s r s'.
  - simpl. mrun. intros H. inversion H; subst. exists [].
    rewrite app_nil_r. auto.
  - cbn [sendLoop]. unfold bind at 1.
    destruct (attemptOnce env options maxRetries attempt s) as [r1 s1] eqn:E1.
    destruct (@attemptOnce_sent options maxRetries attempt s r1 s1 E1)
      as (n1 & L1 & C1).
    destruct r1 as [[resp|]|e].
    + intros H. inversion H; subst; clear H. exists n1. auto.
    + intros H. destruct (IH (S attempt) s1 r s' H) as (n2 & L2 & C2).
      exists (n1 ++ n2)%list.
      split; [rewrite L2, L1; now rewrite app_assoc|].
      rewrite countEv_app, C1, C2. reflexivity.
    + intros H. inversion H; subst; clear H. exists n1. auto.
Qed.

Lemma sendEmail_sent options maxRetries s r s' :
  sendEmail env options maxRetries s = (r, s') ->
  exists new,
    log (world s') = (log (world s) ++ new)%list
    /\ countEv is_sentLine new = sentCount r.
Proof.
  unfold sendEmail. unfold bind at 1.
  destruct (validateToken env s) as [[b|e] s1] eqn:Ev;
    destruct (@validateToken_quiet env s _ _ Ev) as (n1 & L1 & F1);
    pose proof (quiet_sent n1 F1) as C1.
  - destruct b; cbn [negb].
    + intros H. destruct (sendLoop_sent _ _ _ _ _ H) as (n2 & L2 & C2).
      exists (n1 ++ n2)%list.
      split; [rewrite L2, L1; now rewrite app_assoc|].
      rewrite countEv_app, C1, C2. reflexivity.
    + mrun. intros H. inversion H; subst. exists n1. auto.
  - intros H. inversion H; subst. exists n1. auto.
Qed.

Lemma sendConfirmationEmail_sent a b c d s r s' :
  sendConfirmationEmail env a b c d s = (r, s') ->
  exists new,
    log (world s') = (log (world s) ++ new)%list
    /\ countEv is_sentLine new = sentCount r
    /\ queueOf s' = queueOf s.
Proof.
  intros H.
  pose proof (@sendConfirmationEmail_frame (preserves queueOf) _
                (fun _ _ _ _ => eq_refl) (fun _ _ => eq_refl)
                env a b c d _ _ _ H) as Q.
  revert H. unfold sendConfirmationEmail. unfold bind at 1. unfold call.
  destruct (answer (env_loadTemplate env (world s))) as [template|e].
  - intros H. destruct (sendEmail_sent _ _ _ H) as (n2 & L2 & C2).
    exists ([LoadTemplate] ++ n2)%list.
    split; [rewrite L2; simpl; now rewrite <- app_assoc|].
    rewrite countEv_app, C2. split; [reflexivity|exact Q].
  - intros H. inversion H; subst. exists [LoadTemplate].
    split; [reflexivity|]. split; [reflexivity|exact Q].
Qed.

(** The chat part of the support route: it cannot throw, and it leaves
    the queue and the Token Guard alone. *)
Lemma chat_part_run mail text s :
  exists s1 n1,
    try_catch
      (sentMessage <- sendMessageWithRetry env SupportRequestNotice 3 3 1 ;;
       if truthyId sentMessage then
         _ <- eval (createGmailUrl mail text) ;;
         _ <- call (Telegram SupportRequestEdit)
                (env_telegram env SupportRequestEdit) ;;
         ret tt
       else ret tt)
      (fun _ => emit (Console (LogOther "Telegram notification failed"))) s
    = (Ok tt, s1)
    /\ log (world s1) = (log (world s) ++ n1)%list
    /\ forallb is_chatEvent n1 = true
    /\ queueOf s1 = queueOf s
    /\ svc s1 = svc s.
Proof.
  unfold try_catch. unfold bind at 1.
  destruct (sendMessageWithRetry env SupportRequestNotice 3 3 1 s)
    as [[x|e] s0] eqn:E;
    destruct (@sendMessageWithRetry_run env SupportRequestNotice 3 3 1%nat
                s _ s0 ltac:(lia) E)
      as (n0 & L & F & _ & _ & _ & _ & Sv & Sq).
  - destruct (truthyId x); mrun.
    + destruct (createGmailUrl mail text);
        [|eexists _, (n0 ++ _)%list;
          (split; [reflexivity|]);
          (split; [simpl; rewrite L, <- ?app_assoc; reflexivity|]);
          (split; [rewrite forallb_app, F; reflexivity|]);
          split; assumption].
      destruct (answer (env_telegram env SupportRequestEdit (world s0)));
        eexists _, (n0 ++ _)%list;
        (split; [reflexivity|]);
        (split; [simpl; rewrite L, <- ?app_assoc; reflexivity|]);
        (split; [rewrite forallb_app, F; reflexivity|]);
        split; assumption.
    + exists s0, n0. auto.
  - mrun. eexists _, (n0 ++ _)%list.
    split; [reflexivity|].
    split; [simpl; rewrite L, <- ?app_assoc; reflexivity|].
    split; [rewrite forallb_app, F; reflexivity|].
    split; assumption.
Qed.

End SentLines.




(** X24.  When the module-level mail service is absent ([gmailService]
    is [null], as it is when [index.ts] reads it at load), a request with
    a valid secret, the three fields present as strings and an address
    that [encodeURIComponent] accepts is answered 200 with no mail
    activity at all: no template read, no provider call, nothing queued,
    and the Token Guard untouched. *)
Theorem support_without_mail_service (env : Env) (cfg : IndexConfig)
  (req : Request) (s : Sys) :
  authenticateWebhook cfg req = true ->
  fieldsAreText (body req) = true ->
  emailEncodable (body req) = true ->
  has_gmailService cfg = false ->
  exists s',
    webhookSupport env cfg req s
    = (Ok (mkHttp 200 (ApiResponse true "Support request sent successfully")),
       s')
    /\ countEv is_mailActivity (newEvents s s') = 0%nat
    /\ queueOf s' = queueOf s
    /\ svc s' = svc s.
Proof.
  intros Ha Hf He Hg.
  destruct (fieldsAreText_inv _ Hf)
    as (nm & mail & text & En & Ee & Et & Tn & Te & Tt).
  unfold emailEncodable in He. rewrite Ee in He. cbn [textOf] in He.
  apply negb_true_iff in He.
  unfold webhookSupport.
  rewrite Ha, Tn, Te, Tt, En, Ee, Et, Hg.
  cbn [negb orb escapeMarkdownValue textOf].
  unfold encodeURIComponent at 1. rewrite He.
  unfold try_catch at 1. unfold eval at 1 2 3 4. unfold bind at 1 2 3 4 5.
  destruct (chat_part_run env mail text s)
    as (s1 & n1 & E1 & L1 & F1 & Q1 & S1).
  rewrite E1. mrun. exists s1. split; [reflexivity|].
  rewrite (@newEvents_app _ _ _ L1). split; [|split; assumption].
  unfold countEv.
  rewrite (@forallb_filter_none _ is_chatEvent is_mailActivity n1 F1); auto.
  intros ev Hev. destruct ev; try discriminate; try reflexivity.
Qed.

Lemma support_without_mail_service_witness :
  exists s',
    webhookSupport envOk (mkIndexConfig "s3cret" false true ["en"])
      sampleRequest (startState 0)
    = (Ok (mkHttp 200 (ApiResponse true "Support request sent successfully")),
       s')
    /\ countEv is_mailActivity (newEvents (startState 0) s') = 0%nat
    /\ queueOf s' = queueOf (startState 0)
    /\ svc s' = svc (startState 0).
Proof.
  apply (@support_without_mail_service envOk
           (mkIndexConfig "s3cret" false true ["en"]) sampleRequest
           (startState 0)); reflexivity.
Defined.

(** ** Markdown escaping and the header encoder *)





Lemma markdown_classes c :
  inClass c markdownV2Specials
  = (inClass c markdownSpecials || Ascii.eqb c ".")%bool.
Proof.
  destruct c as [[|] [|] [|] [|] [|] [|] [|] [|]]; reflexivity.
Qed.

Lemma dot_not_special : inClass "."%char markdownSpecials = false.
Proof. reflexivity. Qed.

(** X26.  The escaping used by the support route and by the fallback
    notices (which are sent in MarkdownV2 mode) differs from
    [escapeMarkdownV2] in one character only, the full stop: a character
    is in the V2 class exactly when it is in the other class or is a full
    stop, and the two functions agree on a text exactly when it contains
    no full stop. *)
Theorem escapeMarkdown_differs_on_full_stop (text : string) :
  (forall c, inClass c markdownV2Specials
             = (inClass c markdownSpecials || Ascii.eqb c ".")%bool)
  /\ (escapeMarkdown text = escapeMarkdownV2 text <-> hasDot text = false).
Proof.
  split; [exact markdown_classes|].
  unfold escapeMarkdown, escapeMarkdownV2, hasDot.
  induction text as [|c rest IH]; cbn [escapeClass allChars];
    [split; reflexivity|].
  rewrite markdown_classes.
  destruct (Ascii.eqb c ".") eqn:Ed.
  - apply Ascii.eqb_eq in Ed. subst c. rewrite dot_not_special.
    cbn [orb negb andb].
    split; [intros H; inversion H | discriminate].
  - rewrite orb_false_r. cbn [negb andb].
    destruct (inClass c markdownSpecials);
      (split; [intros H; inversion H; now apply IH
              | intros H; apply IH in H; now rewrite H]).
Qed.

Lemma qp_byte (b : ascii) :
  allChars qpSafe (if qpPlain b then String b EmptyString
                   else String "="%char (hexByte b)) = true
  /\ replaceSpaces (if qpPlain b then String b EmptyString
                    else String "="%char (hexByte b))
     = (if qpPlain b then String b EmptyString
        else String "="%char (hexByte b)).
Proof.
  destruct b as [[|] [|] [|] [|] [|] [|] [|] [|]];
    vm_compute; split; reflexivity.
Qed.

Lemma allChars_app p a b :
  allChars p (a ++ b)%string = (allChars p a && allChars p b)%bool.
Proof.
  induction a as [|c a IH]; simpl; auto. rewrite IH. apply andb_assoc.
Qed.

Lemma replaceSpaces_app a b :
  replaceSpaces (a ++ b)%string = (replaceSpaces a ++ replaceSpaces b)%string.
Proof. induction a as [|c a IH]; simpl; auto. now rewrite IH. Qed.

Lemma string_length_app a b :
  String.length (a ++ b)%string = (String.length a + String.length b)%nat.
Proof. induction a as [|c a IH]; simpl; auto. Qed.

(** X27.  [quotedPrintableEncode] produces printable ASCII only, without
    [?] and [_]; every byte becomes one or three characters; and the
    final replacement of white space by [_] never changes anything (a
    space has already become [=20]). *)
Theorem quotedPrintableEncode_alphabet (text : string) :
  quotedPrintableEncode text = qpLoop text
  /\ allChars qpSafe (quotedPrintableEncode text) = true
  /\ (String.length text <= String.length (quotedPrintableEncode text)
      <= 3 * String.length text)%nat.
Proof.
  unfold quotedPrintableEncode.
  assert (H : replaceSpaces (qpLoop text) = qpLoop text
              /\ allChars qpSafe (qpLoop text) = true
              /\ (String.length text <= String.length (qpLoop text)
                  <= 3 * String.length text)%nat).
  { induction text as [|b rest (IH1 & IH2 & IH3)]; cbn [qpLoop].
    - repeat split; simpl; lia.
    - destruct (qp_byte b) as [S1 S2].
      rewrite replaceSpaces_app, allChars_app, string_length_app, S1, S2, IH1,
        IH2.
      split; [reflexivity|]. split; [reflexivity|].
      destruct (qpPlain b); cbn [String.length hexByte]; lia. }
  destruct H as (H1 & H2 & H3). rewrite H1. auto.
Qed.

(** ** The token checker *)

Section Longevity.

Variable env : Env.

Lemma longevityProbe_run st s :
  exists st' s' new,
    longevityProbe env st s = (Ok st', s')
    /\ log (world s') = (log (world s) ++ new)%list
    /\ countEv is_getProfile new = 1%nat
    /\ svc s' = svc s
    /\ queueOf s' = queueOf s
    /\ ((ls_successful st' = S (ls_successful st)
         /\ ls_failed st' = ls_failed st
         /\ ls_errors st' = ls_errors st
         /\ length (ls_responseTimes st') = S (length (ls_responseTimes st))
         /\ countEv is_sleep new = 1%nat
         /\ now (world s) + 100 <= now (world s'))
        \/ (ls_successful st' = ls_successful st
            /\ ls_failed st' = S (ls_failed st)
            /\ length (ls_errors st') = S (length (ls_errors st))
            /\ ls_responseTimes st' = ls_responseTimes st
            /\ countEv is_sleep new = 0%nat
            /\ now (world s) <= now (world s'))).
Proof.
  unfold longevityProbe. mrun.
  pose proof (N2Z.is_nonneg (took (env_getProfile env (world s)))) as Hn.
  destruct (answer (env_getProfile env (world s))) as [[]|e];
    eexists _, _, _; (split; [reflexivity|]);
    (split; [simpl; rewrite <- ?app_assoc; reflexivity|]);
    (split; [reflexivity|]); (split; [reflexivity|]);
    (split; [reflexivity|]).
  - left. cbn [ls_successful ls_failed ls_errors ls_responseTimes].
    rewrite length_app. cbn [length].
    repeat split; try reflexivity; try lia. simpl. lia.
  - right. cbn [ls_successful ls_failed ls_errors ls_responseTimes].
    rewrite length_app. cbn [length].
    repeat split; try reflexivity; try lia. simpl. lia.
Qed.

Lemma longevityLoop_run remaining :
  forall st s,
    exists st' s' new,
      longevityLoop env remaining st s = (Ok st', s')
      /\ log (world s') = (log (world s) ++ new)%list
      /\ countEv is_getProfile new = remaining
      /\ svc s' = svc s
      /\ queueOf s' = queueOf s
      /\ (ls_successful st' + ls_failed st'
          = ls_successful st + ls_failed st + remaining)%nat
      /\ (length (ls_errors st') + ls_failed st
          = length (ls_errors st) + ls_failed st')%nat
      /\ (length (ls_responseTimes st') + ls_successful st
          = length (ls_responseTimes st) + ls_successful st')%nat
      /\ (countEv is_sleep new + ls_successful st = ls_successful st')%nat
      /\ now (world s)
         + 100 * (Z.of_nat (ls_successful st') - Z.of_nat (ls_successful st))
         <= now (world s').
Proof.
  induction remaining as [|remaining IH]; intros st s; cbn [longevityLoop].
  - exists st, s, []. rewrite app_nil_r.
    repeat split; auto; try lia.
  - unfold bind at 1.
    destruct (longevityProbe_run st s)
      as (st1 & s1 & n1 & E1 & L1 & P1 & V1 & Q1 & C1).
    rewrite E1.
    destruct (IH st1 s1)
      as (st2 & s2 & n2 & E2 & L2 & P2 & V2 & Q2 & A2 & B2 & D2 & G2 & T2).
    exists st2, s2, (n1 ++ n2)%list. split; [exact E2|].
    split; [rewrite L2, L1; now rewrite app_assoc|].
    rewrite !countEv_app.
    split; [lia|]. split; [congruence|]. split; [congruence|].
    destruct C1 as [(a & b & c & d & e & t)|(a & b & c & d & e & t)];
      rewrite ?c, ?d in *;
      repeat split; try lia.
Qed.

End Longevity.

(** X28.  [testTokenLongevity] never throws and always makes its five
    probes.  Every probe is counted once, as a success or as a failure;
    there is one error message per failure and one 100 ms pause per
    success; the Token Guard and the queue are not touched. *)
Theorem testTokenLongevity_accounts (env : Env) (s : Sys) :
  exists res s',
    testTokenLongevity env s = (Ok res, s')
    /\ totalTests res = 5%nat
    /\ (successfulTests res + failedTests res = totalTests res)%nat
    /\ length (errors res) = failedTests res
    /\ countEv is_getProfile (newEvents s s') = 5%nat
    /\ countEv is_sleep (newEvents s s') = successfulTests res
    /\ now (world s) + 100 * Z.of_nat (successfulTests res) <= now (world s')
    /\ svc s' = svc s
    /\ queueOf s' = queueOf s.
Proof.
  unfold testTokenLongevity. unfold bind at 1.
  destruct (longevityLoop_run env 5 (mkLongevityState 0 0 [] []) s)
    as (st & s' & new & E & L & P & V & Q & A & B & D & G & T).
  rewrite E. eexists _, s'. split; [reflexivity|].
  cbn [totalTests successfulTests failedTests errors
       ls_successful ls_failed ls_errors ls_responseTimes length] in *.
  rewrite (@newEvents_app _ _ _ L).
  repeat split; try assumption; try lia.
Qed.

(** X29.  On the result of a longevity test (where every probe is counted
    as a success or as a failure) the recommendations are never empty and
    never contradict themselves: the re-authorization lines appear
    exactly for an invalid token, the [working] line exactly for a valid
    one, the [excellent] lines exactly for a valid token with no failed
    probe, and then no failure line is present. *)
Theorem generateRecommendations_consistent (isValid : bool)
  (longevity : LongevityResults) :
  (successfulTests longevity + failedTests longevity
   = totalTests longevity)%nat ->
  generateRecommendations isValid longevity <> []
  /\ (In RecInvalid (generateRecommendations isValid longevity)
      <-> isValid = false)
  /\ (In RecWorking (generateRecommendations isValid longevity)
      <-> isValid = true)
  /\ (In RecExcellent (generateRecommendations isValid longevity)
      <-> isValid = true /\ failedTests longevity = 0%nat)
  /\ (In RecExcellent (generateRecommendations isValid longevity) ->
      forall failed total,
        ~ In (RecCallsFailed failed total)
             (generateRecommendations isValid longevity)).
Proof.
  intros Hsum. unfold generateRecommendations.
  destruct (Nat.ltb_spec 0 (failedTests longevity)) as [Hf|Hf];
    destruct (Nat.eqb_spec (successfulTests longevity) (totalTests longevity))
      as [He|He];
    try (exfalso; lia);
    destruct isValid;
    destruct (negb (Qle_bool (averageResponseTime longevity) (inject_Z 2000)));
    cbn [negb andb app];
    (split; [discriminate|]);
    (split; [split; [intros H; simpl in H; intuition discriminate
                    | intros H; try discriminate H; simpl; auto]|]);
    (split; [split; [intros H; simpl in H; intuition discriminate
                    | intros H; try discriminate H; simpl; auto]|]);
    (split; [split; [intros H; simpl in H; intuition (try discriminate; lia)
                    | intros [H1 H2]; try discriminate H1; try lia;
                      simpl; auto 10]|]);
    intros H failed total H'; simpl in H, H'; intuition discriminate.
Qed.

Lemma generateRecommendations_consistent_witness :
  In RecExcellent
    (generateRecommendations true
       (mkLongevity 5 5 0 (inject_Z 120) []))
  <-> true = true /\ 0%nat = 0%nat.
Proof.
  apply (@generateRecommendations_consistent true
           (mkLongevity 5 5 0 (inject_Z 120) [])).
  reflexivity.
Defined.

(** ** The webhook secret *)

Lemma substring_all (t : string) : substring 0 (String.length t) t = t.
Proof. induction t as [|c t IH]; simpl; auto. now rewrite IH. Qed.

Lemma replaceFirst_bearer (t : string) :
  replaceFirst "Bearer " "" ("Bearer " ++ t) = t.
Proof.
  destruct t as [|c t]; [reflexivity|].
  cbn. now rewrite substring_all.
Qed.

(** X30.  How the secret is read from a request: a non-empty
    [x-webhook-secret] header decides alone (the [Authorization] header is
    then ignored, also when it holds the right secret); without it, an
    [Authorization] header of the form [Bearer <t>] is accepted exactly
    when [t] is the secret; a header that is not a single string counts as
    absent. *)
Theorem authenticateWebhook_reads_secret (cfg : IndexConfig) (auth : Header)
  (b : SupportRequestBody) (s t : string) (l : list string) :
  (falsy (Some s) = false ->
   authenticateWebhook cfg (mkRequest (HString s) auth b)
   = String.eqb s (WEBHOOK_SECRET cfg))
  /\ authenticateWebhook cfg (mkRequest HAbsent (HString ("Bearer " ++ t)) b)
     = String.eqb t (WEBHOOK_SECRET cfg)
  /\ authenticateWebhook cfg (mkRequest (HString "") (HString ("Bearer " ++ t)) b)
     = String.eqb t (WEBHOOK_SECRET cfg)
  /\ authenticateWebhook cfg (mkRequest (HArray l) auth b)
     = authenticateWebhook cfg (mkRequest HAbsent auth b).
Proof.
  unfold authenticateWebhook, orElse.
  cbn [x_webhook_secret authorization].
  split; [intros Hs; now rewrite Hs|].
  cbn [falsy]. rewrite replaceFirst_bearer. auto.
Qed.

Lemma authenticateWebhook_reads_secret_witness :
  authenticateWebhook sampleConfig
    (mkRequest (HString "guess") (HString "Bearer s3cret")
       (mkBody BAbsent BAbsent BAbsent BAbsent))
  = false.
Proof.
  destruct (@authenticateWebhook_reads_secret sampleConfig
              (HString "Bearer s3cret") (mkBody BAbsent BAbsent BAbsent BAbsent)
              "guess" "" []) as [H _].
  rewrite H; reflexivity.
Defined.

(** ** Sample runs *)

(** A full disk during re-authorization: the error page, and the record
    left as it was. *)
Example callback_disk_full :
  fst (callback envDiskFull (Some "4/0AbCd") None (startState 50))
  = Ok (ErrorPage "Failed to complete authorization: ENOSPC: no space left on device")
  /\ tokenFile (snd (callback envDiskFull (Some "4/0AbCd") None (startState 50)))
     = None.
Proof. split; vm_compute; reflexivity. Qed.

(** A probe that fails every second time: three successes, two failures,
    two messages. *)
Example longevity_flaky :
  exists res,
    fst (testTokenLongevity envFlaky (startState 0)) = Ok res
    /\ successfulTests res = 3%nat
    /\ failedTests res = 2%nat
    /\ errors res = [Some "Service Unavailable"; Some "Service Unavailable"].
Proof. eexists. split; [vm_compute; reflexivity|]. repeat split. Qed.

(** Two requests on a route with the mail service wired in, an auto-retry
    tick and a monitor tick while the refresh credential is revoked: both
    confirmations wait in the queue, the token is marked invalid and one
    notification has been sent. *)
Example revoked_credential_run :
  length (failedEmails (runComponentOps envRevoked sampleConfig sampleOps
                          (startState 0))) = 2%nat
  /\ isTokenValid (svc (runComponentOps envRevoked sampleConfig sampleOps
                          (startState 0))) = false
  /\ notificationSent (svc (runComponentOps envRevoked sampleConfig sampleOps
                              (startState 0))) = true
  /\ countEv is_notification
       (log (world (runComponentOps envRevoked sampleConfig sampleOps
                      (startState 0)))) = 1%nat.
Proof. repeat split; vm_compute; reflexivity. Qed.
